(** * Tri-DSL: a shallow embedding of [Tri.cxx] and its specification

    The translator reads a line-oriented DSL, lowers it to a small
    assembler dialect ([pass1]), sizes the lines and records labels
    ([asm_passA]) and emits the bytes of [out.bin] ([asm_passB]).

    C strings are lists of characters (without the terminating NUL);
    [unsigned]/[uint32_t] values are [Z] with the wrap-around written out;
    the global arrays are lists whose length is the matching counter
    ([sl], [al], [ln2], [nl2]); [exit(1)] after a diagnostic is the
    outcome [Fatal]; a read through a null pointer or a write behind the
    end of a global array is the outcome [Undefined]. *)

From Stdlib Require Import ZArith String Ascii List Bool Lia DecimalString.
Import ListNotations.

(** ** Outcomes: normal return, fatal diagnostic, undefined behaviour *)

Definition cstr := list ascii.

Definition cs (s : string) : cstr := list_ascii_of_string s.

Arguments cs s%_string.

(** The format strings of the calls to [die], [dieSrc] and [dieAsm],
    with the arguments they print. *)
Inductive message : Type :=
| CannotOpenSource
| TooManySourceLines
| MalformedHex (s : cstr)
| MalformedDecimal (s : cstr)
| DuplicateLabel (nm : cstr)
| TooManyLabels
| UndefinedLabel (nm : cstr)
| LjmpNeedsTwoArgs
| PowerGateArgs
| SmtWeightArgs
| PatchBankArgs
| ScopeOverflow
| UnmatchedScopeClose
| BorrowError
| Asm1Overflow
| HeadOffset
| SprintfOverflow
| UnclosedScopes
| Lines2Overflow
| DBByteOutOfRange (b : Z)
| FillByteOutOfRange (b : Z)
| IntImm8OutOfRange (b : Z)
| UnknownDirective (tok : cstr).

(** [Die m] is [die]; [DieAt idx m] is [dieSrc(idx, ...)], which prints
    "Error at source line idx+1" and the text [src[idx]]; [dieAsm] prints
    the same shape after resolving its index through the provenance
    arrays. *)
Inductive diag : Type :=
| Die (m : message)
| DieAt (idx : nat) (m : message).

Inductive outcome (A : Type) : Type :=
| Done (a : A)
| Fatal (d : diag)
| Undefined.

Arguments Done {A} a.
Arguments Fatal {A} d.
Arguments Undefined {A}.

Definition bind {A B : Type} (m : outcome A) (k : A -> outcome B) : outcome B :=
  match m with
  | Done a => k a
  | Fatal d => Fatal d
  | Undefined => Undefined
  end.

Notation "x <- m ;; k" := (bind m (fun x => k))
  (at level 61, m at next level, right associativity).

(** ** The parts of the C library the program calls *)

Module CLib.

Definition code (c : ascii) : Z := Z.of_N (N_of_ascii c).

Definition is_char (n : Z) (c : ascii) : bool := (code c =? n)%Z.

(** [isspace] in the C locale: space, and HT, LF, VT, FF, CR. *)
Definition isspace (c : ascii) : bool :=
  (code c =? 32)%Z || ((9 <=? code c)%Z && (code c <=? 13)%Z).

Definition isdigit (c : ascii) : bool :=
  (48 <=? code c)%Z && (code c <=? 57)%Z.

Definition isupper (c : ascii) : bool :=
  (65 <=? code c)%Z && (code c <=? 90)%Z.

Definition islower (c : ascii) : bool :=
  (97 <=? code c)%Z && (code c <=? 122)%Z.

Definition tolower (c : ascii) : ascii :=
  if isupper c then ascii_of_N (N_of_ascii c + 32) else c.

(** Value of a character as a digit of [strtoul]: 0-9, then letters of
    either case from 10 on. *)
Definition digit_value (c : ascii) : option Z :=
  if isdigit c then Some (code c - 48)%Z
  else if islower c then Some (code c - 87)%Z
  else if isupper c then Some (code c - 55)%Z
  else None.

Definition digit_in (base : Z) (c : ascii) : option Z :=
  match digit_value c with
  | Some d => if (d <? base)%Z then Some d else None
  | None => None
  end.

Definition is_digit_in (base : Z) (c : ascii) : bool :=
  match digit_in base c with Some _ => true | None => false end.

(** Consume the longest run of digits of [base], accumulating the value. *)
Fixpoint scan_digits (base : Z) (s : cstr) (acc : Z) : Z * cstr :=
  match s with
  | [] => (acc, [])
  | c :: s' =>
      match digit_in base c with
      | Some d => scan_digits base s' (acc * base + d)%Z
      | None => (acc, s)
      end
  end.

Fixpoint skip (p : ascii -> bool) (s : cstr) : cstr :=
  match s with
  | [] => []
  | c :: s' => if p c then skip p s' else s
  end.

Fixpoint span (p : ascii -> bool) (s : cstr) : cstr :=
  match s with
  | [] => []
  | c :: s' => if p c then c :: span p s' else []
  end.

(** The common part of [strtoul] and [strtol]: white space, an optional
    sign, an optional [0x]/[0X] when the base is 16 or 0 (only when a hex
    digit follows), the base chosen by the prefix when the base is 0, then
    the digits. [None] is "no conversion" ([*end == nptr]); otherwise the
    sign, the magnitude and the text [end] points to. *)
Definition strto_core (base : Z) (s : cstr) : option (bool * Z * cstr) :=
  let s1 := skip isspace s in
  let '(neg, s2) :=
    match s1 with
    | c :: r =>
        if is_char 45 c then (true, r)
        else if is_char 43 c then (false, r)
        else (false, s1)
    | [] => (false, s1)
    end in
  let '(b, s3) :=
    match s2 with
    | z :: x :: h :: r =>
        if is_char 48 z && (is_char 120 x || is_char 88 x)
           && ((base =? 0)%Z || (base =? 16)%Z) && is_digit_in 16 h
        then (16%Z, h :: r)
        else if (base =? 0)%Z then ((if is_char 48 z then 8 else 10)%Z, s2)
        else (base, s2)
    | z :: _ =>
        if (base =? 0)%Z then ((if is_char 48 z then 8 else 10)%Z, s2)
        else (base, s2)
    | [] => (base, s2)
    end in
  match s3 with
  | c :: _ =>
      if is_digit_in b c
      then let '(v, rest) := scan_digits b s3 0 in Some (neg, v, rest)
      else None
  | [] => None
  end.

(** [unsigned long] and [long] are 64 bits wide (LP64). *)
Definition ULONG_MAX : Z := 2 ^ 64 - 1.
Definition LONG_MAX : Z := 2 ^ 63 - 1.
Definition LONG_MIN : Z := - 2 ^ 63.

(** [strtoul(s, &end, base)]: [None] when [end == s]; the value saturates
    at [ULONG_MAX], and a minus sign negates it in [unsigned long]. *)
Definition strtoul (s : cstr) (base : Z) : option (Z * cstr) :=
  match strto_core base s with
  | None => None
  | Some (neg, v, rest) =>
      Some ((if (ULONG_MAX <? v)%Z then ULONG_MAX
             else if neg then (- v) mod 2 ^ 64 else v)%Z, rest)
  end.

Definition strtol (s : cstr) (base : Z) : option (Z * cstr) :=
  match strto_core base s with
  | None => None
  | Some (neg, v, rest) =>
      Some ((if neg
             then (if (- v <? LONG_MIN)%Z then LONG_MIN else - v)
             else (if (LONG_MAX <? v)%Z then LONG_MAX else v))%Z, rest)
  end.

(** [atoi(s)] is [(int) strtol(s, NULL, 10)], 0 when nothing converts. *)
Definition atoi (s : cstr) : Z :=
  match strtol s 10 with
  | None => 0
  | Some (v, _) => ((v + 2 ^ 31) mod 2 ^ 32 - 2 ^ 31)%Z
  end.

(** [strncmp(s, p, strlen p) == 0] *)
Fixpoint starts_with (p s : cstr) : bool :=
  match p, s with
  | [], _ => true
  | a :: p', b :: s' => Ascii.eqb a b && starts_with p' s'
  | _ :: _, [] => false
  end.

(** [strcmp(a, b) == 0] *)
Fixpoint streq (a b : cstr) : bool :=
  match a, b with
  | [], [] => true
  | x :: a', y :: b' => Ascii.eqb x y && streq a' b'
  | _, _ => false
  end.

(** [strchr(s, c)]: the text before the first [c] and the text after it. *)
Fixpoint strchr (c : ascii) (s : cstr) : option (cstr * cstr) :=
  match s with
  | [] => None
  | x :: s' =>
      if Ascii.eqb x c then Some ([], s')
      else match strchr c s' with
           | Some (pre, post) => Some (x :: pre, post)
           | None => None
           end
  end.

(** The delimiters of every [strtok]/[strtok_r] call: space, tab, comma. *)
Definition is_delim (c : ascii) : bool :=
  is_char 32 c || is_char 9 c || is_char 44 c.

(** One call of [strtok_r]: skip delimiters, take the token, and leave the
    save pointer behind the delimiter that ended it. *)
Definition not_delim (c : ascii) : bool := negb (is_delim c).

Definition strtok_r (s : cstr) : option (cstr * cstr) :=
  match skip is_delim s with
  | [] => None
  | c :: r => Some (span not_delim (c :: r), tl (skip not_delim (c :: r)))
  end.

(** All the tokens successive calls return (see [tokens_strtok_r]). *)
Fixpoint tokens_from (cur : cstr) (s : cstr) : list cstr :=
  match s with
  | [] => match cur with [] => [] | _ => [cur] end
  | c :: s' =>
      if is_delim c
      then match cur with
           | [] => tokens_from [] s'
           | _ => cur :: tokens_from [] s'
           end
      else tokens_from (cur ++ [c]) s'
  end.

Definition tokens (s : cstr) : list cstr := tokens_from [] s.

(** [fgets(buf, n + 1, f)]: at most [n] characters, up to and including
    the first newline; the characters read and the rest of the file. *)
Fixpoint fgets (n : nat) (f : cstr) : cstr * cstr :=
  match n, f with
  | O, _ => ([], f)
  | _, [] => ([], [])
  | S n', c :: f' =>
      if is_char 10 c then ([c], f')
      else let '(buf, rest) := fgets n' f' in (c :: buf, rest)
  end.

(** What a buffer holds as a C string: the characters before the first NUL. *)
Definition not_nul (c : ascii) : bool := negb (is_char 0 c).

Definition c_string (buf : cstr) : cstr := span not_nul buf.

(** [snprintf(tmp, n + 1, ...)] keeps at most [n] characters. *)
Definition snprintf (n : nat) (s : cstr) : cstr := firstn n s.

(** The output file: a position and the bytes written so far. Writing
    behind the end fills the gap with zero bytes. *)
Record FILE : Type := { fpos : nat; fdata : list Z }.

Definition fopen_wb : FILE := {| fpos := 0; fdata := [] |}.

Fixpoint list_set {A : Type} (i : nat) (x : A) (l : list A) : list A :=
  match l, i with
  | [], _ => []
  | _ :: l', O => x :: l'
  | y :: l', S i' => y :: list_set i' x l'
  end.

Definition fputc (b : Z) (f : FILE) : FILE :=
  if (fpos f <? length (fdata f))%nat
  then {| fpos := S (fpos f); fdata := list_set (fpos f) b (fdata f) |}
  else {| fpos := S (fpos f);
          fdata := fdata f ++ repeat 0%Z (fpos f - length (fdata f)) ++ [b] |}.

Definition fseek_set (off : Z) (f : FILE) : FILE :=
  {| fpos := Z.to_nat off; fdata := fdata f |}.

End CLib.

(** ** The translator *)

Module Tri.
Import CLib.

Definition MAXL : nat := 512.
Definition LNSZ : nat := 80.
Definition MAXLB : nat := 128.
Definition MAXS : nat := 16.

Record Label : Type := { name : cstr; addr : Z }.
Record BorrowFrame : Type := { bm : bool; bi : bool }.

Definition to_uint32 (z : Z) : Z := (z mod 2 ^ 32)%Z.
Definition to_int32 (z : Z) : Z := ((z + 2 ^ 31) mod 2 ^ 32 - 2 ^ 31)%Z.

(** *** [trim] *)

Definition is_blank (c : ascii) : bool := is_char 32 c || is_char 9 c.

Definition is_trailing (c : ascii) : bool :=
  is_blank c || is_char 13 c || is_char 10 c.

(** The second loop of [trim]: NUL bytes stored from the end backwards,
    as long as the last character is a blank, CR or LF. *)
Fixpoint rstrip (s : cstr) : cstr :=
  match s with
  | [] => []
  | c :: s' =>
      match rstrip s' with
      | [] => if is_trailing c then [] else [c]
      | r => c :: r
      end
  end.

(** The string [trim] returns: [s] advanced past blanks, then cut. *)
Definition trim (s : cstr) : cstr := rstrip (skip is_blank s).

(** What the buffer passed to [trim] holds afterwards: the leading blanks
    stay, only the tail is cut. *)
Definition trim_in_place (s : cstr) : cstr := span is_blank s ++ trim s.

(** *** The global variables *)

Record globals : Type :=
  { src : list cstr;            (* src[0 .. sl-1] *)
    asm1 : list cstr;           (* asm1[0 .. al-1] *)
    asmSrcLine : list nat;      (* asmSrcLine[0 .. al-1] *)
    lines2 : list cstr;         (* lines2[0 .. ln2-1] *)
    lines2AsmIdx : list nat;    (* lines2AsmIdx[0 .. ln2-1] *)
    bstack : list BorrowFrame;  (* all MAXS frames *)
    sp : nat;
    lbl2 : list Label;          (* lbl2[0 .. nl2-1] *)
    out : FILE }.

Definition no_borrow : BorrowFrame := {| bm := false; bi := false |}.

(** The static initialisers. *)
Definition start : globals :=
  {| src := []; asm1 := []; asmSrcLine := []; lines2 := []; lines2AsmIdx := [];
     bstack := repeat no_borrow MAXS; sp := 0; lbl2 := []; out := fopen_wb |}.

Definition sl (g : globals) : nat := length (src g).
Definition al (g : globals) : nat := length (asm1 g).
Definition ln2 (g : globals) : nat := length (lines2 g).
Definition nl2 (g : globals) : nat := length (lbl2 g).

Definition set_src (v : list cstr) (g : globals) : globals :=
  {| src := v; asm1 := asm1 g; asmSrcLine := asmSrcLine g; lines2 := lines2 g;
     lines2AsmIdx := lines2AsmIdx g; bstack := bstack g; sp := sp g;
     lbl2 := lbl2 g; out := out g |}.

Definition set_asm1 (a : list cstr) (p : list nat) (g : globals) : globals :=
  {| src := src g; asm1 := a; asmSrcLine := p; lines2 := lines2 g;
     lines2AsmIdx := lines2AsmIdx g; bstack := bstack g; sp := sp g;
     lbl2 := lbl2 g; out := out g |}.

Definition set_scope (b : list BorrowFrame) (n : nat) (g : globals) : globals :=
  {| src := src g; asm1 := asm1 g; asmSrcLine := asmSrcLine g;
     lines2 := lines2 g; lines2AsmIdx := lines2AsmIdx g; bstack := b; sp := n;
     lbl2 := lbl2 g; out := out g |}.

Definition set_lines2 (l : list cstr) (p : list nat) (g : globals) : globals :=
  {| src := src g; asm1 := asm1 g; asmSrcLine := asmSrcLine g; lines2 := l;
     lines2AsmIdx := p; bstack := bstack g; sp := sp g; lbl2 := lbl2 g;
     out := out g |}.

Definition set_lbl2 (t : list Label) (g : globals) : globals :=
  {| src := src g; asm1 := asm1 g; asmSrcLine := asmSrcLine g;
     lines2 := lines2 g; lines2AsmIdx := lines2AsmIdx g; bstack := bstack g;
     sp := sp g; lbl2 := t; out := out g |}.

Definition set_out (f : FILE) (g : globals) : globals :=
  {| src := src g; asm1 := asm1 g; asmSrcLine := asmSrcLine g;
     lines2 := lines2 g; lines2AsmIdx := lines2AsmIdx g; bstack := bstack g;
     sp := sp g; lbl2 := lbl2 g; out := f |}.

(** *** Diagnostics *)

Definition dieSrc {A : Type} (idx : nat) (m : message) : outcome A :=
  Fatal (DieAt idx m).

(** A global [int] array of [MAXL] zero-initialised entries, of which the
    list holds the ones written so far. *)
Definition read_index (arr : list nat) (k : nat) : option nat :=
  if (k <? MAXL)%nat then Some (nth k arr 0%nat) else None.

(** [sidx = asmSrcLine[ lines2AsmIdx[aidx] ]] *)
Definition dieAsm {A : Type} (g : globals) (aidx : nat) (m : message)
  : outcome A :=
  match read_index (lines2AsmIdx g) aidx with
  | None => Undefined
  | Some k =>
      match read_index (asmSrcLine g) k with
      | None => Undefined
      | Some sidx => Fatal (DieAt sidx m)
      end
  end.

(** *** [parseImm]; a null [s] is dereferenced at [s[0]]. *)
Definition parseImm (g : globals) (s : option cstr) (aidx : nat)
  : outcome Z :=
  match s with
  | None => Undefined
  | Some s =>
      if starts_with (cs "0x") s
      then match strtoul (skipn 2 s) 16 with
           | None => dieAsm g aidx (MalformedHex s)
           | Some (v, rest) =>
               match rest with
               | [] => Done (to_uint32 v)
               | _ :: _ => dieAsm g aidx (MalformedHex s)
               end
           end
      else match strtoul s 10 with
           | None => dieAsm g aidx (MalformedDecimal s)
           | Some (v, _) => Done (to_uint32 v)
           end
  end.

(** *** [read_src]

    [fuel] bounds the number of [fgets] calls; every call on a file that is
    not at its end consumes a character, so [length f] calls are enough
    ([read_loop_fuel]). *)
(** The body of the loop: a trimmed line that is empty or starts with a
    semicolon is dropped, any other is stored in [src[sl++]]. *)
Definition keep_line (t : cstr) (src : list cstr) : outcome (list cstr) :=
  match t with
  | [] => Done src
  | c :: _ =>
      if is_char 59 c then Done src
      else if (MAXL <=? length src)%nat then Fatal (Die TooManySourceLines)
      else Done (src ++ [t])
  end.

Fixpoint read_loop (fuel : nat) (f : cstr) (src : list cstr)
  : outcome (list cstr) :=
  match f with
  | [] => Done src
  | _ :: _ =>
      match fuel with
      | O => Undefined
      | S fuel' =>
          let '(buf, rest) := fgets (LNSZ - 1) f in
          src' <- keep_line (trim (c_string buf)) src ;;
          read_loop fuel' rest src'
      end
  end.

(** [None] is a file that cannot be opened. *)
Definition read_src (file : option cstr) (g : globals) : outcome globals :=
  match file with
  | None => Fatal (Die CannotOpenSource)
  | Some f => s <- read_loop (length f) f (src g) ;; Done (set_src s g)
  end.

(** *** [line_sz] *)

Definition ends_with (n : Z) (s : cstr) : bool :=
  is_char n (last s zero).

(** [atoi] of the null pointer when [FILL] has no operand. *)
Definition line_sz (ln : cstr) : outcome Z :=
  match tokens ln with
  | [] => Done 0%Z
  | tok :: args =>
      if ends_with 58 tok then Done 0%Z
      else if streq tok (cs "ORG") then Done 0%Z
      else if streq tok (cs "DB") then Done (to_uint32 (Z.of_nat (length args)))
      else if streq tok (cs "FILL") then
        match args with
        | [] => Undefined
        | n :: _ => Done (to_uint32 (atoi n))
        end
      else if streq tok (cs "INT") then Done 2%Z
      else if streq tok (cs "JMP") || streq tok (cs "CALL") then Done 5%Z
      else if streq tok (cs "LJMP") then Done 6%Z
      else Done 0%Z
  end.

(** *** The label table *)

Definition recordLabel (g : globals) (nm : cstr) (pc : Z) (aidx : nat)
  : outcome globals :=
  if existsb (fun l => streq (name l) nm) (lbl2 g)
  then dieAsm g aidx (DuplicateLabel nm)
  else if (MAXLB <=? nl2 g)%nat
       then dieAsm g aidx TooManyLabels
       else Done (set_lbl2 (lbl2 g ++ [{| name := firstn 15 nm; addr := pc |}]) g).

(** [strcmp] with a null [nm] when the mnemonic has no operand. *)
Definition find_lbl (g : globals) (nm : option cstr) (aidx : nat) : outcome Z :=
  match nm with
  | None => Undefined
  | Some nm =>
      match find (fun l => streq (name l) nm) (lbl2 g) with
      | Some l => Done (addr l)
      | None => dieAsm g aidx (UndefinedLabel nm)
      end
  end.

(** *** [pass1]: DSL lines to assembler lines, with the borrow checks *)

(** [asmSrcLine[al]=i; strcpy(asm1[al++], text);] The arrays have [MAXL]
    slots; the statement itself does not look at [al]. *)
Definition emit_asm1 (i : nat) (text : cstr) (g : globals) : outcome globals :=
  if (MAXL <=? al g)%nat then Undefined
  else Done (set_asm1 (asm1 g ++ [text]) (asmSrcLine g ++ [i]) g).

(** The two lines of an extension form: a fixed [INT] line, then the
    [DB] line built with [snprintf(tmp, LNSZ, ...)]. *)
Definition emit_pair (i : nat) (op db : cstr) (g : globals) : outcome globals :=
  g1 <- emit_asm1 i op g ;;
  emit_asm1 i (snprintf (LNSZ - 1) db) g1.

(** [bstack[sp]] *)
Definition top (g : globals) : BorrowFrame := nth (sp g) (bstack g) no_borrow.

Definition set_top (f : BorrowFrame) (g : globals) : globals :=
  set_scope (list_set (sp g) f (bstack g)) (sp g) g.

(** [%ld] of a value that is not negative. *)
Definition print_ld (v : Z) : cstr :=
  cs (NilZero.string_of_uint (N.to_uint (Z.to_N v))).

(** From the comment "Borrow & scopes" to the end of the loop body.
    [lower] is the case-folded copy made before the rewrites, [line] the
    line after them. *)
Definition pass1_rest (i : nat) (lower line : cstr) (g : globals)
  : outcome globals :=
  if streq line (cs "{") then
    if (MAXS <=? sp g + 1)%nat then dieSrc i ScopeOverflow
    else Done (set_scope (list_set (sp g + 1) no_borrow (bstack g)) (sp g + 1) g)
  else if streq line (cs "}") then
    if (sp g =? 0)%nat then dieSrc i UnmatchedScopeClose
    else Done (set_scope (bstack g) (sp g - 1) g)
  else if starts_with (cs "let &mut") line then
    if bm (top g) || bi (top g) then dieSrc i BorrowError
    else Done (set_top {| bm := true; bi := bi (top g) |} g)
  else if starts_with (cs "let &") line then
    if bm (top g) then dieSrc i BorrowError
    else Done (set_top {| bm := bm (top g); bi := true |} g)
  else if streq line (cs "tape_start()") then
    if (MAXL <=? al g + 2)%nat then dieSrc i Asm1Overflow
    else g1 <- emit_asm1 i (cs "ORG 0x500") g ;;
         emit_asm1 i (cs "DB 0xBE,0x00,0x05") g1
  else if streq line (cs "load()") then
    if (MAXL <=? al g + 1)%nat then dieSrc i Asm1Overflow
    else emit_asm1 i (cs "DB 0x8A,0x04") g
  else if streq line (cs "store()") then
    if (MAXL <=? al g + 1)%nat then dieSrc i Asm1Overflow
    else emit_asm1 i (cs "DB 0x88,0x04") g
  else if starts_with (cs "head +=") line then
    match strtol (skipn 7 line) 0 with
    | None => dieSrc i HeadOffset
    | Some (v, _) =>
        if (v <? 0)%Z || (255 <? v)%Z then dieSrc i HeadOffset
        else
          let tmp := cs "DB 0x83,0xC6," ++ print_ld v in
          if (LNSZ <=? length tmp)%nat then dieSrc i SprintfOverflow
          else if (MAXL <=? al g + 1)%nat then dieSrc i Asm1Overflow
          else emit_asm1 i tmp g
    end
  else if starts_with (cs "org_set(") lower && ends_with 41 line then
    emit_pair i (cs "INT 0x05") (cs "DB " ++ skipn 8 (removelast line)) g
  else
    if (MAXL <=? al g)%nat then dieSrc i Asm1Overflow
    else emit_asm1 i line g.

(** One iteration of the loop of [pass1] on [src[i]]. ([read_src] stores
    the lines trimmed, so [trim(src[i])] cuts nothing from [src[i]].) A
    rewrite [sprintf(line, "ORG %s", line+4)] leaves the payload where it
    is and overwrites the [4] characters before it; the one of [ljmp] also
    puts a colon where the first comma was. *)
Definition pass1_line (i : nat) (srcline : cstr) (g : globals)
  : outcome globals :=
  let line := trim srcline in
  let lower := map tolower line in
  let form (nm : cstr) := starts_with nm lower && ends_with 41 line in
  let arg (n : nat) := skipn n (removelast line) in
  if form (cs "org(") then pass1_rest i lower (cs "ORG " ++ arg 4) g
  else if form (cs "db(") then pass1_rest i lower (cs "DB " ++ arg 3) g
  else if form (cs "fill(") then pass1_rest i lower (cs "FILL " ++ arg 5) g
  else if form (cs "int(") then pass1_rest i lower (cs "INT " ++ arg 4) g
  else if form (cs "jmp(") then pass1_rest i lower (cs "JMP " ++ arg 4) g
  else if form (cs "call(") then pass1_rest i lower (cs "CALL " ++ arg 5) g
  else if form (cs "ljmp(") then
    match strchr ","%char (arg 5) with
    | None => dieSrc i LjmpNeedsTwoArgs
    | Some (p, c1) => pass1_rest i lower (cs "LJMP " ++ p ++ cs ":" ++ c1) g
    end
  else if form (cs "fold_mode(") then
    emit_pair i (cs "INT 0x01") (cs "DB " ++ arg 10) g
  else if form (cs "power_gate(") then
    match strchr ","%char (arg 11) with
    | None => dieSrc i PowerGateArgs
    | Some (unit, c1) =>
        emit_pair i (cs "INT 0x02") (cs "DB " ++ unit ++ cs "," ++ trim c1) g
    end
  else if form (cs "bist_start(") then
    emit_pair i (cs "INT 0x10") (cs "DB " ++ arg 11) g
  else if form (cs "smt_weight(") then
    match strchr ","%char (arg 11) with
    | None => dieSrc i SmtWeightArgs
    | Some (tid, c1) =>
        emit_pair i (cs "INT 0x20") (cs "DB " ++ tid ++ cs "," ++ trim c1) g
    end
  else if form (cs "mme(") then
    emit_pair i (cs "INT 0x30") (cs "DB " ++ arg 4) g
  else if form (cs "patch_bank(") then
    match strchr ","%char (arg 11) with
    | None => dieSrc i PatchBankArgs
    | Some (bank, c1) =>
        emit_pair i (cs "INT 0x03") (cs "DB " ++ bank ++ cs "," ++ trim c1) g
    end
  else if form (cs "patch_commit(") then
    emit_pair i (cs "INT 0x04") (cs "DB " ++ arg 13) g
  else if form (cs "perf_sample(") then
    emit_pair i (cs "INT 0x40") (cs "DB " ++ arg 12) g
  else if form (cs "link_config(") then
    emit_pair i (cs "INT 0x50") (cs "DB " ++ arg 12) g
  else pass1_rest i lower line g.

(** [for(int i=0;i<sl;i++)] over the lines [src[i], src[i+1], ...]. *)
Fixpoint pass1_loop (i : nat) (lines : list cstr) (g : globals)
  : outcome globals :=
  match lines with
  | [] => Done g
  | l :: rest => g' <- pass1_line i l g ;; pass1_loop (S i) rest g'
  end.

Definition pass1 (g : globals) : outcome globals :=
  g' <- pass1_loop 0 (src g)
          (set_scope (list_set 0 no_borrow (bstack g)) 0 g) ;;
  if (sp g' =? 0)%nat then Done g'
  else dieSrc (sl g' - 1) UnclosedScopes.

(** *** [asm_passA]: clone the lowered lines, then size them and record
    the labels *)

(** The first loop, at index [i] with [asm1[i], asm1[i+1], ...] to go.
    ([malloc] is taken to succeed.) *)
Fixpoint clone_loop (i : nat) (todo : list cstr) (g : globals)
  : outcome globals :=
  match todo with
  | [] => Done g
  | a :: rest =>
      if (MAXL <=? ln2 g)%nat then dieAsm g i Lines2Overflow
      else clone_loop (S i) rest
             (set_lines2 (lines2 g ++ [a]) (lines2AsmIdx g ++ [i]) g)
  end.

(** The second loop, with [n] iterations to go from index [i].
    [trim(lines2[i])] cuts the assembler line itself, and [line_sz] then
    reads the line as cut. *)
Fixpoint label_loop (n i : nat) (pc : Z) (g : globals) : outcome (Z * globals) :=
  match n with
  | O => Done (pc, g)
  | S n' =>
      let raw := nth i (lines2 g) [] in
      let g1 := set_lines2 (list_set i (trim_in_place raw) (lines2 g))
                  (lines2AsmIdx g) g in
      match tokens (trim raw) with
      | [] => label_loop n' (S i) pc g1
      | tok :: _ =>
          if ends_with 58 tok then
            g2 <- recordLabel g1 (removelast tok) pc i ;;
            label_loop n' (S i) pc g2
          else
            sz <- line_sz (nth i (lines2 g1) []) ;;
            label_loop n' (S i) (to_uint32 (pc + sz)) g1
      end
  end.

Definition asm_passA (g : globals) : outcome globals :=
  g1 <- clone_loop 0 (asm1 g) g ;;
  r <- label_loop (ln2 g1) 0 0%Z g1 ;;
  Done (snd r).

(** *** [asm_passB]: emit [out.bin] *)

Definition e8 (b : Z) (f : FILE) : FILE := fputc (b mod 2 ^ 8)%Z f.

Definition e16 (w : Z) (f : FILE) : FILE :=
  let w := (w mod 2 ^ 16)%Z in
  e8 (Z.shiftr w 8) (e8 (Z.land w 255) f).

Definition e32 (w : Z) (f : FILE) : FILE :=
  let w := to_uint32 w in
  e16 (Z.shiftr w 16) (e16 (Z.land w 65535) f).

(** The [while] loop of [DB] over the operands still to come. *)
Fixpoint db_loop (i : nat) (args : list cstr) (pc : Z) (g : globals)
  : outcome (Z * globals) :=
  match args with
  | [] => Done (pc, g)
  | v :: rest =>
      b <- parseImm g (Some v) i ;;
      if (255 <? b)%Z then dieAsm g i (DBByteOutOfRange b)
      else db_loop i rest (to_uint32 (pc + 1)) (set_out (e8 b (out g)) g)
  end.

(** [for(unsigned j=0;j<cnt;j++){ e8((uint8_t)val); pc++; }] *)
Fixpoint fill_loop (cnt : nat) (val : Z) (pc : Z) (f : FILE) : Z * FILE :=
  match cnt with
  | O => (pc, f)
  | S cnt' => fill_loop cnt' val (to_uint32 (pc + 1)) (e8 val f)
  end.

(** One iteration of the loop of [asm_passB] on [lines2[i]]. [LJMP]
    without an operand, or with an operand without [':'], writes through
    a null pointer. *)
Definition passB_line (i : nat) (ln : cstr) (pc : Z) (g : globals)
  : outcome (Z * globals) :=
  match tokens ln with
  | [] => Done (pc, g)
  | tok :: args =>
      if streq tok (cs "ORG") then
        v <- parseImm g (nth_error args 0) i ;;
        Done (v, set_out (fseek_set v (out g)) g)
      else if streq tok (cs "DB") then db_loop i args pc g
      else if streq tok (cs "FILL") then
        cnt <- parseImm g (nth_error args 0) i ;;
        val <- parseImm g (nth_error args 1) i ;;
        if (255 <? val)%Z then dieAsm g i (FillByteOutOfRange val)
        else let '(pc', f) := fill_loop (Z.to_nat cnt) val pc (out g) in
             Done (pc', set_out f g)
      else if streq tok (cs "INT") then
        imm <- parseImm g (nth_error args 0) i ;;
        if (255 <? imm)%Z then dieAsm g i (IntImm8OutOfRange imm)
        else Done (to_uint32 (pc + 2),
                   set_out (e8 imm (e8 205 (out g))) g)
      else if streq tok (cs "JMP") || streq tok (cs "CALL") then
        let g1 := set_out (e8 (if starts_with (cs "J") tok then 233 else 232)
                             (out g)) g in
        dest <- find_lbl g1 (nth_error args 0) i ;;
        let rel := (to_int32 dest - to_int32 (to_uint32 (pc + 5)))%Z in
        Done (to_uint32 (pc + 5), set_out (e32 (to_uint32 rel) (out g1)) g1)
      else if streq tok (cs "LJMP") then
        let g1 := set_out (e8 234 (out g)) g in
        match nth_error args 0 with
        | None => Undefined
        | Some p =>
            match strchr ":"%char p with
            | None => Undefined
            | Some (p', sg) =>
                off <- parseImm g1 (Some p') i ;;
                s <- parseImm g1 (Some sg) i ;;
                Done (to_uint32 (pc + 6),
                      set_out (e16 s (e32 off (out g1))) g1)
            end
        end
      else if ends_with 58 tok then Done (pc, g)
      else dieAsm g i (UnknownDirective tok)
  end.

Fixpoint passB_loop (n i : nat) (pc : Z) (g : globals) : outcome (Z * globals) :=
  match n with
  | O => Done (pc, g)
  | S n' =>
      r <- passB_line i (nth i (lines2 g) []) pc g ;;
      passB_loop n' (S i) (fst r) (snd r)
  end.

(** ([fopen("out.bin","wb")] is taken to succeed.) *)
Definition asm_passB (g : globals) : outcome globals :=
  r <- passB_loop (ln2 g) 0 0%Z (set_out fopen_wb g) ;;
  Done (snd r).

(** [main] on the contents of the file named by [argv[1]]. *)
Definition main (file : option cstr) : outcome globals :=
  g1 <- read_src file start ;;
  g2 <- pass1 g1 ;;
  g3 <- asm_passA g2 ;;
  asm_passB g3.

(** The bytes of [out.bin] after a run that returns. *)
Definition out_bin (file : cstr) : option (list Z) :=
  match main (Some file) with
  | Done g => Some (fdata (out g))
  | _ => None
  end.

(** A file from its lines, each ended by LF. *)
Definition nl : cstr := [ascii_of_nat 10].

Definition file_of (lines : list string) : cstr :=
  concat (map (fun l => cs l ++ nl) lines).

End Tri.

(** ** Vocabulary of the specification *)

Module Spec.
Import CLib Tri.

(** The bytes of a 32-bit value, least significant first. *)
Definition le32 (w : Z) : list Z :=
  [w mod 256; (w / 2 ^ 8) mod 256; (w / 2 ^ 16) mod 256; (w / 2 ^ 24) mod 256]%Z.

Definition of_le32 (bs : list Z) : Z :=
  (nth 0 bs 0 + 2 ^ 8 * nth 1 bs 0 + 2 ^ 16 * nth 2 bs 0 + 2 ^ 24 * nth 3 bs 0)%Z.

(** Bytes written one after the other at the position of the file. *)
Definition write_bytes (bs : list Z) (f : FILE) : FILE :=
  fold_left (fun f b => fputc b f) bs f.

(** Numeric literals: decimal digits, or [0x] and hexadecimal digits. *)
Definition is_dec_literal (s : cstr) : bool :=
  match s with
  | [] => false
  | _ :: _ => forallb isdigit s
  end.

Definition isxdigit (c : ascii) : bool := is_digit_in 16 c.

Definition is_hex_literal (s : cstr) : bool :=
  match s with
  | z :: x :: h :: r => is_char 48 z && is_char 120 x && forallb isxdigit (h :: r)
  | _ => false
  end.

(** The number a string of digits writes in [base]. *)
Definition positional (base : Z) (s : cstr) : Z :=
  fold_left
    (fun a c => a * base + match digit_value c with Some d => d | None => 0 end)%Z
    s 0%Z.

Definition literal_value (s : cstr) : Z :=
  if is_hex_literal s then positional 16 (skipn 2 s) else positional 10 s.

(** A well-formed literal with a value in 0...255. *)
Definition byte_literal (s : cstr) : Prop :=
  is_dec_literal s || is_hex_literal s = true /\ (0 <= literal_value s <= 255)%Z.

(** The characters of a literal, and of a list of literals. *)
Definition lit_char (c : ascii) : bool := isxdigit c || is_char 120 c.

Definition payload_char (c : ascii) : bool := lit_char c || is_char 44 c.

Definition not_lf (c : ascii) : bool := negb (is_char 10 c).

(** [x1,x2,...,xN] *)
Definition comma_tail (xs : list cstr) : cstr :=
  fold_right (fun y acc => (","%char :: y) ++ acc) [] xs.

Definition join_commas (xs : list cstr) : cstr :=
  match xs with
  | [] => []
  | x :: r => x ++ comma_tail r
  end.

(** What an iteration of the loop of [pass1] on line [i] may change: it
    appends lines of provenance [i] to the lowered sequence, within its
    capacity, and leaves the other tables alone. *)
Definition lowers_to (i : nat) (g g' : globals) : Prop :=
  src g' = src g /\ lines2 g' = lines2 g /\ lines2AsmIdx g' = lines2AsmIdx g
  /\ lbl2 g' = lbl2 g /\ out g' = out g
  /\ length (bstack g') = length (bstack g)
  /\ (exists added,
        asm1 g' = asm1 g ++ added
        /\ asmSrcLine g' = asmSrcLine g ++ repeat i (length added))
  /\ (al g <= MAXL -> al g' <= MAXL).

(** Two states that differ at most in the flags of the current frame. *)
Definition same_but_top (g g' : globals) : Prop :=
  sp g' = sp g
  /\ (forall k, k <> sp g ->
        nth k (bstack g') no_borrow = nth k (bstack g) no_borrow)
  /\ asm1 g' = asm1 g /\ asmSrcLine g' = asmSrcLine g
  /\ src g' = src g /\ lines2 g' = lines2 g
  /\ lines2AsmIdx g' = lines2AsmIdx g /\ lbl2 g' = lbl2 g /\ out g' = out g.

(** The PC of [asm_passB] when its loop reaches line [k]. *)
Definition passB_pc_at (k : nat) (g : globals) : outcome Z :=
  r <- passB_loop k 0 0%Z (set_out fopen_wb g) ;; Done (fst r).

(** The PC of the second loop of [asm_passA] when it reaches line [k],
    from the state after the first loop. *)
Definition passA_pc_at (k : nat) (g : globals) : outcome Z :=
  r <- label_loop k 0 0%Z g ;; Done (fst r).

(** Raw text lines: no LF and no NUL inside, at most 79 bytes. *)
Definition text_line (l : cstr) : Prop :=
  forallb not_lf l = true /\ forallb not_nul l = true /\ length l <= 79.

(** A file from raw lines, each ended by LF. *)
Definition file_of_raw (raws : list cstr) : cstr :=
  concat (map (fun l => l ++ nl) raws).

(** The trimmed lines the loader retains: not empty, not a comment. *)
Definition retained (t : cstr) : bool :=
  match t with
  | [] => false
  | c :: _ => negb (is_char 59 c)
  end.

(** What the label table keeps: at most 128 entries, names of at most 15
    bytes, and at most one entry for a name shorter than 15 bytes. *)
Definition table_ok (t : list Label) : Prop :=
  length t <= MAXLB
  /\ Forall (fun l => length (name l) <= 15) t
  /\ (forall nm, length nm < 15 ->
        length (filter (fun l => streq (name l) nm) t) <= 1).

(** The source index [dieAsm] cites for assembler line [i]. *)
Definition prov (g : globals) (i : nat) : nat :=
  nth (nth i (lines2AsmIdx g) 0) (asmSrcLine g) 0.

(** Assembler lines whose mnemonic is neither [ORG] nor [FILL]. *)
Definition plain_line (ln : cstr) : bool :=
  match tokens ln with
  | [] => true
  | tok :: _ => negb (streq tok (cs "ORG")) && negb (streq tok (cs "FILL"))
  end.

(** The surface forms lowered to one assembler line, with the mnemonic
    each is given. *)
Definition one_line_forms : list (string * string) :=
  [("org(", "ORG "); ("db(", "DB "); ("fill(", "FILL "); ("int(", "INT ");
   ("jmp(", "JMP "); ("call(", "CALL ")]%string.

(** The extension forms that copy their payload, with the [INT] line each
    is given. *)
Definition extension_forms : list (string * string) :=
  [("fold_mode(", "INT 0x01"); ("bist_start(", "INT 0x10");
   ("mme(", "INT 0x30"); ("patch_commit(", "INT 0x04");
   ("perf_sample(", "INT 0x40"); ("link_config(", "INT 0x50");
   ("org_set(", "INT 0x05")]%string.

(** The extension forms of two arguments, with the [INT] line and the
    diagnostic of a missing comma each is given. *)
Definition two_arg_forms : list (string * string * message) :=
  [("power_gate(", "INT 0x02", PowerGateArgs);
   ("smt_weight(", "INT 0x20", SmtWeightArgs);
   ("patch_bank(", "INT 0x03", PatchBankArgs)]%string.

Definition no_comma (s : cstr) : bool :=
  forallb (fun c => negb (Ascii.eqb c ","%char)) s.

(** A well-formed literal, of any value. *)
Definition literal (s : cstr) : Prop :=
  is_dec_literal s || is_hex_literal s = true.

(** The value [parseImm] returns for a literal: the value [strtoul]
    returns, saturated at [ULONG_MAX], converted to [unsigned]. *)
Definition imm_value (s : cstr) : Z :=
  to_uint32 (Z.min (literal_value s) ULONG_MAX).

(** The bytes of a 16-bit value, least significant first. *)
Definition le16 (w : Z) : list Z := [w mod 256; (w / 2 ^ 8) mod 256]%Z.

(** The statements without labels: data, software interrupts, fills, far
    jumps and origins, with literal operands. *)
Inductive stmt : Type :=
| SDb (xs : list cstr)
| SInt (x : cstr)
| SFill (n v : cstr)
| SLjmp (off seg : cstr)
| SOrg (v : cstr).

Definition form_of (s : stmt) : string :=
  match s with
  | SDb _ => "db("
  | SInt _ => "int("
  | SFill _ _ => "fill("
  | SLjmp _ _ => "ljmp("
  | SOrg _ => "org("
  end.

Definition payload_of (s : stmt) : cstr :=
  match s with
  | SDb xs => join_commas xs
  | SInt x => x
  | SFill n v => n ++ cs "," ++ v
  | SLjmp off seg => off ++ cs "," ++ seg
  | SOrg v => v
  end.

(** The statement as a line of the surface language. *)
Definition source_of (s : stmt) : cstr :=
  cs (form_of s) ++ payload_of s ++ cs ")".

(** The assembler line of the statement. *)
Definition lowered_of (s : stmt) : cstr :=
  match s with
  | SDb xs => cs "DB " ++ join_commas xs
  | SInt x => cs "INT " ++ x
  | SFill n v => cs "FILL " ++ n ++ cs "," ++ v
  | SLjmp off seg => cs "LJMP " ++ off ++ cs ":" ++ seg
  | SOrg v => cs "ORG " ++ v
  end.

Definition mnemonic_of (s : stmt) : string :=
  match s with
  | SDb _ => "DB"
  | SInt _ => "INT"
  | SFill _ _ => "FILL"
  | SLjmp _ _ => "LJMP"
  | SOrg _ => "ORG"
  end.

Definition operands_of (s : stmt) : list cstr :=
  match s with
  | SDb xs => xs
  | SInt x => [x]
  | SFill n v => [n; v]
  | SLjmp off seg => [off ++ cs ":" ++ seg]
  | SOrg v => [v]
  end.

(** Operands are literals, and those that become one byte fit in it. *)
Definition wf_stmt (s : stmt) : Prop :=
  match s with
  | SDb xs => Forall byte_literal xs
  | SInt x => literal x /\ (imm_value x <= 255)%Z
  | SFill n v => literal n /\ literal v /\ (imm_value v <= 255)%Z
  | SLjmp off seg => literal off /\ literal seg
  | SOrg v => literal v
  end.

(** The bytes the statement stands for. *)
Definition bytes_of (s : stmt) : list Z :=
  match s with
  | SDb xs => map literal_value xs
  | SInt x => [205; imm_value x]%Z
  | SFill n v => repeat (imm_value v) (Z.to_nat (imm_value n))
  | SLjmp off seg => 234%Z :: le32 (imm_value off) ++ le16 (imm_value seg)
  | SOrg _ => []
  end.

(** What the statement does to the output file. *)
Definition emit (s : stmt) (f : FILE) : FILE :=
  match s with
  | SOrg v => fseek_set (imm_value v) f
  | _ => write_bytes (bytes_of s) f
  end.

Definition is_org (s : stmt) : bool :=
  match s with SOrg _ => true | _ => false end.

(** A line the second loop of the sizer only sizes. *)
Definition sizable (l : cstr) : Prop :=
  exists tok args sz,
    tokens (trim l) = tok :: args
    /\ ends_with 58 tok = false
    /\ line_sz (trim_in_place l) = Done sz.


(** The built-ins without operands and the lines they stand for. *)
Definition builtin_lines : list (string * list string) :=
  [("tape_start()", ["ORG 0x500"; "DB 0xBE,0x00,0x05"]);
   ("load()", ["DB 0x8A,0x04"]);
   ("store()", ["DB 0x88,0x04"])]%string.




End Spec.

Import CLib Tri Spec.
(** * Properties *)

(** ** Outcomes *)

Lemma bind_done {A B : Type} (m : outcome A) (k : A -> outcome B) (b : B) :
  bind m k = Done b -> exists a, m = Done a /\ k a = Done b.
Proof.
  destruct m as [a | d |]; simpl; intro H; try discriminate.
  exists a; split; [reflexivity | exact H].
Qed.

(** ** Characters and strings *)

Section Strings.

Lemma starts_with_split (p s : cstr) :
  starts_with p s = true -> s = p ++ skipn (length p) s.
Proof.
  revert s; induction p as [| a p IH]; intros s H; simpl in *.
  - reflexivity.
  - destruct s as [| b s]; [discriminate |].
    apply andb_prop in H as [Hab Hps].
    apply Ascii.eqb_eq in Hab; subst b.
    simpl. f_equal. apply IH, Hps.
Qed.

Lemma streq_eq (a b : cstr) : streq a b = true <-> a = b.
Proof.
  revert b; induction a as [| x a IH]; intros [| y b]; simpl; split;
    try discriminate; try reflexivity.
  - intro H. apply andb_prop in H as [Hxy Hab].
    apply Ascii.eqb_eq in Hxy. apply IH in Hab. congruence.
  - intro H. injection H as -> ->.
    rewrite Ascii.eqb_refl. simpl. apply IH. reflexivity.
Qed.

Lemma streq_refl (a : cstr) : streq a a = true.
Proof. apply streq_eq. reflexivity. Qed.

Lemma ends_with_snoc (n : Z) (s : cstr) (c : ascii) :
  ends_with n (s ++ [c]) = is_char n c.
Proof. unfold ends_with. rewrite last_last. reflexivity. Qed.

(** *** [trim] *)

Lemma rstrip_snoc (s : cstr) (c : ascii) :
  is_trailing c = false -> rstrip (s ++ [c]) = s ++ [c].
Proof.
  intro Hc. induction s as [| a s IH]; simpl.
  - rewrite Hc. reflexivity.
  - rewrite IH. destruct (s ++ [c]) eqn:E; [| reflexivity].
    destruct s; discriminate.
Qed.

Lemma rstrip_trailing (s : cstr) :
  forallb is_trailing s = true -> rstrip s = [].
Proof.
  induction s as [| a s IH]; simpl; intro H; [reflexivity |].
  apply andb_prop in H as [Ha Hs]. rewrite (IH Hs), Ha. reflexivity.
Qed.

Lemma rstrip_app_trailing (s w : cstr) :
  forallb is_trailing w = true -> rstrip (s ++ w) = rstrip s.
Proof.
  intro Hw. induction s as [| a s IH]; simpl.
  - apply rstrip_trailing, Hw.
  - rewrite IH. reflexivity.
Qed.

Lemma rstrip_length (s : cstr) : length (rstrip s) <= length s.
Proof.
  induction s as [| a s IH]; simpl; [lia |].
  destruct (rstrip s) eqn:E.
  - destruct (is_trailing a); simpl; lia.
  - simpl in *. lia.
Qed.

Lemma skip_length (p : ascii -> bool) (s : cstr) : length (skip p s) <= length s.
Proof.
  induction s as [| a s IH]; simpl; [lia |].
  destruct (p a); simpl; lia.
Qed.

Lemma span_length (p : ascii -> bool) (s : cstr) : length (span p s) <= length s.
Proof.
  induction s as [| a s IH]; simpl; [lia |].
  destruct (p a); simpl; lia.
Qed.

Lemma span_all (p : ascii -> bool) (s : cstr) :
  forallb p s = true -> span p s = s.
Proof.
  induction s as [| a s IH]; simpl; intro H; [reflexivity |].
  apply andb_prop in H as [Ha Hs]. rewrite Ha, (IH Hs). reflexivity.
Qed.

Lemma trim_length (s : cstr) : length (trim s) <= length s.
Proof.
  unfold trim. pose proof (rstrip_length (skip is_blank s)).
  pose proof (skip_length is_blank s). lia.
Qed.

Lemma skip_blank_trailing (w : cstr) :
  forallb is_trailing w = true -> forallb is_trailing (skip is_blank w) = true.
Proof.
  induction w as [| a w IH]; simpl; intro H; [reflexivity |].
  apply andb_prop in H as [Ha Hw].
  destruct (is_blank a); [apply IH, Hw |].
  simpl. rewrite Ha, Hw. reflexivity.
Qed.

Lemma trim_trailing (w : cstr) : forallb is_trailing w = true -> trim w = [].
Proof. intro H. apply rstrip_trailing, skip_blank_trailing, H. Qed.

(** A line that starts with no blank and ends with no blank, CR or LF is
    its own trimmed form, also when such characters follow it. *)
Lemma trim_core (a c : ascii) (s w : cstr) :
  is_blank a = false -> is_trailing c = false ->
  forallb is_trailing w = true ->
  trim ((a :: s ++ [c]) ++ w) = a :: s ++ [c].
Proof.
  intros Ha Hc Hw. unfold trim. simpl. rewrite Ha.
  change (a :: (s ++ [c]) ++ w) with ((a :: s ++ [c]) ++ w).
  rewrite rstrip_app_trailing by exact Hw.
  change (a :: s ++ [c]) with ((a :: s) ++ [c]).
  apply rstrip_snoc, Hc.
Qed.

(** *** [strtok_r] and the list of tokens *)

Lemma tokens_from_cur (cur s : cstr) :
  cur <> [] ->
  tokens_from cur s
  = (cur ++ span not_delim s) :: tokens (tl (skip not_delim s)).
Proof.
  revert cur; induction s as [| c s IH]; intros cur Hcur; simpl.
  - rewrite app_nil_r. destruct cur; [contradiction | reflexivity].
  - unfold not_delim at 1 3. destruct (is_delim c); simpl.
    + rewrite app_nil_r. destruct cur; [contradiction | reflexivity].
    + rewrite IH by (destruct cur; discriminate).
      rewrite <- app_assoc. reflexivity.
Qed.

Lemma tokens_skip (s : cstr) : tokens s = tokens (skip is_delim s).
Proof.
  unfold tokens. induction s as [| c s IH]; simpl; [reflexivity |].
  destruct (is_delim c) eqn:E; [exact IH |].
  simpl. rewrite E. reflexivity.
Qed.

(** [tokens] lists what successive calls of [strtok_r] return. *)
Lemma tokens_strtok_r (s : cstr) :
  tokens s = match strtok_r s with
             | None => []
             | Some (tok, save) => tok :: tokens save
             end.
Proof.
  rewrite tokens_skip. unfold strtok_r.
  assert (H : match skip is_delim s with
              | [] => True | c :: _ => is_delim c = false end).
  { induction s as [| c s IH]; simpl; [exact I |].
    destruct (is_delim c) eqn:E; [exact IH | exact E]. }
  destruct (skip is_delim s) as [| c r]; [reflexivity |].
  unfold tokens at 1. simpl. unfold not_delim at 1 3. rewrite H. simpl.
  rewrite tokens_from_cur by discriminate. reflexivity.
Qed.

Lemma tokens_from_word (x rest cur : cstr) :
  forallb not_delim x = true ->
  tokens_from cur (x ++ rest) = tokens_from (cur ++ x) rest.
Proof.
  revert cur; induction x as [| c x IH]; intros cur H; simpl.
  - rewrite app_nil_r. reflexivity.
  - simpl in H. apply andb_prop in H as [Hc Hx].
    unfold not_delim in Hc. apply negb_true_iff in Hc. rewrite Hc.
    rewrite IH by exact Hx. rewrite <- app_assoc. reflexivity.
Qed.

Lemma tokens_comma_tail (xs : list cstr) (cur : cstr) :
  cur <> [] ->
  Forall (fun x => x <> [] /\ forallb not_delim x = true) xs ->
  tokens_from cur (comma_tail xs) = cur :: xs.
Proof.
  intros Hcur H; revert cur Hcur; induction H as [| x xs [Hx Hd] _ IH];
    intros cur Hcur; simpl.
  - destruct cur; [contradiction | reflexivity].
  - destruct cur as [| c0 cur]; [contradiction |]. f_equal.
    rewrite tokens_from_word by exact Hd. simpl. apply IH, Hx.
Qed.

Lemma tokens_join_commas (xs : list cstr) :
  Forall (fun x => x <> [] /\ forallb not_delim x = true) xs ->
  tokens (join_commas xs) = xs.
Proof.
  intro H. destruct H as [| x xs [Hx Hd] H]; [reflexivity |].
  unfold tokens, join_commas. rewrite tokens_from_word by exact Hd.
  simpl. apply tokens_comma_tail; [exact Hx |].
  exact H.
Qed.

End Strings.

(** ** The output file *)

Section Files.

Lemma list_set_length {A : Type} (i : nat) (x : A) (l : list A) :
  length (list_set i x l) = length l.
Proof.
  revert i; induction l as [| y l IH]; intros [| i]; simpl; auto.
Qed.

Lemma nth_list_set {A : Type} (i k : nat) (x d : A) (l : list A) :
  i < length l ->
  nth k (list_set i x l) d = if Nat.eqb k i then x else nth k l d.
Proof.
  revert i k; induction l as [| y l IH]; intros i k Hi; simpl in Hi; [lia |].
  destruct i as [| i], k as [| k]; simpl; try reflexivity.
  apply IH. lia.
Qed.

Lemma nth_list_set_other {A : Type} (i k : nat) (x d : A) (l : list A) :
  k <> i -> nth k (list_set i x l) d = nth k l d.
Proof.
  revert i k; induction l as [| y l IH]; intros i k Hk; simpl.
  - destruct i, k; reflexivity.
  - destruct i as [| i], k as [| k]; simpl; try reflexivity; try lia.
    apply IH. lia.
Qed.

Lemma fpos_fputc (b : Z) (f : FILE) : fpos (fputc b f) = S (fpos f).
Proof. unfold fputc. destruct (fpos f <? length (fdata f)); reflexivity. Qed.

(** Reading back: a write changes the byte at the position and no other
    (a byte behind the end of the file reads as the default, 0). *)
Lemma fdata_fputc (b : Z) (f : FILE) (k : nat) :
  nth k (fdata (fputc b f)) 0%Z
  = if Nat.eqb k (fpos f) then b else nth k (fdata f) 0%Z.
Proof.
  unfold fputc. destruct (fpos f <? length (fdata f)) eqn:E; simpl.
  - apply Nat.ltb_lt in E. apply nth_list_set, E.
  - apply Nat.ltb_ge in E.
    destruct (Nat.eqb k (fpos f)) eqn:Ek.
    + apply Nat.eqb_eq in Ek; subst k.
      rewrite app_assoc, app_nth2; rewrite length_app, repeat_length; [| lia].
      replace (fpos f - (length (fdata f) + (fpos f - length (fdata f)))) with 0
        by lia.
      reflexivity.
    + apply Nat.eqb_neq in Ek.
      destruct (Nat.lt_ge_cases k (length (fdata f))) as [Hk | Hk].
      * rewrite app_nth1 by exact Hk. reflexivity.
      * rewrite (nth_overflow (fdata f)) by exact Hk.
        rewrite app_nth2 by exact Hk.
        destruct (Nat.lt_ge_cases k (fpos f)) as [Hk' | Hk'].
        -- rewrite app_nth1 by (rewrite repeat_length; lia).
           apply nth_repeat.
        -- apply nth_overflow. rewrite length_app, repeat_length. simpl. lia.
Qed.

(** At the end of the file a write appends. *)
Lemma fputc_append (b : Z) (f : FILE) :
  fpos f = length (fdata f) ->
  fputc b f = {| fpos := S (length (fdata f)); fdata := fdata f ++ [b] |}.
Proof.
  intro H. unfold fputc. rewrite H, Nat.ltb_irrefl, Nat.sub_diag. reflexivity.
Qed.

Lemma fpos_write_bytes (bs : list Z) (f : FILE) :
  fpos (write_bytes bs f) = fpos f + length bs.
Proof.
  revert f; induction bs as [| b bs IH]; intro f; simpl; [lia |].
  unfold write_bytes in IH. rewrite IH, fpos_fputc. lia.
Qed.

Lemma fdata_write_bytes (bs : list Z) (f : FILE) (k : nat) :
  nth k (fdata (write_bytes bs f)) 0%Z
  = if (fpos f <=? k) && (k <? fpos f + length bs)
    then nth (k - fpos f) bs 0%Z
    else nth k (fdata f) 0%Z.
Proof.
  revert f; induction bs as [| b bs IH]; intro f; simpl.
  - replace (k <? fpos f + 0) with (k <? fpos f) by (f_equal; lia).
    destruct (fpos f <=? k) eqn:E1, (k <? fpos f) eqn:E2; simpl; try reflexivity.
    apply Nat.leb_le in E1. apply Nat.ltb_lt in E2. lia.
  - unfold write_bytes in IH. rewrite IH, fpos_fputc, fdata_fputc.
    destruct (Nat.eqb k (fpos f)) eqn:Ek.
    + apply Nat.eqb_eq in Ek; subst k.
      replace (S (fpos f) <=? fpos f) with false
        by (symmetry; apply Nat.leb_gt; lia).
      rewrite Nat.leb_refl, Nat.sub_diag. simpl.
      replace (fpos f <? fpos f + S (length bs)) with true
        by (symmetry; apply Nat.ltb_lt; lia).
      reflexivity.
    + apply Nat.eqb_neq in Ek.
      destruct (S (fpos f) <=? k) eqn:E1.
      * apply Nat.leb_le in E1.
        replace (fpos f <=? k) with true by (symmetry; apply Nat.leb_le; lia).
        replace (k <? S (fpos f) + length bs) with (k <? fpos f + S (length bs))
          by (f_equal; lia).
        simpl. destruct (k <? fpos f + S (length bs)); [| reflexivity].
        replace (k - fpos f) with (S (k - S (fpos f))) by lia. reflexivity.
      * apply Nat.leb_gt in E1.
        replace (fpos f <=? k) with false by (symmetry; apply Nat.leb_gt; lia).
        reflexivity.
Qed.

(** *** [e8], [e16], [e32] *)

Lemma e32_le32 (w : Z) (f : FILE) :
  e32 w f = write_bytes (le32 (to_uint32 w)) f.
Proof.
  unfold e32, e16, e8, write_bytes, le32, to_uint32. cbn [fold_left].
  assert (Hw : (0 <= w mod 2 ^ 32 < 2 ^ 32)%Z) by (apply Z.mod_pos_bound; lia).
  set (u := (w mod 2 ^ 32)%Z) in *.
  change 65535%Z with (Z.ones 16). change 255%Z with (Z.ones 8).
  rewrite !Z.land_ones, !Z.shiftr_div_pow2 by lia.
  change (2 ^ 8)%Z with 256%Z. change (2 ^ 16)%Z with 65536%Z.
  change (2 ^ 24)%Z with 16777216%Z. change (2 ^ 32)%Z with 4294967296%Z in *.
  repeat match goal with
         | |- fputc ?a ?x = fputc ?b ?y => f_equal
         end;
    Z.div_mod_to_equations; lia.
Qed.

Lemma of_le32_le32 (w : Z) :
  (0 <= w < 2 ^ 32)%Z -> of_le32 (le32 w) = w.
Proof.
  intro Hw. unfold of_le32, le32. cbn [nth].
  change (2 ^ 8)%Z with 256%Z. change (2 ^ 16)%Z with 65536%Z.
  change (2 ^ 24)%Z with 16777216%Z. change (2 ^ 32)%Z with 4294967296%Z in *.
  Z.div_mod_to_equations. lia.
Qed.

End Files.

(** ** The emitter: relative jumps *)

Section Jumps.

Lemma to_uint32_idem (z : Z) : to_uint32 (to_uint32 z) = to_uint32 z.
Proof. unfold to_uint32. apply Z.mod_mod. lia. Qed.

Lemma to_uint32_small (z : Z) : (0 <= z < 2 ^ 32)%Z -> to_uint32 z = z.
Proof. intro H. unfold to_uint32. apply Z.mod_small, H. Qed.

Lemma to_uint32_range (z : Z) : (0 <= to_uint32 z < 2 ^ 32)%Z.
Proof. unfold to_uint32. apply Z.mod_pos_bound. lia. Qed.

(** The subtraction is made in [int32_t] and converted back: the same
    as subtracting modulo [2^32]. *)
Lemma int32_sub (a b : Z) :
  to_uint32 (to_int32 a - to_int32 b) = to_uint32 (a - b).
Proof.
  unfold to_uint32, to_int32.
  change (2 ^ 32)%Z with 4294967296%Z. change (2 ^ 31)%Z with 2147483648%Z.
  Z.div_mod_to_equations. lia.
Qed.

Lemma to_uint32_sub_r (a b : Z) :
  to_uint32 (a - to_uint32 b) = to_uint32 (a - b).
Proof.
  unfold to_uint32. change (2 ^ 32)%Z with 4294967296%Z.
  Z.div_mod_to_equations. lia.
Qed.

Lemma find_lbl_set_out (g : globals) (f : FILE) (nm : option cstr) (i : nat) :
  find_lbl (set_out f g) nm i = find_lbl g nm i.
Proof. reflexivity. Qed.

(** C3. For a line [JMP L] or [CALL L] whose label [L] is in the table at
    [dest], the emitter at [pc] writes the opcode ([0xE9] for [JMP],
    [0xE8] for [CALL]) and then the four bytes, least significant first,
    of [disp = dest - (pc + 5)] taken modulo [2^32]; its PC becomes
    [pc + 5]; and [dest] is that PC plus the displacement, in 32-bit
    arithmetic (with the displacement read as unsigned or as signed). *)
Theorem C3_relative_jump_encoding
  (g : globals) (i : nat) (ln L : cstr) (rest : list cstr) (pc dest : Z)
  (call : bool) :
  tokens ln = (if call then cs "CALL" else cs "JMP") :: L :: rest ->
  find_lbl g (Some L) i = Done dest ->
  (0 <= pc < 2 ^ 32)%Z ->
  (0 <= dest < 2 ^ 32)%Z ->
  let opcode := (if call then 232 else 233)%Z in
  let disp := to_uint32 (dest - (pc + 5)) in
  let pc_after := to_uint32 (pc + 5) in
  let written := write_bytes (opcode :: le32 disp) (out g) in
  passB_line i ln pc g = Done (pc_after, set_out written g)
  /\ (forall k, k < 5 ->
        nth (fpos (out g) + k) (fdata written) 0%Z
        = nth k (opcode :: le32 disp) 0%Z)
  /\ of_le32 (le32 disp) = disp
  /\ to_uint32 (pc_after + disp) = dest
  /\ to_uint32 (pc_after + to_int32 disp) = dest.
Proof.
  intros Htok Hlbl Hpc Hdest opcode disp pc_after written.
  split; [| split; [| split; [| split]]].
  - unfold passB_line. rewrite Htok.
    assert (Hop : forall f, e8 opcode f = fputc opcode f)
      by (intro f; unfold e8, opcode; destruct call; reflexivity).
    destruct call; cbn [streq cs list_ascii_of_string Ascii.eqb Bool.eqb andb orb
                        starts_with nth_error];
      rewrite find_lbl_set_out, Hlbl; cbn [bind];
      rewrite int32_sub, to_uint32_sub_r, e32_le32, to_uint32_idem;
      unfold written, write_bytes; cbn [fold_left out set_out];
      try rewrite <- (Hop (out g)); reflexivity.
  - intros k Hk. unfold written. rewrite fdata_write_bytes.
    replace (fpos (out g) <=? fpos (out g) + k) with true
      by (symmetry; apply Nat.leb_le; lia).
    replace (fpos (out g) + k <? fpos (out g) + length (opcode :: le32 disp))
      with true by (symmetry; apply Nat.ltb_lt; simpl; lia).
    replace (fpos (out g) + k - fpos (out g)) with k by lia.
    reflexivity.
  - apply of_le32_le32, to_uint32_range.
  - unfold pc_after, disp, to_uint32.
    change (2 ^ 32)%Z with 4294967296%Z in *.
    Z.div_mod_to_equations. lia.
  - unfold pc_after, disp, to_uint32, to_int32.
    change (2 ^ 32)%Z with 4294967296%Z in *.
    change (2 ^ 31)%Z with 2147483648%Z.
    Z.div_mod_to_equations. lia.
Qed.

Lemma C3_relative_jump_encoding_witness :
  let g := set_lbl2 [{| name := cs "L"; addr := 0%Z |}] start in
  passB_line 0 (cs "JMP L") 0%Z g
  = Done (to_uint32 (0 + 5),
          set_out (write_bytes (233%Z :: le32 (to_uint32 (0 - (0 + 5))))
                     (out g)) g).
Proof.
  intro g.
  apply (C3_relative_jump_encoding g 0 (cs "JMP L") (cs "L") [] 0%Z 0%Z false
           eq_refl eq_refl); lia.
Defined.

End Jumps.

(** ** The lowerer *)

Section Lowering.

Lemma top_set_top (f : BorrowFrame) (g : globals) :
  sp g < length (bstack g) -> top (set_top f g) = f.
Proof.
  intro H. unfold top, set_top. simpl.
  rewrite nth_list_set by exact H. rewrite Nat.eqb_refl. reflexivity.
Qed.

(** What a line that starts with [let &mut] does. *)
Lemma pass1_line_let_mut (i : nat) (srcline : cstr) (g : globals) :
  starts_with (cs "let &mut") (trim srcline) = true ->
  pass1_line i srcline g
  = if bm (top g) || bi (top g) then Fatal (DieAt i BorrowError)
    else Done (set_top {| bm := true; bi := bi (top g) |} g).
Proof.
  intro H. apply starts_with_split in H.
  unfold pass1_line. rewrite H. reflexivity.
Qed.

(** What a line that starts with [let &], and not with [let &mut], does. *)
Lemma pass1_line_let_imm (i : nat) (srcline : cstr) (g : globals) :
  starts_with (cs "let &") (trim srcline) = true ->
  starts_with (cs "let &mut") (trim srcline) = false ->
  pass1_line i srcline g
  = if bm (top g) then Fatal (DieAt i BorrowError)
    else Done (set_top {| bm := bm (top g); bi := true |} g).
Proof.
  intros H Hn. apply starts_with_split in H.
  unfold pass1_line. rewrite H in Hn |- *.
  cbn in Hn. cbn. rewrite Hn. reflexivity.
Qed.

Lemma pass1_line_open (i : nat) (srcline : cstr) (g : globals) :
  trim srcline = cs "{" ->
  pass1_line i srcline g
  = if (MAXS <=? sp g + 1)%nat then Fatal (DieAt i ScopeOverflow)
    else Done (set_scope (list_set (sp g + 1) no_borrow (bstack g))
                 (sp g + 1) g).
Proof. intro H. unfold pass1_line. rewrite H. reflexivity. Qed.

Lemma pass1_line_close (i : nat) (srcline : cstr) (g : globals) :
  trim srcline = cs "}" ->
  pass1_line i srcline g
  = if (sp g =? 0)%nat then Fatal (DieAt i UnmatchedScopeClose)
    else Done (set_scope (bstack g) (sp g - 1) g).
Proof. intro H. unfold pass1_line. rewrite H. reflexivity. Qed.

(** *** What every iteration of [pass1] keeps *)

Lemma lowers_scope (i : nat) (g : globals) (b : list BorrowFrame) (n : nat) :
  length b = length (bstack g) -> lowers_to i g (set_scope b n g).
Proof.
  intros Hb. unfold lowers_to. simpl. repeat split; try reflexivity; auto.
  exists []. rewrite !app_nil_r. split; reflexivity.
Qed.

Lemma lowers_trans (i : nat) (g1 g2 g3 : globals) :
  lowers_to i g1 g2 -> lowers_to i g2 g3 -> lowers_to i g1 g3.
Proof.
  unfold lowers_to.
  intros (S1 & L1 & X1 & B1 & O1 & K1 & (a1 & A1 & P1) & M1)
         (S2 & L2 & X2 & B2 & O2 & K2 & (a2 & A2 & P2) & M2).
  repeat split; try congruence; auto.
  exists (a1 ++ a2). rewrite A2, A1, P2, P1, <- !app_assoc, length_app, repeat_app.
  split; reflexivity.
Qed.

Lemma emit_asm1_lowers (i : nat) (text : cstr) (g g' : globals) :
  emit_asm1 i text g = Done g' -> lowers_to i g g'.
Proof.
  unfold emit_asm1. destruct (MAXL <=? al g)%nat eqn:E; [discriminate |].
  intro H. injection H as <-. apply Nat.leb_gt in E.
  unfold lowers_to. simpl. repeat split; try reflexivity.
  - exists [text]. split; reflexivity.
  - intros _. unfold al in *. simpl. rewrite length_app. simpl. lia.
Qed.

Lemma emit_pair_lowers (i : nat) (op db : cstr) (g g' : globals) :
  emit_pair i op db g = Done g' -> lowers_to i g g'.
Proof.
  unfold emit_pair. intro H. apply bind_done in H as (g1 & H1 & H2).
  eapply lowers_trans; eapply emit_asm1_lowers; eassumption.
Qed.

Ltac lowers_branch :=
  match goal with
  | H : Done _ = Done _ |- _ => injection H as <-
  | H : Fatal _ = Done _ |- _ => discriminate H
  | H : dieSrc _ _ = Done _ |- _ => discriminate H
  | H : Undefined = Done _ |- _ => discriminate H
  | H : emit_asm1 _ _ _ = Done _ |- _ => apply emit_asm1_lowers in H; exact H
  | H : emit_pair _ _ _ _ = Done _ |- _ => apply emit_pair_lowers in H; exact H
  | H : bind _ _ = Done _ |- _ =>
      let g1 := fresh "g" in
      let H1 := fresh "H" in
      let H2 := fresh "H" in
      apply bind_done in H as (g1 & H1 & H2);
      eapply lowers_trans; eapply emit_asm1_lowers; eassumption
  | H : (if ?b then _ else _) = Done _ |- _ => destruct b
  | H : match ?o with Some _ => _ | None => _ end = Done _ |- _ =>
      destruct o as [[? ?] |]
  end.

Lemma pass1_rest_lowers (i : nat) (lower line : cstr) (g g' : globals) :
  pass1_rest i lower line g = Done g' -> lowers_to i g g'.
Proof.
  intros H. unfold pass1_rest, set_top in H.
  repeat lowers_branch;
    try (apply lowers_scope; try reflexivity; apply list_set_length).
Qed.

Lemma pass1_line_lowers (i : nat) (srcline : cstr) (g g' : globals) :
  pass1_line i srcline g = Done g' -> lowers_to i g g'.
Proof.
  intros H. unfold pass1_line in H.
  repeat match goal with
         | H : pass1_rest _ _ _ _ = Done _ |- _ =>
             apply pass1_rest_lowers in H; exact H
         | _ => lowers_branch
         end.
Qed.

Lemma pass1_loop_src (lines : list cstr) (i : nat) (g g' : globals) :
  pass1_loop i lines g = Done g' -> src g' = src g.
Proof.
  revert i g; induction lines as [| l lines IH]; intros i g H; simpl in H.
  - injection H as <-. reflexivity.
  - apply bind_done in H as (g1 & H1 & H2).
    apply pass1_line_lowers in H1. destruct H1 as (S1 & _).
    apply IH in H2. congruence.
Qed.




(** C5. A line that starts with [let &mut] is a fatal borrow error at
    its source line when the current frame has a mutable or an immutable
    borrow, and otherwise sets the [bm] flag of the current frame; a line
    that starts with [let &] and not with [let &mut] is a fatal borrow
    error when the current frame has a mutable borrow, and otherwise sets
    its [bi] flag. In both cases nothing else changes: no other frame, and
    no line of the lowered sequence. *)
Theorem C5_borrow_discipline (i : nat) (srcline : cstr) (g : globals) :
  sp g < length (bstack g) ->
  (starts_with (cs "let &mut") (trim srcline) = true ->
   if bm (top g) || bi (top g)
   then pass1_line i srcline g = Fatal (DieAt i BorrowError)
   else exists g',
       pass1_line i srcline g = Done g'
       /\ bm (top g') = true /\ bi (top g') = bi (top g)
       /\ same_but_top g g')
  /\ (starts_with (cs "let &") (trim srcline) = true ->
      starts_with (cs "let &mut") (trim srcline) = false ->
      if bm (top g)
      then pass1_line i srcline g = Fatal (DieAt i BorrowError)
      else exists g',
          pass1_line i srcline g = Done g'
          /\ bi (top g') = true /\ bm (top g') = bm (top g)
          /\ same_but_top g g').
Proof.
  intro Hsp.
  assert (Hsame : forall f, same_but_top g (set_top f g)).
  { intro f. unfold same_but_top. simpl. repeat split; try reflexivity.
    intros k Hk. apply nth_list_set_other, Hk. }
  split.
  - intro H. rewrite (pass1_line_let_mut i srcline g H).
    destruct (bm (top g) || bi (top g)); [reflexivity |].
    eexists. split; [reflexivity |].
    rewrite top_set_top by exact Hsp. simpl. auto.
  - intros H Hn. rewrite (pass1_line_let_imm i srcline g H Hn).
    destruct (bm (top g)) eqn:E; [reflexivity |].
    eexists. split; [reflexivity |].
    rewrite top_set_top by exact Hsp. simpl. auto.
Qed.

Lemma C5_borrow_discipline_witness :
  exists g',
    pass1_line 0 (cs "let &mut x") start = Done g' /\ bm (top g') = true.
Proof.
  destruct (C5_borrow_discipline 0 (cs "let &mut x") start) as [H _].
  - vm_compute. lia.
  - specialize (H eq_refl). simpl in H.
    destruct H as (g' & H1 & H2 & _). exists g'. split; assumption.
Defined.

(** C6. A line that is exactly an opening brace is a fatal scope overflow
    when the depth, counting the implicit outermost frame, would exceed 16,
    and otherwise pushes a frame with both flags clear and leaves the
    frames below it as they are; a line that is exactly a closing brace is
    a fatal error when no explicit frame is open, and otherwise pops the
    frame and leaves every stored flag as it is, so the enclosing frame is
    current again with its flags; neither emits a lowered line; and when
    the loop over the source ends with a scope still open, [pass1] ends in
    the fatal "unclosed scope(s)" at the last source line, so [pass1]
    returns only with [sp = 0]. *)
Theorem C6_scope_stack (i : nat) (srcline : cstr) (g : globals) :
  length (bstack g) = MAXS ->
  (trim srcline = cs "{" ->
   let depth := sp g + 1 in
   if (MAXS <? depth + 1)%nat
   then pass1_line i srcline g = Fatal (DieAt i ScopeOverflow)
   else exists g',
       pass1_line i srcline g = Done g'
       /\ sp g' = sp g + 1 /\ top g' = no_borrow
       /\ (forall k, k <= sp g ->
             nth k (bstack g') no_borrow = nth k (bstack g) no_borrow)
       /\ asm1 g' = asm1 g /\ asmSrcLine g' = asmSrcLine g)
  /\ (trim srcline = cs "}" ->
      if (sp g =? 0)%nat
      then pass1_line i srcline g = Fatal (DieAt i UnmatchedScopeClose)
      else exists g',
          pass1_line i srcline g = Done g'
          /\ sp g' = sp g - 1 /\ bstack g' = bstack g
          /\ top g' = nth (sp g - 1) (bstack g) no_borrow
          /\ asm1 g' = asm1 g /\ asmSrcLine g' = asmSrcLine g)
  /\ (forall g1,
        pass1_loop 0 (src g) (set_scope (list_set 0 no_borrow (bstack g)) 0 g)
        = Done g1 ->
        sp g1 <> 0 ->
        pass1 g = Fatal (DieAt (sl g - 1) UnclosedScopes))
  /\ (forall g', pass1 g = Done g' -> sp g' = 0).
Proof.
  intro Hlen. split; [| split; [| split]].
  - intros H depth. rewrite (pass1_line_open i srcline g H).
    unfold depth.
    replace (MAXS <? sp g + 1 + 1)%nat with (MAXS <=? sp g + 1)%nat
      by (destruct (Nat.leb_spec MAXS (sp g + 1));
          destruct (Nat.ltb_spec MAXS (sp g + 1 + 1)); auto; lia).
    destruct (MAXS <=? sp g + 1)%nat eqn:E; [reflexivity |].
    apply Nat.leb_gt in E.
    eexists. split; [reflexivity |]. simpl. repeat split.
    + unfold top. simpl. rewrite nth_list_set by lia.
      rewrite Nat.eqb_refl. reflexivity.
    + intros k Hk. apply nth_list_set_other. lia.
  - intro H. rewrite (pass1_line_close i srcline g H).
    destruct (sp g =? 0)%nat; [reflexivity |].
    eexists. split; [reflexivity |]. simpl. repeat split.
  - intros g1 H1 Hsp. unfold pass1. rewrite H1. simpl.
    apply Nat.eqb_neq in Hsp. rewrite Hsp.
    unfold dieSrc, sl. rewrite (pass1_loop_src _ _ _ _ H1). reflexivity.
  - intros g' H. unfold pass1 in H. apply bind_done in H as (g1 & _ & H2).
    destruct (sp g1 =? 0)%nat eqn:E; [| discriminate].
    injection H2 as <-. apply Nat.eqb_eq, E.
Qed.

Lemma C6_scope_stack_witness :
  (exists g',
      pass1_line 0 (cs "{") start = Done g'
      /\ sp g' = 1 /\ top g' = no_borrow)
  /\ pass1 (set_src [cs "{"] start) = Fatal (DieAt 0 UnclosedScopes).
Proof.
  destruct (C6_scope_stack 0 (cs "{") start eq_refl) as (Ho & _ & _ & _).
  destruct (C6_scope_stack 0 (cs "{") (set_src [cs "{"] start) eq_refl)
    as (_ & _ & Hu & _).
  split.
  - specialize (Ho eq_refl). simpl in Ho.
    destruct Ho as (g' & H1 & H2 & H3 & _). exists g'. auto.
  - eapply Hu; [vm_compute; reflexivity |]. simpl. discriminate.
Defined.

End Lowering.

(** ** The sizer: the clone of the lowered sequence *)

Section Clone.

Lemma dieAsm_not_done {A : Type} (g : globals) (i : nat) (m : message) (a : A) :
  dieAsm g i m <> Done a.
Proof.
  unfold dieAsm. destruct (read_index (lines2AsmIdx g) i); [| discriminate].
  destruct (read_index (asmSrcLine g) n); discriminate.
Qed.

Lemma clone_loop_done (todo : list cstr) (i : nat) (g g' : globals) :
  clone_loop i todo g = Done g' ->
  lines2 g' = lines2 g ++ todo
  /\ lines2AsmIdx g' = lines2AsmIdx g ++ seq i (length todo)
  /\ asm1 g' = asm1 g /\ asmSrcLine g' = asmSrcLine g /\ src g' = src g
  /\ lbl2 g' = lbl2 g /\ out g' = out g
  /\ (ln2 g <= MAXL -> ln2 g' <= MAXL).
Proof.
  revert i g; induction todo as [| a todo IH]; intros i g H;
    cbn [clone_loop] in H.
  - injection H as <-. rewrite !app_nil_r. repeat split. auto.
  - destruct (MAXL <=? ln2 g)%nat eqn:E; [destruct (dieAsm_not_done _ _ _ _ H) |].
    apply Nat.leb_gt in E.
    apply IH in H. cbn [lines2 lines2AsmIdx asm1 asmSrcLine src lbl2 out
                        set_lines2] in H.
    destruct H as (H1 & H2 & H3 & H4 & H5 & H6 & H7 & H8).
    rewrite H1, H2, <- !app_assoc. repeat split; try assumption.
    intros _. apply H8. unfold ln2 in *. cbn [lines2 set_lines2].
    rewrite length_app. cbn [length]. lia.
Qed.


Lemma recordLabel_done (g g' : globals) (nm : cstr) (pc : Z) (i : nat) :
  recordLabel g nm pc i = Done g' ->
  g' = set_lbl2 (lbl2 g ++ [{| name := firstn 15 nm; addr := pc |}]) g.
Proof.
  unfold recordLabel.
  destruct (existsb _ _); [intro H; destruct (dieAsm_not_done _ _ _ _ H) |].
  destruct (MAXLB <=? nl2 g)%nat; [intro H; destruct (dieAsm_not_done _ _ _ _ H) |].
  intro H. injection H as <-. reflexivity.
Qed.

(** The second loop cuts, in place, the lines it walks over, and touches
    neither the provenance arrays nor the lowered sequence. *)
Lemma label_loop_done (n i : nat) (pc pc' : Z) (g g' : globals) :
  label_loop n i pc g = Done (pc', g') ->
  length (lines2 g') = length (lines2 g)
  /\ (forall k,
        nth k (lines2 g') []
        = if (i <=? k) && (k <? i + n) && (k <? length (lines2 g))
          then trim_in_place (nth k (lines2 g) [])
          else nth k (lines2 g) [])
  /\ lines2AsmIdx g' = lines2AsmIdx g
  /\ asm1 g' = asm1 g /\ asmSrcLine g' = asmSrcLine g /\ src g' = src g.
Proof.
  revert i pc g; induction n as [| n IH]; intros i pc g H; simpl in H.
  - injection H as <- <-. repeat split. intro k.
    destruct (i <=? k) eqn:E1, (k <? i + 0) eqn:E2; simpl; try reflexivity.
    apply Nat.leb_le in E1. apply Nat.ltb_lt in E2. lia.
  - set (g1 := set_lines2 (list_set i (trim_in_place (nth i (lines2 g) []))
                             (lines2 g)) (lines2AsmIdx g) g) in *.
    assert (Hstep : forall g2 pc2,
               lines2 g2 = lines2 g1 -> lines2AsmIdx g2 = lines2AsmIdx g1 ->
               asm1 g2 = asm1 g1 -> asmSrcLine g2 = asmSrcLine g1 ->
               src g2 = src g1 ->
               label_loop n (S i) pc2 g2 = Done (pc', g') ->
               length (lines2 g') = length (lines2 g)
               /\ (forall k,
                     nth k (lines2 g') []
                     = if (i <=? k) && (k <? i + S n) && (k <? length (lines2 g))
                       then trim_in_place (nth k (lines2 g) [])
                       else nth k (lines2 g) [])
               /\ lines2AsmIdx g' = lines2AsmIdx g
               /\ asm1 g' = asm1 g /\ asmSrcLine g' = asmSrcLine g
               /\ src g' = src g).
    { intros g2 pc2 E1 E2 E3 E4 E5 Hl. apply IH in Hl.
      destruct Hl as (L1 & L2 & L3 & L4 & L5 & L6).
      rewrite E1 in L1, L2. rewrite E2 in L3. rewrite E3 in L4.
      rewrite E4 in L5. rewrite E5 in L6. unfold g1 in *.
      cbn [lines2 lines2AsmIdx asm1 asmSrcLine src set_lines2] in *.
      rewrite list_set_length in L1, L2.
      repeat split; try assumption.
      intro k. rewrite L2.
      destruct (Nat.eq_dec k i) as [-> | Hk].
      - replace (S i <=? i) with false by (symmetry; apply Nat.leb_gt; lia).
        rewrite Nat.leb_refl.
        replace (i <? i + S n) with true by (symmetry; apply Nat.ltb_lt; lia).
        cbn [andb]. destruct (i <? length (lines2 g)) eqn:Ei.
        + apply Nat.ltb_lt in Ei. rewrite nth_list_set by exact Ei.
          rewrite Nat.eqb_refl. reflexivity.
        + apply Nat.ltb_ge in Ei.
          rewrite nth_overflow by (rewrite list_set_length; exact Ei).
          rewrite nth_overflow by exact Ei. reflexivity.
      - rewrite nth_list_set_other by exact Hk.
        replace (S i <=? k) with (i <=? k)
          by (destruct (Nat.leb_spec i k); destruct (Nat.leb_spec (S i) k);
              auto; lia).
        replace (k <? S i + n) with (k <? i + S n) by (f_equal; lia).
        reflexivity. }
    destruct (tokens (trim (nth i (lines2 g) []))) as [| tok args].
    + eapply Hstep; [.. | exact H]; reflexivity.
    + destruct (ends_with 58 tok).
      * apply bind_done in H as (g2 & H2 & H3).
        apply recordLabel_done in H2. subst g2.
        eapply Hstep; [.. | exact H3]; reflexivity.
      * apply bind_done in H as (sz & _ & H3).
        eapply Hstep; [.. | exact H3]; reflexivity.
Qed.

Lemma span_skip (p : ascii -> bool) (s : cstr) : span p s ++ skip p s = s.
Proof.
  induction s as [| a s IH]; simpl; [reflexivity |].
  destruct (p a); simpl; [rewrite IH |]; reflexivity.
Qed.

Lemma rstrip_keeps (s : cstr) :
  is_trailing (last s zero) = false -> rstrip s = s.
Proof.
  destruct s as [| a s]; [reflexivity |].
  destruct (@exists_last _ (a :: s)) as (s' & c & ->); [discriminate |].
  rewrite last_last. apply rstrip_snoc.
Qed.

Lemma skip_last (p : ascii -> bool) (s : cstr) :
  skip p s <> [] -> last (skip p s) zero = last s zero.
Proof.
  induction s as [| a s IH]; simpl; [reflexivity |].
  destruct (p a) eqn:E.
  - intro H. rewrite (IH H). destruct s; [contradiction H; reflexivity |].
    reflexivity.
  - reflexivity.
Qed.

(** A line that does not end in a blank, CR or LF is not changed. *)
Lemma trim_in_place_keeps (s : cstr) :
  is_trailing (last s zero) = false -> trim_in_place s = s.
Proof.
  intro H. unfold trim_in_place, trim.
  destruct (skip is_blank s) as [| a r] eqn:E.
  - simpl. rewrite <- (span_skip is_blank s) at 2. rewrite E. reflexivity.
  - rewrite rstrip_keeps.
    + rewrite <- E. apply span_skip.
    + rewrite <- E, skip_last by (rewrite E; discriminate). exact H.
Qed.

(** C10, as the code has it. When [asm_passA] returns, the assembler
    sequence has the length of the lowered sequence, [lines2AsmIdx[i]] is
    [i], and the text of assembler line [i] is the text of lowered line
    [i] as [trim] leaves it in place, that is with the blanks, CRs and LFs
    at its end cut off: the two texts are equal after the first loop, and
    at the end for every line that does not end in such a character. A
    diagnostic of the assembler stage for line [i] then cites
    [asmSrcLine[i]], an index into the source. *)
Theorem C10_clone_up_to_trim (g g' : globals) :
  lines2 g = [] -> lines2AsmIdx g = [] ->
  length (asmSrcLine g) = al g ->
  Forall (fun s => s < sl g) (asmSrcLine g) ->
  asm_passA g = Done g' ->
  (exists gc,
      clone_loop 0 (asm1 g) g = Done gc
      /\ lines2 gc = asm1 g /\ lines2AsmIdx gc = seq 0 (al g))
  /\ ln2 g' = al g' /\ asm1 g' = asm1 g /\ asmSrcLine g' = asmSrcLine g
  /\ lines2AsmIdx g' = seq 0 (al g')
  /\ (forall i, i < ln2 g' ->
        nth i (lines2 g') [] = trim_in_place (nth i (asm1 g') [])
        /\ (is_trailing (last (nth i (asm1 g') []) zero) = false ->
            nth i (lines2 g') [] = nth i (asm1 g') [])
        /\ nth i (lines2AsmIdx g') 0 = i
        /\ nth i (asmSrcLine g') 0 < sl g'
        /\ forall (A : Type) (m : message),
            @dieAsm A g' i m = Fatal (DieAt (nth i (asmSrcLine g') 0) m)).
Proof.
  intros Hl Hx Hlen Hprov H. unfold asm_passA in H.
  apply bind_done in H as (gc & Hc & H).
  apply bind_done in H as ([pc r] & Hr & H). injection H as <-.
  pose proof (clone_loop_done _ _ _ _ Hc) as (C1 & C2 & C3 & C4 & C5 & C6 & C7 & C8).
  rewrite Hl in C1. rewrite Hx in C2. simpl in C1, C2.
  assert (Hcap : al g <= MAXL).
  { unfold al. rewrite <- C1. apply C8. unfold ln2. rewrite Hl.
    unfold MAXL. simpl. lia. }
  pose proof (label_loop_done _ _ _ _ _ _ Hr) as (L1 & L2 & L3 & L4 & L5 & L6).
  simpl snd.
  assert (Hal : al r = al g) by (unfold al; congruence).
  assert (Hn : ln2 r = al g) by (unfold ln2, al; congruence).
  split; [exists gc; auto |].
  split; [congruence |]. split; [congruence |]. split; [congruence |].
  split; [rewrite Hal, L3, C2; reflexivity |].
  intros i Hi. rewrite Hn in Hi.
  assert (E : nth i (lines2 r) [] = trim_in_place (nth i (asm1 r) [])).
  { rewrite L2. unfold ln2. rewrite C1, L4, C3. simpl.
    replace (i <? length (asm1 g)) with true
      by (symmetry; apply Nat.ltb_lt; exact Hi).
    reflexivity. }
  assert (Ex : nth i (lines2AsmIdx r) 0 = i).
  { rewrite L3, C2. rewrite seq_nth by exact Hi. reflexivity. }
  assert (Es : nth i (asmSrcLine r) 0 < sl r).
  { unfold sl. rewrite L5, L6, C4, C5.
    rewrite Forall_forall in Hprov. apply Hprov, nth_In. unfold al in *. lia. }
  split; [exact E |].
  split; [intro Ht; rewrite E; apply trim_in_place_keeps, Ht |].
  split; [exact Ex |]. split; [exact Es |].
  assert (Hlt : (i <? MAXL) = true) by (apply Nat.ltb_lt; lia).
  intros A m. unfold dieAsm, read_index. rewrite Hlt, Ex, Hlt. reflexivity.
Qed.

Lemma C10_clone_up_to_trim_witness :
  exists g g',
    asm_passA g = Done g'
    /\ nth 0 (asm1 g') [] = cs "DB 1 " /\ nth 0 (lines2 g') [] = cs "DB 1"
    /\ nth 0 (lines2AsmIdx g') 0 = 0.
Proof.
  set (g := set_asm1 [cs "DB 1 "] [0] (set_src [cs "db(1 )"] start)).
  assert (H : asm_passA g
              = Done (set_lines2 [cs "DB 1"] [0] g)) by (vm_compute; reflexivity).
  destruct (C10_clone_up_to_trim g (set_lines2 [cs "DB 1"] [0] g)
              eq_refl eq_refl eq_refl) as (_ & _ & _ & _ & _ & Hi).
  - repeat constructor.
  - exact H.
  - exists g, (set_lines2 [cs "DB 1"] [0] g).
    destruct (Hi 0) as (H1 & _ & H3 & _); [vm_compute; lia |].
    split; [exact H |]. split; [reflexivity |]. split; [| exact H3].
    rewrite H1. reflexivity.
Defined.

(** C10, as stated, fails: for the source line [db(1 )] the lowered line
    is [DB 1] followed by a blank, and [asm_passA] leaves the assembler
    line [DB 1] without it. *)
Lemma C10_counterexample :
  exists g1 g2 g3,
    read_src (Some (file_of ["db(1 )"%string])) start = Done g1
    /\ pass1 g1 = Done g2
    /\ asm_passA g2 = Done g3
    /\ nth 0 (asm1 g3) [] = cs "DB 1 "
    /\ nth 0 (lines2 g3) [] = cs "DB 1"
    /\ nth 0 (lines2 g3) [] <> nth 0 (asm1 g3) [].
Proof.
  do 3 eexists.
  split; [vm_compute; reflexivity |].
  split; [vm_compute; reflexivity |].
  split; [vm_compute; reflexivity |].
  split; [reflexivity |]. split; [reflexivity |].
  vm_compute. discriminate.
Qed.

End Clone.

(** ** The loader *)

Section Loader.

Lemma fgets_length (n : nat) (f : cstr) : length (fst (fgets n f)) <= n.
Proof.
  revert f; induction n as [| n IH]; intros [| c f]; simpl; try lia.
  destruct (is_char 10 c); simpl; [lia |].
  specialize (IH f). destruct (fgets n f); simpl in *. lia.
Qed.

(** A call of [fgets] on a file that is not at its end reads at least
    one character. *)
Lemma fgets_progress (n : nat) (c : ascii) (f : cstr) :
  length (snd (fgets (S n) (c :: f))) <= length f.
Proof.
  revert c f; induction n as [| n IH]; intros c f; simpl.
  - destruct (is_char 10 c); [simpl; lia |].
    destruct f; simpl; lia.
  - destruct (is_char 10 c); [simpl; lia |].
    destruct f as [| d f]; [simpl; lia |].
    specialize (IH d f). cbn [fgets] in IH.
    destruct (is_char 10 d); simpl in *; [lia |].
    destruct (fgets n f); simpl in *. lia.
Qed.

(** Without a newline among them, [fgets] reads exactly [n] characters
    and leaves the rest of the raw line in the file. *)
Lemma fgets_long (n : nat) (l t : cstr) :
  n <= length l -> forallb not_lf l = true ->
  fgets n (l ++ t) = (firstn n l, skipn n l ++ t).
Proof.
  revert l; induction n as [| n IH]; intros l Hn Hl.
  - destruct l; reflexivity.
  - destruct l as [| c l]; [simpl in Hn; lia |].
    simpl in Hl. apply andb_prop in Hl as [Hc Hl].
    unfold not_lf in Hc. apply negb_true_iff in Hc.
    simpl. rewrite Hc. rewrite IH by (simpl in Hn; lia || exact Hl).
    reflexivity.
Qed.

Lemma c_string_length (s : cstr) : length (c_string s) <= length s.
Proof. apply span_length. Qed.

Lemma keep_line_short (t : cstr) (src src' : list cstr) :
  length t <= 79 ->
  Forall (fun l => length l <= 79) src ->
  keep_line t src = Done src' ->
  Forall (fun l => length l <= 79) src'.
Proof.
  intros Ht Hs H. unfold keep_line in H.
  destruct t as [| c t]; [injection H as <-; exact Hs |].
  destruct (is_char 59 c); [injection H as <-; exact Hs |].
  destruct (MAXL <=? length src)%nat; [discriminate |].
  injection H as <-. apply Forall_app. split; [exact Hs |].
  constructor; [exact Ht | constructor].
Qed.

Lemma keep_line_defined (t : cstr) (src : list cstr) :
  keep_line t src <> Undefined.
Proof.
  unfold keep_line. destruct t as [| c t]; [discriminate |].
  destruct (is_char 59 c); [discriminate |].
  destruct (MAXL <=? length src)%nat; discriminate.
Qed.

Lemma read_loop_step (fuel : nat) (c : ascii) (f : cstr) (src : list cstr) :
  read_loop (S fuel) (c :: f) src
  = (src' <- keep_line (trim (c_string (fst (fgets 79 (c :: f))))) src ;;
     read_loop fuel (snd (fgets 79 (c :: f))) src').
Proof.
  cbn [read_loop]. change (LNSZ - 1) with 79.
  destruct (fgets 79 (c :: f)). reflexivity.
Qed.

(** Any fuel from [length f] on gives the same result. *)
Lemma read_loop_fuel (fuel1 fuel2 : nat) (f : cstr) (src : list cstr) :
  length f <= fuel1 -> length f <= fuel2 ->
  read_loop fuel1 f src = read_loop fuel2 f src.
Proof.
  revert fuel2 f src; induction fuel1 as [| a IH]; intros fuel2 f src H1 H2.
  - destruct f; [destruct fuel2; reflexivity | simpl in H1; lia].
  - destruct f as [| c f]; [destruct fuel2; reflexivity |].
    destruct fuel2 as [| b]; [simpl in H2; lia |].
    rewrite !read_loop_step.
    destruct (keep_line _ src) as [src' | d |]; cbn [bind]; try reflexivity.
    pose proof (fgets_progress 78 c f). cbn [length] in H1, H2.
    apply IH; lia.
Qed.

(** With that fuel the loop ends in a result or a diagnostic. *)
Lemma read_loop_defined (fuel : nat) (f : cstr) (src : list cstr) :
  length f <= fuel -> read_loop fuel f src <> Undefined.
Proof.
  revert f src; induction fuel as [| a IH]; intros f src H.
  - destruct f; [discriminate | simpl in H; lia].
  - destruct f as [| c f]; [discriminate |].
    rewrite read_loop_step.
    destruct (keep_line _ src) as [src' | d |] eqn:E; cbn [bind];
      try discriminate.
    + pose proof (fgets_progress 78 c f). cbn [length] in H. apply IH. lia.
    + destruct (keep_line_defined _ _ E).
Qed.

Lemma read_loop_short (fuel : nat) (f : cstr) (src src' : list cstr) :
  Forall (fun l => length l <= 79) src ->
  read_loop fuel f src = Done src' ->
  Forall (fun l => length l <= 79) src'.
Proof.
  revert f src; induction fuel as [| a IH]; intros f src Hs H.
  - destruct f; [injection H as <-; exact Hs | discriminate].
  - destruct f as [| c f]; [injection H as <-; exact Hs |].
    rewrite read_loop_step in H. apply bind_done in H as (s1 & H1 & H2).
    eapply IH; [| exact H2].
    eapply keep_line_short; [| exact Hs | exact H1].
    pose proof (trim_length (c_string (fst (fgets 79 (c :: f))))).
    pose proof (c_string_length (fst (fgets 79 (c :: f)))).
    pose proof (fgets_length 79 (c :: f)). lia.
Qed.

(** C4, as the code has it. The loader reads a raw line that is longer
    than 79 bytes in pieces: the first 79 bytes are trimmed and kept (when
    not empty and not a comment) as a source line, and the rest of the raw
    line stays in the file and is read as if it were the next line. Every
    line kept has at most 79 bytes, and the loader always ends with the
    source sequence or a diagnostic. *)
Theorem C4_long_line_read_in_pieces (l rest : cstr) (g : globals) :
  79 < length l -> forallb not_lf l = true ->
  Forall (fun s => length s <= 79) (src g) ->
  read_src (Some (l ++ nl ++ rest)) g
  = (s1 <- keep_line (trim (c_string (firstn 79 l))) (src g) ;;
     read_src (Some (skipn 79 l ++ nl ++ rest)) (set_src s1 g))
  /\ skipn 79 l <> []
  /\ read_src (Some (l ++ nl ++ rest)) g <> Undefined
  /\ (forall g', read_src (Some (l ++ nl ++ rest)) g = Done g' ->
        Forall (fun s => length s <= 79) (src g')).
Proof.
  intros Hlen Hl Hs. split; [| split; [| split]].
  - unfold read_src.
    destruct (l ++ nl ++ rest) as [| c f] eqn:E.
    { destruct l; [simpl in Hlen; lia | discriminate]. }
    assert (Hf : length (c :: f) = length l + S (length rest))
      by (rewrite <- E, !length_app; reflexivity).
    cbn [length]. rewrite read_loop_step. rewrite <- E.
    rewrite fgets_long by (lia || exact Hl). cbn [fst snd].
    destruct (keep_line _ (src g)) as [s1 | d |]; cbn [bind src set_src];
      try reflexivity.
    rewrite (read_loop_fuel (length f)
               (length (skipn 79 l ++ nl ++ rest))).
    + reflexivity.
    + rewrite !length_app, length_skipn. change (length nl) with 1.
      cbn [length] in *. lia.
    + lia.
  - intro E. apply (f_equal (@length ascii)) in E.
    rewrite length_skipn in E. simpl in E. lia.
  - unfold read_src. intro E.
    destruct (read_loop _ _ _) eqn:E1; try discriminate.
    apply read_loop_defined in E1; [exact E1 | lia].
  - intros g' H. unfold read_src in H. apply bind_done in H as (s & H1 & H2).
    injection H2 as <-. simpl. eapply read_loop_short; eassumption.
Qed.

Lemma C4_long_line_read_in_pieces_witness :
  exists g',
    read_src (Some (repeat "a"%char 80 ++ nl ++ [])) start = Done g'
    /\ Forall (fun s => length s <= 79) (src g').
Proof.
  pose proof (C4_long_line_read_in_pieces (repeat "a"%char 80) [] start)
    as (H1 & _ & _ & H4).
  - vm_compute. lia.
  - reflexivity.
  - constructor.
  - eexists. split; [vm_compute; reflexivity |].
    apply H4. vm_compute. reflexivity.
Defined.

(** C4, as stated, fails: a raw line of 80 bytes leaves two source lines,
    its first 79 bytes and its last byte. *)
Lemma C4_counterexample :
  exists g',
    read_src (Some (repeat "a"%char 80 ++ nl)) start = Done g'
    /\ src g' = [repeat "a"%char 79; ["a"%char]]
    /\ length (src g') = 2.
Proof.
  eexists. split; [vm_compute; reflexivity |]. split; reflexivity.
Qed.

End Loader.

(** ** Numeric literals *)

Section Literals.

Ltac by_cases_on c :=
  destruct c as [[] [] [] [] [] [] [] []]; vm_compute; intuition congruence.

Lemma is_char_eq (n : nat) (c : ascii) :
  n < 256 -> is_char (Z.of_nat n) c = true -> c = ascii_of_nat n.
Proof.
  intros Hn H. unfold is_char, code in H. apply Z.eqb_eq in H.
  rewrite <- (ascii_N_embedding c). unfold ascii_of_nat. f_equal. lia.
Qed.

Lemma isdigit_facts (c : ascii) :
  isdigit c = true ->
  isxdigit c = true /\ digit_in 10 c = digit_value c
  /\ is_digit_in 10 c = true.
Proof. by_cases_on c. Qed.

Lemma isxdigit_facts (c : ascii) :
  isxdigit c = true ->
  isspace c = false /\ is_char 45 c = false /\ is_char 43 c = false
  /\ is_char 120 c = false /\ is_char 88 c = false
  /\ digit_in 16 c = digit_value c
  /\ Ascii.eqb "x" c = false.
Proof. by_cases_on c. Qed.

Lemma lit_char_facts (c : ascii) :
  lit_char c = true ->
  not_delim c = true /\ payload_char c = true.
Proof. by_cases_on c. Qed.

Lemma payload_char_facts (c : ascii) :
  payload_char c = true ->
  is_trailing c = false /\ is_blank c = false
  /\ not_lf c = true /\ not_nul c = true.
Proof. by_cases_on c. Qed.

Lemma scan_digits_all (base : Z) (s : cstr) (acc : Z) :
  forallb (fun c => is_digit_in base c) s = true ->
  scan_digits base s acc
  = (fold_left
       (fun a c =>
          a * base + match digit_in base c with Some d => d | None => 0 end)%Z
       s acc, []).
Proof.
  revert acc; induction s as [| c s IH]; intros acc H; simpl; [reflexivity |].
  simpl in H. apply andb_prop in H as [Hc Hs]. unfold is_digit_in in Hc.
  destruct (digit_in base c); [| discriminate]. apply IH, Hs.
Qed.

Lemma fold_left_ext_in {A B : Type} (f g : A -> B -> A) (l : list B) (a : A) :
  (forall x y, In y l -> f x y = g x y) -> fold_left f l a = fold_left g l a.
Proof.
  revert a; induction l as [| b l IH]; intros a H; simpl; [reflexivity |].
  rewrite H by (left; reflexivity). apply IH.
  intros x y Hy. apply H. right. exact Hy.
Qed.

Lemma scan_digits_positional (base : Z) (s : cstr) :
  forallb (fun c => is_digit_in base c) s = true ->
  scan_digits base s 0 = (positional base s, []).
Proof.
  intro H. rewrite scan_digits_all by exact H. unfold positional.
  f_equal. apply fold_left_ext_in. intros a c Hc. f_equal.
  rewrite forallb_forall in H. specialize (H c Hc).
  unfold is_digit_in, digit_in in *.
  destruct (digit_value c) as [d |]; [| discriminate].
  destruct (d <? base)%Z; [reflexivity | discriminate].
Qed.

Lemma digit_in_10_16 (c : ascii) :
  is_digit_in 10 c = true -> isxdigit c = true.
Proof. by_cases_on c. Qed.

(** [strtoul] and [strtol] in base 10 or 16 on a run of digits of the
    base: no white space, sign or prefix is skipped, and every digit is
    converted. *)
Lemma strto_core_digits (base : Z) (h : ascii) (r : cstr) :
  base = 10%Z \/ base = 16%Z ->
  forallb (fun c => is_digit_in base c) (h :: r) = true ->
  strto_core base (h :: r) = Some (false, positional base (h :: r), []).
Proof.
  intros Hb H.
  assert (Hx : forall c, is_digit_in base c = true -> isxdigit c = true).
  { intros c Hc. destruct Hb as [-> | ->];
      [apply digit_in_10_16, Hc | exact Hc]. }
  pose proof H as H0. cbn [forallb] in H0. apply andb_prop in H0 as [Hh Hr].
  destruct (isxdigit_facts h (Hx h Hh)) as (H1 & H2 & H3 & _).
  pose proof (scan_digits_positional base (h :: r) H) as Hscan.
  unfold strto_core. cbn [skip]. rewrite H1, H2, H3.
  destruct r as [| x [| h0 r0]].
  - destruct Hb as [-> | ->]; cbv beta iota zeta; cbn [Z.eqb Pos.eqb];
      rewrite Hh, Hscan; reflexivity.
  - destruct Hb as [-> | ->]; cbv beta iota zeta; cbn [Z.eqb Pos.eqb];
      rewrite Hh, Hscan; reflexivity.
  - cbn [forallb] in Hr. apply andb_prop in Hr as [Hxd _].
    destruct (isxdigit_facts x (Hx x Hxd)) as (_ & _ & _ & X1 & X2 & _).
    rewrite X1, X2, andb_false_r.
    destruct Hb as [-> | ->]; cbv beta iota zeta; cbn [Z.eqb Pos.eqb andb];
      rewrite Hh, Hscan; reflexivity.
Qed.

(** [parseImm] on a well-formed literal of a byte returns its value,
    whatever the state and the line. *)
Lemma parseImm_byte_literal (g : globals) (x : cstr) (i : nat) :
  byte_literal x -> parseImm g (Some x) i = Done (literal_value x).
Proof.
  intros [Hwf Hval]. unfold parseImm.
  assert (Hsmall : forall v, (0 <= v <= 255)%Z ->
            (if (ULONG_MAX <? v)%Z then ULONG_MAX else v) = v
            /\ to_uint32 v = v).
  { intros v Hv. split.
    - replace (ULONG_MAX <? v)%Z with false; [reflexivity |].
      symmetry. apply Z.ltb_ge. unfold ULONG_MAX. lia.
    - apply to_uint32_small. lia. }
  destruct (is_hex_literal x) eqn:Ehex.
  - unfold literal_value in *. rewrite Ehex in *.
    destruct x as [| z [| c [| h r]]]; try discriminate.
    cbn [is_hex_literal] in Ehex.
    apply andb_prop in Ehex as [Ezc Ehr]. apply andb_prop in Ezc as [Ez Ec].
    apply (is_char_eq 48) in Ez; [| lia]. apply (is_char_eq 120) in Ec; [| lia].
    subst z c. cbn [starts_with cs list_ascii_of_string Ascii.eqb Bool.eqb andb
                    ascii_of_nat ascii_of_pos ascii_of_N Pos.of_succ_nat
                    Pos.succ N.of_nat skipn] in *.
    change (starts_with (cs "0x") ("0"%char :: "x"%char :: h :: r)) with true.
    cbv iota. unfold strtoul.
    rewrite strto_core_digits by (auto || exact Ehr).
    destruct (Hsmall _ Hval) as [-> ->]. reflexivity.
  - rewrite orb_false_r in Hwf. unfold literal_value in *. rewrite Ehex in *.
    destruct x as [| h r]; [discriminate |]. cbn [is_dec_literal] in Hwf.
    assert (Hd : forallb (fun c => is_digit_in 10 c) (h :: r) = true).
    { apply forallb_forall. intros c Hc. rewrite forallb_forall in Hwf.
      apply isdigit_facts, Hwf, Hc. }
    assert (Hnox : starts_with (cs "0x") (h :: r) = false).
    { cbn [starts_with cs list_ascii_of_string].
      destruct r as [| c r]; [apply andb_false_r |].
      cbn [forallb] in Hwf. apply andb_prop in Hwf as [_ Hwf].
      apply andb_prop in Hwf as [Hc _].
      destruct (isdigit_facts c Hc) as (Hc' & _).
      destruct (isxdigit_facts c Hc') as (_ & _ & _ & _ & _ & _ & X).
      rewrite X. apply andb_false_r. }
    rewrite Hnox. unfold strtoul.
    rewrite strto_core_digits by (auto || exact Hd).
    destruct (Hsmall _ Hval) as [-> ->]. reflexivity.
Qed.

End Literals.

(** ** [db(...)] from the source to the output *)

Section DB.

Lemma db_loop_literals (xs : list cstr) (i : nat) (pc : Z) (g : globals) :
  Forall byte_literal xs ->
  (0 <= pc < 2 ^ 32)%Z ->
  fpos (out g) = length (fdata (out g)) ->
  db_loop i xs pc g
  = Done (to_uint32 (pc + Z.of_nat (length xs)),
          set_out {| fpos := length (fdata (out g)) + length xs;
                     fdata := fdata (out g) ++ map literal_value xs |} g).
Proof.
  intro H; revert pc g; induction H as [| x xs Hx _ IH]; intros pc g Hpc Hpos.
  - cbn [db_loop length map]. rewrite Z.add_0_r, to_uint32_small by exact Hpc.
    rewrite Nat.add_0_r, app_nil_r, <- Hpos. destruct g as [? ? ? ? ? ? ? ? []].
    reflexivity.
  - cbn [db_loop]. rewrite (parseImm_byte_literal g x i Hx). cbn [bind].
    destruct Hx as [_ Hv].
    replace (255 <? literal_value x)%Z with false
      by (symmetry; apply Z.ltb_ge; lia).
    unfold e8. rewrite Z.mod_small by lia.
    rewrite fputc_append by exact Hpos.
    rewrite IH; cbn [out set_out fpos fdata].
    + f_equal. f_equal.
      * unfold to_uint32. rewrite Zplus_mod_idemp_l. f_equal.
        cbn [length]. lia.
      * rewrite length_app, <- app_assoc. cbn [length map app].
        unfold set_out. cbn [src asm1 asmSrcLine lines2 lines2AsmIdx bstack sp
                             lbl2]. f_equal. f_equal. lia.
    + apply to_uint32_range.
    + rewrite length_app. cbn [length]. lia.
Qed.

(** The rule for [db(...)]: whatever the payload, one lowered line that
    replaces [db(] by [DB ] and drops the closing parenthesis. *)
Lemma pass1_line_db (i : nat) (payload : cstr) (g : globals) :
  al g < MAXL ->
  pass1_line i (cs "db(" ++ payload ++ cs ")") g
  = Done (set_asm1 (asm1 g ++ [cs "DB " ++ payload]) (asmSrcLine g ++ [i]) g).
Proof.
  intro Hal.
  set (line := cs "db(" ++ payload ++ cs ")").
  assert (Htrim : trim line = line).
  { pose proof (trim_core "d" ")" ("b"%char :: "("%char :: payload) []
                  eq_refl eq_refl eq_refl) as H.
    rewrite app_nil_r in H. exact H. }
  assert (Hends : ends_with 41 line = true).
  { unfold line. rewrite app_assoc. apply ends_with_snoc. }
  assert (Hrem : removelast line = cs "db(" ++ payload).
  { unfold line. rewrite app_assoc. apply removelast_last. }
  assert (Hcap : (MAXL <=? al g)%nat = false) by (apply Nat.leb_gt, Hal).
  unfold pass1_line. rewrite Htrim, Hends, Hrem.
  unfold line at 1 2.
  cbn [cs list_ascii_of_string app map].
  change (tolower "d") with "d"%char. change (tolower "b") with "b"%char.
  change (tolower "(") with "("%char.
  cbn [starts_with Ascii.eqb Bool.eqb andb skipn].
  unfold pass1_rest.
  cbn [cs list_ascii_of_string streq starts_with Ascii.eqb Bool.eqb andb].
  rewrite Hcap. unfold emit_asm1. rewrite Hcap. reflexivity.
Qed.

(** *** The loader on a file of one short line *)

Lemma fgets_short (n : nat) (l t : cstr) :
  length l <= n -> forallb not_lf l = true ->
  fgets n (l ++ t)
  = (l ++ fst (fgets (n - length l) t), snd (fgets (n - length l) t)).
Proof.
  revert n; induction l as [| c l IH]; intros n Hn Hl.
  - cbn [app length]. rewrite Nat.sub_0_r. destruct (fgets n t); reflexivity.
  - destruct n as [| n]; [simpl in Hn; lia |].
    cbn [forallb] in Hl. apply andb_prop in Hl as [Hc Hl].
    unfold not_lf in Hc. apply negb_true_iff in Hc.
    cbn [app fgets length Nat.sub]. rewrite Hc.
    rewrite IH by (simpl in Hn; lia || exact Hl). reflexivity.
Qed.

Lemma fgets_forallb (p : ascii -> bool) (n : nat) (t : cstr) :
  forallb p t = true ->
  forallb p (fst (fgets n t)) = true /\ forallb p (snd (fgets n t)) = true.
Proof.
  revert t; induction n as [| n IH]; intros [| c t] H; cbn [fgets fst snd];
    try (split; [reflexivity | exact H]); try (split; reflexivity).
  cbn [forallb] in H. apply andb_prop in H as [Hc Ht].
  destruct (is_char 10 c).
  - cbn [fst snd forallb]. rewrite Hc. auto.
  - destruct (IH t Ht) as [H1 H2]. destruct (fgets n t). cbn [fst snd] in *.
    cbn [forallb]. rewrite Hc. auto.
Qed.

Lemma span_forallb (p q : ascii -> bool) (s : cstr) :
  forallb p s = true -> forallb p (span q s) = true.
Proof.
  induction s as [| c s IH]; intro H; cbn [span]; [reflexivity |].
  cbn [forallb] in H. apply andb_prop in H as [Hc Hs].
  destruct (q c); [| reflexivity]. cbn [forallb]. rewrite Hc. apply IH, Hs.
Qed.

(** Blank characters, CRs and LFs up to the end of the file add nothing. *)
Lemma read_loop_blank (fuel : nat) (w : cstr) (src : list cstr) :
  forallb is_trailing w = true -> length w <= fuel ->
  read_loop fuel w src = Done src.
Proof.
  revert w src; induction fuel as [| a IH]; intros w src Hw Hlen.
  - destruct w; [reflexivity | simpl in Hlen; lia].
  - destruct w as [| c w]; [reflexivity |].
    rewrite read_loop_step.
    destruct (fgets_forallb is_trailing 79 (c :: w) Hw) as [H1 H2].
    rewrite trim_trailing by (apply span_forallb, H1). cbn [keep_line bind].
    apply IH; [exact H2 |].
    pose proof (fgets_progress 78 c w). cbn [length] in Hlen. lia.
Qed.

Lemma is_trailing_not_nul (c : ascii) : is_trailing c = true -> not_nul c = true.
Proof.
  destruct c as [[] [] [] [] [] [] [] []]; vm_compute; intuition congruence.
Qed.

(** A file that holds one line of at most 79 bytes, which starts with
    neither a blank nor a semicolon and ends with no blank, and after it
    only what ends a line, is read as that line. *)
Lemma read_single_line (a c : ascii) (s ws : cstr) (g : globals) :
  is_blank a = false -> is_char 59 a = false -> is_trailing c = false ->
  forallb not_lf (a :: s ++ [c]) = true ->
  forallb not_nul (a :: s ++ [c]) = true ->
  length (a :: s ++ [c]) <= 79 ->
  forallb is_trailing ws = true ->
  sl g < MAXL ->
  read_src (Some ((a :: s ++ [c]) ++ ws)) g
  = Done (set_src (src g ++ [a :: s ++ [c]]) g).
Proof.
  intros Ha Hsemi Hc Hlf Hnul Hlen Hws Hcap.
  set (line := a :: s ++ [c]) in *.
  unfold read_src.
  assert (E : read_loop (length (line ++ ws)) (line ++ ws) (src g)
              = Done (src g ++ [line])); [| rewrite E; reflexivity].
  destruct (fgets_forallb is_trailing (79 - length line) ws Hws) as [W1 W2].
  assert (Hfuel : length (line ++ ws) = S (length (s ++ [c] ++ ws)))
    by (unfold line; cbn [app length]; rewrite <- app_assoc; reflexivity).
  rewrite Hfuel.
  change (line ++ ws) with (a :: (s ++ [c]) ++ ws) at 1.
  rewrite read_loop_step.
  change (a :: (s ++ [c]) ++ ws) with (line ++ ws).
  rewrite fgets_short by assumption. cbn [fst snd].
  unfold c_string. rewrite span_all.
  - unfold line at 1. rewrite trim_core by assumption.
    unfold keep_line. rewrite Hsemi.
    replace (MAXL <=? length (src g))%nat with false
      by (symmetry; apply Nat.leb_gt; exact Hcap).
    cbn [bind]. apply read_loop_blank; [exact W2 |].
    assert (L : length (fst (fgets (79 - length line) ws))
                + length (snd (fgets (79 - length line) ws)) = length ws).
    { clear. generalize (79 - length line). intro n. revert ws.
      induction n as [| n IH]; intros [| d ws]; cbn [fgets fst snd length];
        try reflexivity.
      destruct (is_char 10 d); [reflexivity |].
      specialize (IH ws). destruct (fgets n ws). cbn [fst snd length] in *.
      lia. }
    rewrite !length_app. cbn [length]. lia.
  - rewrite forallb_app. rewrite Hnul. cbn [andb].
    apply forallb_forall. intros x Hx. apply is_trailing_not_nul.
    rewrite forallb_forall in W1. apply W1, Hx.
Qed.

(** *** The characters of a list of literals *)

Lemma byte_literal_chars (x : cstr) :
  byte_literal x -> x <> [] /\ forallb lit_char x = true.
Proof.
  intros [Hwf _]. apply orb_prop in Hwf as [Hd | Hh].
  - destruct x as [| h r]; [discriminate |]. split; [discriminate |].
    cbn [is_dec_literal] in Hd. apply forallb_forall. intros c Hc.
    rewrite forallb_forall in Hd. unfold lit_char.
    destruct (isdigit_facts c (Hd c Hc)) as [-> _]. reflexivity.
  - destruct x as [| z [| c [| h r]]]; try discriminate.
    split; [discriminate |]. cbn [is_hex_literal] in Hh.
    apply andb_prop in Hh as [Hzc Hhr]. apply andb_prop in Hzc as [Hz Hc].
    apply (is_char_eq 48) in Hz; [| lia]. subst z.
    apply forallb_forall. intros d [<- | [<- | Hd]].
    + reflexivity.
    + unfold lit_char. rewrite Hc. apply orb_true_r.
    + rewrite forallb_forall in Hhr. unfold lit_char. rewrite (Hhr d Hd).
      reflexivity.
Qed.

Lemma byte_literals_tokens (xs : list cstr) :
  Forall byte_literal xs ->
  Forall (fun x => x <> [] /\ forallb not_delim x = true) xs.
Proof.
  intro H. eapply Forall_impl; [| exact H]. intros x Hx.
  destruct (byte_literal_chars x Hx) as [Hne Hch]. split; [exact Hne |].
  apply forallb_forall. intros c Hc. rewrite forallb_forall in Hch.
  apply lit_char_facts, Hch, Hc.
Qed.

Lemma join_commas_chars (xs : list cstr) :
  Forall byte_literal xs -> forallb payload_char (join_commas xs) = true.
Proof.
  assert (Hlit : forall x, byte_literal x -> forallb payload_char x = true).
  { intros x Hx. destruct (byte_literal_chars x Hx) as [_ Hch].
    apply forallb_forall. intros c Hc. rewrite forallb_forall in Hch.
    apply lit_char_facts, Hch, Hc. }
  assert (Htail : forall ys, Forall byte_literal ys ->
                    forallb payload_char (comma_tail ys) = true).
  { intros ys Hys. induction Hys as [| y ys Hy _ IH]; [reflexivity |].
    change (comma_tail (y :: ys)) with ((","%char :: y) ++ comma_tail ys).
    rewrite forallb_app. cbn [forallb]. rewrite (Hlit y Hy), IH.
    reflexivity. }
  intro H. destruct H as [| x xs Hx Hxs]; [reflexivity |].
  cbn [join_commas]. rewrite forallb_app, (Hlit x Hx), (Htail xs Hxs).
  reflexivity.
Qed.

Lemma join_commas_length (xs : list cstr) :
  Forall byte_literal xs -> length xs <= length (join_commas xs).
Proof.
  assert (Htail : forall ys, length ys <= length (comma_tail ys)).
  { induction ys as [| y ys IH]; [cbn; lia |].
    change (comma_tail (y :: ys)) with ((","%char :: y) ++ comma_tail ys).
    rewrite length_app. cbn [length]. lia. }
  intro H. destruct H as [| x xs Hx Hxs]; [cbn; lia |].
  destruct (byte_literal_chars x Hx) as [Hne _].
  cbn [join_commas length]. rewrite length_app. specialize (Htail xs).
  destruct x; [contradiction | cbn [length]; lia].
Qed.

Lemma forallb_last (p : ascii -> bool) (s : cstr) (d : ascii) :
  s <> [] -> forallb p s = true -> p (last s d) = true.
Proof.
  intros Hne H. destruct (@exists_last _ s Hne) as (s' & c & ->).
  rewrite last_last. rewrite forallb_app in H.
  apply andb_prop in H as [_ H]. cbn [forallb] in H.
  apply andb_prop in H as [H _]. exact H.
Qed.

Lemma last_app_r (p s : cstr) (d : ascii) :
  s <> [] -> last (p ++ s) d = last s d.
Proof.
  intro Hne. destruct (@exists_last _ s Hne) as (s' & c & ->).
  rewrite app_assoc, !last_last. reflexivity.
Qed.

(** The lowered line of a non-empty list of literals is already trimmed. *)
Lemma db_line_trimmed (x : cstr) (xs : list cstr) :
  Forall byte_literal (x :: xs) ->
  trim (cs "DB " ++ join_commas (x :: xs)) = cs "DB " ++ join_commas (x :: xs)
  /\ trim_in_place (cs "DB " ++ join_commas (x :: xs))
     = cs "DB " ++ join_commas (x :: xs).
Proof.
  intro H.
  assert (Hne : join_commas (x :: xs) <> []).
  { inversion H as [| ? ? Hx _]; subst.
    destruct (byte_literal_chars x Hx) as [Hne _].
    cbn [join_commas]. destruct x; [contradiction | discriminate]. }
  assert (Hlast : is_trailing (last (cs "DB " ++ join_commas (x :: xs)) zero)
                  = false).
  { rewrite last_app_r by exact Hne.
    apply payload_char_facts, forallb_last;
      [exact Hne | apply join_commas_chars, H]. }
  split; [| apply trim_in_place_keeps, Hlast].
  unfold trim. change (skip is_blank (cs "DB " ++ join_commas (x :: xs)))
    with (cs "DB " ++ join_commas (x :: xs)).
  apply rstrip_keeps, Hlast.
Qed.

Lemma tokens_db_line (xs : list cstr) :
  Forall byte_literal xs ->
  tokens (cs "DB " ++ join_commas xs) = cs "DB" :: xs.
Proof.
  intro H. pose proof (tokens_join_commas xs (byte_literals_tokens xs H)) as E.
  unfold tokens in *. cbn [cs list_ascii_of_string app tokens_from].
  change (is_delim "D") with false. change (is_delim "B") with false.
  change (is_delim " ") with true. cbv iota. cbn [app]. rewrite E.
  reflexivity.
Qed.

End DB.

Section RoundTrip.

Lemma line_sz_db (xs : list cstr) :
  Forall byte_literal xs ->
  line_sz (cs "DB " ++ join_commas xs) = Done (to_uint32 (Z.of_nat (length xs))).
Proof.
  intro H. unfold line_sz. rewrite (tokens_db_line xs H). reflexivity.
Qed.

(** C7. For a file whose one line is [db(x1,...,xN)], of at most 79 bytes,
    with every [xi] a literal (decimal digits, or [0x] and hexadecimal
    digits) of a value in 0...255, and after it only what ends a line, the
    translator returns; the lowered sequence is the one line
    [DB x1,...,xN]; [out.bin] holds exactly [N] bytes, byte [i] being the
    value of [xi], from offset 0; and the sizer gives that line the size
    [N]. *)
Theorem C7_db_round_trip (xs : list cstr) (eol : cstr) :
  Forall byte_literal xs ->
  forallb is_trailing eol = true ->
  length (cs "db(" ++ join_commas xs ++ cs ")") <= 79 ->
  exists g,
    main (Some ((cs "db(" ++ join_commas xs ++ cs ")") ++ eol)) = Done g
    /\ src g = [cs "db(" ++ join_commas xs ++ cs ")"]
    /\ asm1 g = [cs "DB " ++ join_commas xs]
    /\ fdata (out g) = map literal_value xs
    /\ length (fdata (out g)) = length xs
    /\ (forall k, k < length xs ->
          nth k (fdata (out g)) 0%Z = literal_value (nth k xs []))
    /\ line_sz (cs "DB " ++ join_commas xs) = Done (Z.of_nat (length xs)).
Proof.
  intros Hxs Heol Hlen.
  set (payload := join_commas xs) in *.
  set (line := cs "db(" ++ payload ++ cs ")") in *.
  set (dbl := cs "DB " ++ payload).
  assert (Hpay : forallb payload_char payload = true)
    by apply join_commas_chars, Hxs.
  assert (HN : (0 <= Z.of_nat (length xs) < 2 ^ 32)%Z).
  { pose proof (join_commas_length xs Hxs) as L. fold payload in L.
    unfold line in Hlen. rewrite !length_app in Hlen. lia. }
  assert (Hread : read_src (Some (line ++ eol)) start
                  = Done (set_src [line] start)).
  { apply (read_single_line "d" ")" ("b"%char :: "("%char :: payload) eol start);
      try reflexivity; try assumption.
    - change (forallb not_lf (cs "db(" ++ payload ++ cs ")") = true).
      rewrite !forallb_app.
      replace (forallb not_lf payload) with true; [reflexivity |].
      symmetry. apply forallb_forall. intros c Hc.
      rewrite forallb_forall in Hpay. apply payload_char_facts, Hpay, Hc.
    - change (forallb not_nul (cs "db(" ++ payload ++ cs ")") = true).
      rewrite !forallb_app.
      replace (forallb not_nul payload) with true; [reflexivity |].
      symmetry. apply forallb_forall. intros c Hc.
      rewrite forallb_forall in Hpay. apply payload_char_facts, Hpay, Hc.
    - vm_compute. lia. }
  assert (Hp1 : pass1 (set_src [line] start)
                = Done (set_asm1 [dbl] [0] (set_src [line] start))).
  { unfold pass1. cbn [src set_src pass1_loop].
    unfold line. rewrite pass1_line_db by (vm_compute; lia). reflexivity. }
  set (g2 := set_asm1 [dbl] [0] (set_src [line] start)) in *.
  assert (Htok : tokens dbl = cs "DB" :: xs) by apply tokens_db_line, Hxs.
  assert (Hsz : line_sz dbl = Done (Z.of_nat (length xs))).
  { unfold dbl, payload. rewrite line_sz_db by exact Hxs.
    rewrite to_uint32_small by exact HN. reflexivity. }
  assert (HpA : exists l2,
             asm_passA g2 = Done (set_lines2 [l2] [0] g2) /\ tokens l2 = cs "DB" :: xs).
  { destruct xs as [| x xs'].
    - exists (cs "DB"). split; [vm_compute; reflexivity | reflexivity].
    - destruct (db_line_trimmed x xs' Hxs) as [T1 T2].
      fold payload in T1, T2. fold dbl in T1, T2.
      exists dbl. split; [| exact Htok].
      unfold asm_passA.
      change (clone_loop 0 (asm1 g2) g2) with (Done (set_lines2 [dbl] [0] g2)).
      cbn [bind ln2 lines2 set_lines2 length label_loop nth lines2AsmIdx list_set].
      rewrite T1, T2, Htok.
      change (ends_with 58 (cs "DB")) with false. cbv iota.
      rewrite Hsz. reflexivity. }
  destruct HpA as (l2 & HpA & Htok2).
  set (g3 := set_lines2 [l2] [0] g2) in *.
  assert (HpB : asm_passB g3
                = Done (set_out {| fpos := length xs;
                                   fdata := map literal_value xs |} g3)).
  { unfold asm_passB.
    cbn [ln2 lines2 g3 set_lines2 set_out length passB_loop nth].
    unfold passB_line. rewrite Htok2.
    change (streq (cs "DB") (cs "ORG")) with false.
    change (streq (cs "DB") (cs "DB")) with true. cbv iota.
    rewrite db_loop_literals; [reflexivity | exact Hxs | lia | reflexivity]. }
  eexists. split.
  - unfold main. rewrite Hread. cbn [bind]. rewrite Hp1. cbn [bind].
    rewrite HpA. cbn [bind]. exact HpB.
  - cbn [src asm1 out fdata set_out set_lines2 set_asm1 set_src g3 g2].
    repeat split; try reflexivity; try exact Hsz.
    + apply length_map.
    + intros k Hk. change 0%Z with (literal_value []).
      apply map_nth.
Qed.

Lemma C7_db_round_trip_witness :
  exists g,
    main (Some (cs "db(0xAA,187)" ++ nl)) = Done g
    /\ fdata (out g) = [170; 187]%Z.
Proof.
  destruct (C7_db_round_trip [cs "0xAA"; cs "187"] nl) as (g & H1 & _ & _ & H4 & _).
  - repeat constructor; vm_compute; discriminate.
  - reflexivity.
  - vm_compute. lia.
  - exists g. split; [exact H1 | exact H4].
Defined.

End RoundTrip.

(** ** The sizes of the sizer and the advance of the emitter *)

Section Sizes.

Lemma db_loop_pc (args : list cstr) (i : nat) (pc pc' : Z) (g g' : globals) :
  (0 <= pc < 2 ^ 32)%Z ->
  db_loop i args pc g = Done (pc', g') ->
  pc' = to_uint32 (pc + Z.of_nat (length args)).
Proof.
  revert pc g; induction args as [| v args IH]; intros pc g Hpc H;
    cbn [db_loop] in H.
  - injection H as <- <-. cbn [length]. rewrite Z.add_0_r.
    symmetry. apply to_uint32_small, Hpc.
  - apply bind_done in H as (b & _ & H).
    destruct (255 <? b)%Z; [destruct (dieAsm_not_done _ _ _ _ H) |].
    apply IH in H; [| apply to_uint32_range]. subst pc'.
    unfold to_uint32. rewrite Zplus_mod_idemp_l. f_equal.
    cbn [length]. lia.
Qed.

(** On every line but [ORG] and [FILL] lines, when the emitter goes on,
    its PC advances by the size the sizer computes for the line. *)
Lemma passB_line_advance
  (i : nat) (ln tok : cstr) (args : list cstr) (pc pc' : Z) (g g' : globals) :
  (0 <= pc < 2 ^ 32)%Z ->
  tokens ln = tok :: args ->
  streq tok (cs "ORG") = false ->
  streq tok (cs "FILL") = false ->
  passB_line i ln pc g = Done (pc', g') ->
  exists sz, line_sz ln = Done sz /\ pc' = to_uint32 (pc + sz).
Proof.
  intros Hpc Htok Horg Hfill H.
  unfold passB_line in H. unfold line_sz. rewrite Htok in *.
  rewrite Horg, Hfill in *.
  destruct (streq tok (cs "DB")) eqn:Edb.
  { apply streq_eq in Edb. subst tok. cbn [ends_with last cs list_ascii_of_string].
    change (is_char 58 "B") with false. cbv iota.
    eexists. split; [reflexivity |].
    apply db_loop_pc in H; [| exact Hpc]. subst pc'.
    unfold to_uint32. rewrite Zplus_mod_idemp_r. reflexivity. }
  destruct (streq tok (cs "INT")) eqn:Eint.
  { apply streq_eq in Eint. subst tok.
    change (ends_with 58 (cs "INT")) with false. cbv iota.
    apply bind_done in H as (imm & _ & H).
    destruct (255 <? imm)%Z; [destruct (dieAsm_not_done _ _ _ _ H) |].
    injection H as <- <-. eexists. split; reflexivity. }
  destruct (streq tok (cs "JMP") || streq tok (cs "CALL")) eqn:Ejmp.
  { assert (Hc : ends_with 58 tok = false).
    { apply orb_prop in Ejmp as [E | E]; apply streq_eq in E; subst tok;
        reflexivity. }
    rewrite Hc. apply bind_done in H as (dest & _ & H).
    injection H as <- <-. eexists. split; reflexivity. }
  destruct (streq tok (cs "LJMP")) eqn:Eljmp.
  { apply streq_eq in Eljmp. subst tok.
    change (ends_with 58 (cs "LJMP")) with false. cbv iota.
    destruct (nth_error args 0) as [p |]; [| discriminate].
    destruct (strchr ":" p) as [[p' sg] |]; [| discriminate].
    apply bind_done in H as (off & _ & H).
    apply bind_done in H as (s & _ & H).
    injection H as <- <-. eexists. split; reflexivity. }
  destruct (ends_with 58 tok).
  - injection H as <- <-. eexists. split; [reflexivity |].
    rewrite Z.add_0_r. symmetry. apply to_uint32_small, Hpc.
  - destruct (dieAsm_not_done _ _ _ _ H).
Qed.

End Sizes.

(** ** Where the code leaves its specification *)

Section Defects.

(** C1 (defect of the code). The file [fill(0x10,0)], [L:], [jmp(L)] is
    accepted. The sizer reads the count of [FILL] with [atoi], which stops
    at the [x]: the line has size 0 and [L] is recorded at 0. The emitter
    reads the same count with [parseImm]: it writes 16 bytes and reaches
    the line [L:] with its PC at 16, so the jump written at 16 gets the
    displacement [0 - 21] and does not land on [L]. *)
Theorem C1_fill_count_sized_and_emitted_differently :
  let prog := file_of ["fill(0x10,0)"; "L:"; "jmp(L)"]%string in
  exists g1 g2 gc g3 g4,
    read_src (Some prog) start = Done g1
    /\ pass1 g1 = Done g2
    /\ clone_loop 0 (asm1 g2) g2 = Done gc
    /\ asm_passA g2 = Done g3
    /\ asm_passB g3 = Done g4
    /\ lines2 g3 = [cs "FILL 0x10,0"; cs "L:"; cs "JMP L"]
    /\ line_sz (cs "FILL 0x10,0") = Done 0%Z
    /\ passA_pc_at 1 gc = Done 0%Z
    /\ lbl2 g3 = [{| name := cs "L"; addr := 0%Z |}]
    /\ passB_pc_at 1 g3 = Done 16%Z
    /\ fdata (out g4) = (repeat 0 16 ++ [233; 235; 255; 255; 255])%Z.
Proof.
  intro prog. do 5 eexists.
  repeat (split; [vm_compute; reflexivity |]). vm_compute. reflexivity.
Qed.

(** The same invariant fails after every [ORG] with an operand that is
    not the sizer's PC: the sizer gives [ORG] the size 0 and keeps its PC,
    the emitter sets its PC to the operand. *)
Lemma org_moves_only_the_emitter :
  let prog := file_of ["org(0x100)"; "L:"; "jmp(L)"]%string in
  exists g1 g2 gc g3,
    read_src (Some prog) start = Done g1
    /\ pass1 g1 = Done g2
    /\ clone_loop 0 (asm1 g2) g2 = Done gc
    /\ asm_passA g2 = Done g3
    /\ passA_pc_at 1 gc = Done 0%Z
    /\ lbl2 g3 = [{| name := cs "L"; addr := 0%Z |}]
    /\ passB_pc_at 1 g3 = Done 256%Z.
Proof.
  intro prog. do 4 eexists.
  repeat (split; [vm_compute; reflexivity |]). vm_compute. reflexivity.
Qed.

(** C2 (defect of the code). The decimal branch of [parseImm] tests only
    that a digit was converted, not that the operand ends there: [12abc]
    is the value 12 and [0X1F] the value 0, and [db(12abc)] is translated
    to the byte 12. The hexadecimal branch does test the end: [0x1Fzz] and
    [0x] are fatal. *)
Theorem C2_decimal_operand_with_trailing_text_accepted :
  (forall g i, parseImm g (Some (cs "12abc")) i = Done 12%Z)
  /\ (forall g i, parseImm g (Some (cs "0X1F")) i = Done 0%Z)
  /\ out_bin (file_of ["db(12abc)"%string]) = Some [12%Z]
  /\ (forall g i, parseImm g (Some (cs "0x1Fzz")) i
                  = dieAsm g i (MalformedHex (cs "0x1Fzz")))
  /\ (forall g i, parseImm g (Some (cs "0x")) i
                  = dieAsm g i (MalformedHex (cs "0x"))).
Proof.
  repeat split; try (intros g i); reflexivity.
Qed.

(** C8 (defect of the code). [recordLabel] compares the table with the
    name as written and stores its first 15 bytes: a name of 16 bytes
    defined twice is recorded twice under the same 15 bytes, at two
    addresses, and a jump to those 15 bytes takes the first. Names of at
    most 15 bytes are compared as stored: the second [A:] is fatal, at
    its source line. *)
Theorem C8_long_label_recorded_twice :
  let prog := file_of ["ABCDEFGHIJKLMNOP:"; "db(1)"; "ABCDEFGHIJKLMNOP:";
                       "jmp(ABCDEFGHIJKLMNO)"]%string in
  (exists g,
      main (Some prog) = Done g
      /\ lbl2 g = [{| name := cs "ABCDEFGHIJKLMNO"; addr := 0%Z |};
                   {| name := cs "ABCDEFGHIJKLMNO"; addr := 1%Z |}]
      /\ fdata (out g) = [1; 233; 250; 255; 255; 255]%Z)
  /\ main (Some (file_of ["A:"; "A:"]%string))
     = Fatal (DieAt 1 (DuplicateLabel (cs "A"))).
Proof.
  intro prog. split.
  - eexists. split; [vm_compute; reflexivity |]. split; reflexivity.
  - vm_compute. reflexivity.
Qed.

(** A name as it is stored is found again: for names of at most 15 bytes
    the table is write-once. *)
Lemma recordLabel_twice (g g1 : globals) (nm : cstr) (pc pc' : Z) (i j : nat) :
  length nm <= 15 ->
  recordLabel g nm pc i = Done g1 ->
  recordLabel g1 nm pc' j = dieAsm g1 j (DuplicateLabel nm).
Proof.
  intros Hlen H. apply recordLabel_done in H. subst g1.
  unfold recordLabel. cbn [lbl2 set_lbl2].
  rewrite existsb_app. cbn [existsb name].
  rewrite firstn_all2 by exact Hlen. rewrite streq_refl, orb_true_r.
  reflexivity.
Qed.

(** C9 (defect of the code). The ten extension forms store their two
    lines without looking at [al]: with the lowered sequence full, each of
    them writes behind the end of [asm1] and [asmSrcLine], where [load()]
    reports the overflow. A source of 257 lines [fold_mode(1)] fills the
    512 slots with its first 256 lines and overruns them with the last. *)
Theorem C9_extension_forms_overrun_asm1 :
  (forall g i,
      al g = MAXL ->
      Forall (fun l => pass1_line i (cs l) g = Undefined)
        ["fold_mode(1)"; "power_gate(1,2)"; "bist_start(1)"; "smt_weight(1,2)";
         "mme(1,2,3,4,5)"; "patch_bank(1,2)"; "patch_commit(1)";
         "perf_sample(1,2,3)"; "link_config(1)"; "org_set(1)"]%string
      /\ pass1_line i (cs "load()") g = Fatal (DieAt i Asm1Overflow))
  /\ (exists g,
         (g1 <- read_src (Some (concat (repeat (cs "fold_mode(1)" ++ nl) 256)))
                  start ;; pass1 g1) = Done g
         /\ al g = 512)
  /\ main (Some (concat (repeat (cs "fold_mode(1)" ++ nl) 257))) = Undefined.
Proof.
  split; [| split].
  - intros g i Hal.
    assert (Hcap : (MAXL <=? al g)%nat = true) by (rewrite Hal; reflexivity).
    assert (Hcap1 : (MAXL <=? al g + 1)%nat = true)
      by (rewrite Hal; reflexivity).
    split.
    + repeat constructor;
        match goal with
        | |- pass1_line i (cs ?l) g = Undefined =>
            let op := fresh "op" in
            let db := fresh "db" in
            evar (op : cstr); evar (db : cstr);
            transitivity (emit_pair i op db g); subst op db;
            [reflexivity | unfold emit_pair, emit_asm1; rewrite Hcap; reflexivity]
        end.
    + change (pass1_line i (cs "load()") g)
        with (if (MAXL <=? al g + 1)%nat then @dieSrc globals i Asm1Overflow
              else emit_asm1 i (cs "DB 0x8A,0x04") g).
      rewrite Hcap1. reflexivity.
  - eexists. split; vm_compute; reflexivity.
  - vm_compute. reflexivity.
Qed.

End Defects.

(** ** More on [trim] and the loader *)

Section TrimLoader.

Lemma rstrip_split (s : cstr) :
  exists w, s = rstrip s ++ w /\ forallb is_trailing w = true.
Proof.
  induction s as [| c s (w & E & Hw)]; [exists []; split; reflexivity |].
  cbn [rstrip]. destruct (rstrip s) as [| d r] eqn:Er.
  - destruct (is_trailing c) eqn:Ec.
    + exists (c :: s). split; [reflexivity |].
      cbn [forallb]. rewrite Ec. simpl in E. rewrite E. exact Hw.
    + exists s. split; [reflexivity |]. simpl in E. rewrite E. exact Hw.
  - exists w. split; [| exact Hw]. cbn [app]. f_equal. exact E.
Qed.

Lemma rstrip_last (s : cstr) :
  rstrip s <> [] -> is_trailing (last (rstrip s) zero) = false.
Proof.
  induction s as [| c s IH]; [intro H; contradiction H; reflexivity |].
  cbn [rstrip]. destruct (rstrip s) as [| d r] eqn:Er.
  - destruct (is_trailing c) eqn:Ec; [intro H; contradiction H; reflexivity |].
    intros _. exact Ec.
  - intros _. change (last (c :: d :: r) zero) with (last (d :: r) zero).
    apply IH. discriminate.
Qed.

Lemma skip_head (p : ascii -> bool) (s : cstr) (c : ascii) (r : cstr) :
  skip p s = c :: r -> p c = false.
Proof.
  induction s as [| a s IH]; cbn [skip]; [discriminate |].
  destruct (p a) eqn:E; [exact IH |]. intro H. injection H as -> _. exact E.
Qed.

Lemma trim_head (s : cstr) (c : ascii) (r : cstr) :
  trim s = c :: r -> is_blank c = false.
Proof.
  unfold trim. intro H.
  destruct (rstrip_split (skip is_blank s)) as (w & E & _).
  rewrite H in E. cbn [app] in E. apply (skip_head _ _ _ _ E).
Qed.

Lemma trim_app_trailing (s w : cstr) :
  forallb is_trailing w = true -> trim (s ++ w) = trim s.
Proof.
  intro Hw. induction s as [| a s IH].
  - cbn [app]. rewrite trim_trailing by exact Hw. reflexivity.
  - unfold trim in *. cbn [app skip]. destruct (is_blank a); [exact IH |].
    change (a :: s ++ w) with ((a :: s) ++ w).
    apply rstrip_app_trailing, Hw.
Qed.

(** X1. [trim] returns a string that starts with no blank and ends with
    no blank, CR or LF, never longer than its argument; trimming it again
    changes nothing, and the buffer it was cut from is left equal to it. *)
Theorem trim_is_trimmed (s : cstr) :
  (forall c r, trim s = c :: r ->
     is_blank c = false /\ is_trailing (last (c :: r) zero) = false)
  /\ trim (trim s) = trim s
  /\ trim_in_place (trim s) = trim s
  /\ length (trim s) <= length s.
Proof.
  assert (Hlast : is_trailing (last (trim s) zero) = false).
  { destruct (trim s) as [| c r] eqn:E; [reflexivity |].
    rewrite <- E. unfold trim. apply rstrip_last.
    fold (trim s). rewrite E. discriminate. }
  assert (Hskip : skip is_blank (trim s) = trim s).
  { destruct (trim s) as [| c r] eqn:E; [reflexivity |].
    cbn [skip]. rewrite (trim_head _ _ _ E). reflexivity. }
  split; [| split; [| split]].
  - intros c r E. split; [apply (trim_head _ _ _ E) |].
    rewrite <- E. exact Hlast.
  - unfold trim at 1. rewrite Hskip. apply rstrip_keeps, Hlast.
  - apply trim_in_place_keeps, Hlast.
  - apply trim_length.
Qed.

(** *** The loader on a file of text lines *)

Lemma fgets_newline (n : nat) (rest : cstr) :
  fgets (S n) (nl ++ rest) = (nl, rest).
Proof. reflexivity. Qed.

Lemma read_loop_text_line (fuel : nat) (l rest : cstr) (src : list cstr) :
  text_line l ->
  length (l ++ nl ++ rest) <= fuel ->
  read_loop fuel (l ++ nl ++ rest) src
  = (s <- keep_line (trim l) src ;; read_loop (length rest) rest s).
Proof.
  intros (Hlf & Hnul & Hlen) Hfuel.
  assert (Hcs : forall w, forallb not_nul w = true -> c_string (l ++ w) = l ++ w).
  { intros w Hw. unfold c_string. apply span_all.
    rewrite forallb_app, Hnul, Hw. reflexivity. }
  destruct fuel as [| fuel];
    [rewrite !length_app in Hfuel; change (length nl) with 1 in Hfuel; lia |].
  destruct (l ++ nl ++ rest) as [| c f] eqn:E;
    [destruct l; discriminate |].
  rewrite read_loop_step. rewrite <- E.
  assert (Hlenf : length (c :: f) = length l + S (length rest))
    by (rewrite <- E, !length_app; reflexivity).
  rewrite fgets_short by assumption.
  destruct (Nat.eq_dec (length l) 79) as [H79 | H79].
  - rewrite H79, Nat.sub_diag. cbn [fgets fst snd].
    rewrite (Hcs [] eq_refl), app_nil_r.
    destruct (keep_line (trim l) src) as [s | d |]; cbn [bind]; try reflexivity.
    rewrite (read_loop_fuel fuel (S (length rest))) by (cbn [length] in *; simpl; lia || (change (length (nl ++ rest)) with (S (length rest)); lia)).
    change (nl ++ rest) with (ascii_of_nat 10 :: rest).
    rewrite read_loop_step.
    change (fgets 79 (ascii_of_nat 10 :: rest)) with (nl, rest).
    cbn [fst snd]. change (keep_line (trim (c_string nl)) s) with (Done s).
    reflexivity.
  - replace (79 - length l) with (S (78 - length l)) by lia.
    rewrite fgets_newline. cbn [fst snd].
    rewrite (Hcs nl eq_refl). rewrite trim_app_trailing by reflexivity.
    destruct (keep_line (trim l) src) as [s | d |]; cbn [bind]; try reflexivity.
    apply read_loop_fuel; cbn [length] in *; lia.
Qed.

Lemma keep_line_retained (t : cstr) (src : list cstr) :
  keep_line t src
  = if retained t
    then (if (MAXL <=? length src)%nat then Fatal (Die TooManySourceLines)
          else Done (src ++ [t]))
    else Done src.
Proof.
  unfold keep_line, retained. destruct t as [| c t]; [reflexivity |].
  destruct (is_char 59 c); reflexivity.
Qed.

Lemma read_loop_text_file (raws : list cstr) (src : list cstr) :
  Forall text_line raws ->
  length src <= MAXL ->
  read_loop (length (file_of_raw raws)) (file_of_raw raws) src
  = if (length src + length (filter retained (map trim raws)) <=? MAXL)%nat
    then Done (src ++ filter retained (map trim raws))
    else Fatal (Die TooManySourceLines).
Proof.
  intro H; revert src; induction H as [| l raws Hl _ IH]; intros src Hsrc.
  - cbn [file_of_raw map concat filter length read_loop].
    rewrite Nat.add_0_r, app_nil_r.
    replace (length src <=? MAXL)%nat with true
      by (symmetry; apply Nat.leb_le; exact Hsrc).
    reflexivity.
  - change (file_of_raw (l :: raws)) with ((l ++ nl) ++ file_of_raw raws).
    rewrite <- app_assoc.
    rewrite read_loop_text_line by (exact Hl || lia).
    rewrite keep_line_retained. cbn [map filter].
    destruct (retained (trim l)).
    + destruct (MAXL <=? length src)%nat eqn:Efull.
      * apply Nat.leb_le in Efull. cbn [bind length].
        replace (length src + S _ <=? MAXL)%nat with false
          by (symmetry; apply Nat.leb_gt; lia).
        reflexivity.
      * apply Nat.leb_gt in Efull. cbn [bind]. rewrite IH
          by (rewrite length_app; cbn [length]; lia).
        rewrite length_app, <- app_assoc. cbn [length app].
        replace (length src + 1 + length (filter retained (map trim raws)))
          with (length src + S (length (filter retained (map trim raws))))
          by lia.
        reflexivity.
    + cbn [bind]. apply IH, Hsrc.
Qed.

(** X2. On a file of text lines (no NUL, at most 79 bytes each, each
    ended by LF) the loader keeps, in order, the trimmed lines that are
    neither empty nor start with a semicolon; with more than 512 of them
    it ends in the fatal "too many source lines". *)
Theorem read_src_text_file (raws : list cstr) :
  Forall text_line raws ->
  read_src (Some (file_of_raw raws)) start
  = if (length (filter retained (map trim raws)) <=? MAXL)%nat
    then Done (set_src (filter retained (map trim raws)) start)
    else Fatal (Die TooManySourceLines).
Proof.
  intro H. unfold read_src.
  change (src start) with (@nil cstr).
  rewrite read_loop_text_file by (exact H || (cbn; lia)).
  cbn [length app Nat.add].
  destruct (_ <=? MAXL)%nat; reflexivity.
Qed.

Lemma read_src_text_file_witness :
  read_src (Some (file_of_raw [cs "  db(1) "; cs "; note"; cs ""; cs "L:"]))
    start
  = Done (set_src [cs "db(1)"; cs "L:"] start).
Proof.
  apply (read_src_text_file [cs "  db(1) "; cs "; note"; cs ""; cs "L:"]).
  repeat constructor; vm_compute; lia.
Defined.

End TrimLoader.

(** ** The label table *)

Section Labels.

Lemma find_app_none {A : Type} (p : A -> bool) (l1 l2 : list A) :
  existsb p l1 = false -> find p (l1 ++ l2) = find p l2.
Proof.
  induction l1 as [| a l1 IH]; [reflexivity |].
  cbn [existsb app find]. intro H. apply orb_false_iff in H as [Ha Hl].
  rewrite Ha. apply IH, Hl.
Qed.

Lemma find_app_some {A : Type} (p : A -> bool) (l1 l2 : list A) (x : A) :
  find p l1 = Some x -> find p (l1 ++ l2) = Some x.
Proof.
  induction l1 as [| a l1 IH]; [discriminate |].
  cbn [app find]. destruct (p a); [auto | exact IH].
Qed.

Lemma lbl2_set_lbl2 (t : list Label) (g : globals) : lbl2 (set_lbl2 t g) = t.
Proof. reflexivity. Qed.

Lemma find_lbl_done (g : globals) (nm : cstr) (j : nat) (a : Z) :
  find_lbl g (Some nm) j = Done a ->
  exists l, find (fun l => streq (name l) nm) (lbl2 g) = Some l /\ addr l = a.
Proof.
  unfold find_lbl. destruct (find _ (lbl2 g)) as [l |].
  - intro H. injection H as <-. exists l. auto.
  - intro H. destruct (dieAsm_not_done _ _ _ _ H).
Qed.

(** X3. Insert and look up: when [recordLabel] returns for a name of at
    most 15 bytes, [find_lbl] finds that name at the recorded PC, every
    label found before is still found at its address, and the table has
    one more entry and at most 128. *)
Theorem recordLabel_find_lbl
  (g g' : globals) (nm : cstr) (pc : Z) (i : nat) :
  length nm <= 15 ->
  recordLabel g nm pc i = Done g' ->
  (forall j, find_lbl g' (Some nm) j = Done pc)
  /\ (forall x a j, find_lbl g (Some x) j = Done a ->
                    find_lbl g' (Some x) j = Done a)
  /\ nl2 g' = S (nl2 g) /\ nl2 g' <= MAXLB.
Proof.
  intros Hlen H. pose proof (recordLabel_done _ _ _ _ _ H) as E.
  unfold recordLabel in H.
  destruct (existsb _ (lbl2 g)) eqn:Eex;
    [destruct (dieAsm_not_done _ _ _ _ H) |].
  destruct (MAXLB <=? nl2 g)%nat eqn:Ecap;
    [destruct (dieAsm_not_done _ _ _ _ H) |].
  clear H. subst g'. apply Nat.leb_gt in Ecap.
  split; [| split; [| split]].
  - intro j. unfold find_lbl. rewrite lbl2_set_lbl2.
    rewrite firstn_all2 by exact Hlen.
    rewrite find_app_none by exact Eex. cbn [find name].
    rewrite streq_refl. reflexivity.
  - intros x a j Hx. apply find_lbl_done in Hx as (l & Hl & <-).
    unfold find_lbl. rewrite lbl2_set_lbl2.
    rewrite (find_app_some _ _ _ _ Hl). reflexivity.
  - unfold nl2. rewrite lbl2_set_lbl2, length_app. cbn [length]. lia.
  - unfold nl2 in *. rewrite lbl2_set_lbl2, length_app. cbn [length]. lia.
Qed.

Lemma recordLabel_find_lbl_witness :
  let g' := set_lbl2 [{| name := cs "loop"; addr := 7%Z |}] start in
  recordLabel start (cs "loop") 7%Z 0 = Done g'
  /\ find_lbl g' (Some (cs "loop")) 0 = Done 7%Z.
Proof.
  intro g'. split; [reflexivity |].
  destruct (recordLabel_find_lbl start g' (cs "loop") 7%Z 0) as [H _].
  - vm_compute. lia.
  - reflexivity.
  - apply H.
Defined.

Lemma filter_none {A : Type} (p : A -> bool) (l : list A) :
  existsb p l = false -> filter p l = [].
Proof.
  induction l as [| a l IH]; [reflexivity |].
  cbn [existsb filter]. intro H. apply orb_false_iff in H as [-> Hl].
  apply IH, Hl.
Qed.

Lemma recordLabel_table_ok (g g' : globals) (nm : cstr) (pc : Z) (i : nat) :
  table_ok (lbl2 g) -> recordLabel g nm pc i = Done g' -> table_ok (lbl2 g').
Proof.
  intros (Hcap & Hlen & Huniq) H.
  pose proof (recordLabel_done _ _ _ _ _ H) as E. unfold recordLabel in H.
  destruct (existsb _ (lbl2 g)) eqn:Eex;
    [destruct (dieAsm_not_done _ _ _ _ H) |].
  destruct (MAXLB <=? nl2 g)%nat eqn:Ecap;
    [destruct (dieAsm_not_done _ _ _ _ H) |].
  clear H. subst g'. apply Nat.leb_gt in Ecap. unfold nl2 in Ecap.
  rewrite lbl2_set_lbl2. split; [| split].
  - rewrite length_app. cbn [length]. lia.
  - apply Forall_app. split; [exact Hlen |].
    constructor; [| constructor]. cbn [name]. rewrite length_firstn. lia.
  - intros x Hx. rewrite filter_app, length_app. cbn [filter name].
    destruct (streq (firstn 15 nm) x) eqn:Es; [| specialize (Huniq x Hx);
      cbn [length]; lia].
    apply streq_eq in Es.
    assert (Hnm : length nm < 15).
    { rewrite <- Es in Hx. rewrite length_firstn in Hx. lia. }
    rewrite firstn_all2 in Es by lia. subst x.
    rewrite (filter_none _ _ Eex). cbn [length]. lia.
Qed.

Lemma label_loop_table_ok (n i : nat) (pc pc' : Z) (g g' : globals) :
  table_ok (lbl2 g) ->
  label_loop n i pc g = Done (pc', g') ->
  table_ok (lbl2 g').
Proof.
  revert i pc g; induction n as [| n IH]; intros i pc g Hok H;
    cbn [label_loop] in H.
  - injection H as <- <-. exact Hok.
  - destruct (tokens (trim (nth i (lines2 g) []))) as [| tok args].
    + apply IH in H; [exact H | exact Hok].
    + destruct (ends_with 58 tok).
      * apply bind_done in H as (g2 & H2 & H3).
        apply recordLabel_table_ok in H2; [| exact Hok].
        apply IH in H3; [exact H3 | exact H2].
      * apply bind_done in H as (sz & _ & H3).
        apply IH in H3; [exact H3 | exact Hok].
Qed.

(** X4. The table [asm_passA] builds from an empty one holds at most 128
    labels, each name of at most 15 bytes, and a name shorter than 15
    bytes at most once; a name longer than 15 bytes is never found in it:
    a reference by such a name ends in "undefined label". *)
Theorem asm_passA_label_table (g g' : globals) :
  lbl2 g = [] ->
  asm_passA g = Done g' ->
  table_ok (lbl2 g')
  /\ (forall nm j, 15 < length nm ->
        find_lbl g' (Some nm) j = dieAsm g' j (UndefinedLabel nm)).
Proof.
  intros Hempty H. unfold asm_passA in H.
  apply bind_done in H as (gc & Hc & H).
  apply bind_done in H as ([pc r] & Hr & H). injection H as <-.
  apply clone_loop_done in Hc as (_ & _ & _ & _ & _ & Hl & _).
  assert (Hok : table_ok (lbl2 r)).
  { eapply label_loop_table_ok; [| exact Hr]. rewrite Hl, Hempty.
    split; [cbn; unfold MAXLB; lia | split; [constructor |]].
    intros nm _. cbn. lia. }
  split; [exact Hok |].
  intros nm j Hlong. unfold find_lbl.
  destruct (find _ (lbl2 r)) as [l |] eqn:Ef; [| reflexivity].
  apply find_some in Ef as [Hin Es]. apply streq_eq in Es.
  destruct Hok as (_ & Hlen & _). rewrite Forall_forall in Hlen.
  specialize (Hlen l Hin). rewrite Es in Hlen. lia.
Qed.

Lemma asm_passA_label_table_witness :
  let g := set_asm1 [cs "ABCDEFGHIJKLMNOP:"] [0] start in
  exists g',
    asm_passA g = Done g'
    /\ find_lbl g' (Some (cs "ABCDEFGHIJKLMNOP")) 0
       = Fatal (DieAt 0 (UndefinedLabel (cs "ABCDEFGHIJKLMNOP"))).
Proof.
  intro g. eexists. split; [vm_compute; reflexivity |].
  match goal with
  | |- find_lbl ?g' _ _ = _ =>
      destruct (asm_passA_label_table g g' eq_refl) as [_ H];
        [vm_compute; reflexivity | rewrite H by (vm_compute; lia)]
  end.
  reflexivity.
Defined.

End Labels.

(** ** Diagnostics *)

Section Diagnostics.

Lemma dieAsm_fatal {A : Type} (g : globals) (i : nat) (m : message) (d : diag) :
  @dieAsm A g i m = Fatal d -> d = DieAt (prov g i) m.
Proof.
  unfold dieAsm, read_index, prov.
  destruct (i <? MAXL)%nat; [| discriminate].
  destruct (nth i (lines2AsmIdx g) 0 <? MAXL)%nat; [| discriminate].
  intro H. injection H as <-. reflexivity.
Qed.

Lemma parseImm_fatal (g : globals) (s : option cstr) (i : nat) (d : diag) :
  parseImm g s i = Fatal d -> exists m, d = DieAt (prov g i) m.
Proof.
  unfold parseImm. destruct s as [s |]; [| discriminate].
  destruct (starts_with (cs "0x") s).
  - destruct (strtoul (skipn 2 s) 16) as [[v [| c r]] |]; try discriminate;
      intro H; apply dieAsm_fatal in H; eauto.
  - destruct (strtoul s 10) as [[v r] |]; [discriminate |].
    intro H. apply dieAsm_fatal in H. eauto.
Qed.

Lemma find_lbl_fatal (g : globals) (nm : option cstr) (i : nat) (d : diag) :
  find_lbl g nm i = Fatal d -> exists m, d = DieAt (prov g i) m.
Proof.
  unfold find_lbl. destruct nm as [nm |]; [| discriminate].
  destruct (find _ (lbl2 g)); [discriminate |].
  intro H. apply dieAsm_fatal in H. eauto.
Qed.

Lemma set_out_same (g : globals) : set_out (out g) g = g.
Proof. destruct g. reflexivity. Qed.

Lemma db_loop_result (args : list cstr) (i : nat) (pc : Z) (g : globals) :
  match db_loop i args pc g with
  | Done (_, g') => exists f, g' = set_out f g
  | Fatal d => exists m, d = DieAt (prov g i) m
  | Undefined => True
  end.
Proof.
  revert pc g; induction args as [| v args IH]; intros pc g; cbn [db_loop].
  - exists (out g). symmetry. apply set_out_same.
  - destruct (parseImm g (Some v) i) as [b | d |] eqn:Ep; cbn [bind].
    + destruct (255 <? b)%Z.
      * destruct (dieAsm g i (DBByteOutOfRange b)) as [[? ?] | d |] eqn:Ed;
          [destruct (dieAsm_not_done _ _ _ _ Ed) | | exact I].
        apply dieAsm_fatal in Ed. eauto.
      * specialize (IH (to_uint32 (pc + 1)) (set_out (e8 b (out g)) g)).
        destruct (db_loop i args _ _) as [[pc' g'] | d |]; [| exact IH | exact I].
        destruct IH as (f & ->). exists f. reflexivity.
    + apply parseImm_fatal in Ep. exact Ep.
    + exact I.
Qed.

Ltac emitter_case :=
  match goal with
  | |- match (if ?b then _ else _) with _ => _ end => destruct b
  | |- match bind ?m _ with _ => _ end =>
      let E := fresh "E" in
      destruct m as [? | ? |] eqn:E; cbn [bind];
      [ | first [ apply parseImm_fatal in E | apply find_lbl_fatal in E ];
          exact E
        | exact I ]
  | |- match dieAsm ?g ?i ?m with _ => _ end =>
      let E := fresh "E" in
      destruct (dieAsm g i m) as [[? ?] | ? |] eqn:E;
      [ destruct (dieAsm_not_done _ _ _ _ E)
      | apply dieAsm_fatal in E; eauto
      | exact I ]
  | |- match (match ?o with Some _ => _ | None => _ end) with _ => _ end =>
      destruct o as [? |]
  | |- match (let '(_, _) := ?p in _) with _ => _ end => destruct p
  | |- match Done (_, set_out ?f _) with _ => _ end => exists f; reflexivity
  | |- exists f, set_out ?x _ = set_out f _ => exists x; reflexivity
  | |- match Undefined with _ => _ end => exact I
  end.

(** One line of the emitter changes nothing but the output file, and a
    diagnostic it ends in cites the source line of that assembler line. *)
Lemma passB_line_result (i : nat) (ln : cstr) (pc : Z) (g : globals) :
  match passB_line i ln pc g with
  | Done (_, g') => exists f, g' = set_out f g
  | Fatal d => exists m, d = DieAt (prov g i) m
  | Undefined => True
  end.
Proof.
  unfold passB_line.
  destruct (tokens ln) as [| tok args];
    [exists (out g); symmetry; apply set_out_same |].
  destruct (streq tok (cs "ORG")); [repeat emitter_case |].
  destruct (streq tok (cs "DB")); [apply db_loop_result |].
  destruct (streq tok (cs "FILL")); [repeat emitter_case |].
  destruct (streq tok (cs "INT")); [repeat emitter_case |].
  destruct (streq tok (cs "JMP") || streq tok (cs "CALL"));
    [repeat emitter_case |].
  destruct (streq tok (cs "LJMP")).
  { destruct (nth_error args 0) as [p |]; [| exact I].
    destruct (strchr ":" p) as [[p' sg] |]; [| exact I].
    repeat emitter_case. }
  destruct (ends_with 58 tok);
    [exists (out g); symmetry; apply set_out_same |].
  emitter_case.
Qed.

Lemma passB_loop_result (n i : nat) (pc : Z) (g : globals) :
  match passB_loop n i pc g with
  | Done (_, g') => exists f, g' = set_out f g
  | Fatal d => exists k m, i <= k < i + n /\ d = DieAt (prov g k) m
  | Undefined => True
  end.
Proof.
  revert i pc g; induction n as [| n IH]; intros i pc g; cbn [passB_loop].
  - exists (out g). symmetry. apply set_out_same.
  - pose proof (passB_line_result i (nth i (lines2 g) []) pc g) as Hl.
    destruct (passB_line i _ pc g) as [[pc1 g1] | d |]; cbn [bind fst snd].
    + destruct Hl as (f1 & ->).
      specialize (IH (S i) pc1 (set_out f1 g)).
      destruct (passB_loop n (S i) pc1 _) as [[pc2 g2] | d |].
      * destruct IH as (f2 & ->). exists f2. reflexivity.
      * destruct IH as (k & m & Hk & ->). exists k, m. split; [lia |].
        reflexivity.
      * exact I.
    + destruct Hl as (m & ->). exists i, m. split; [lia | reflexivity].
    + exact I.
Qed.









End Diagnostics.

(** ** Label stability *)

Section Stability.

Lemma label_loop_split (n m i : nat) (pc : Z) (g : globals) :
  label_loop (n + m) i pc g
  = (r <- label_loop n i pc g ;; label_loop m (i + n) (fst r) (snd r)).
Proof.
  revert i pc g; induction n as [| n IH]; intros i pc g.
  - cbn [Nat.add label_loop bind fst snd]. rewrite Nat.add_0_r. reflexivity.
  - cbn [Nat.add label_loop].
    replace (i + S n) with (S i + n) by lia.
    destruct (tokens (trim (nth i (lines2 g) []))) as [| tok args];
      [apply IH |].
    destruct (ends_with 58 tok).
    + destruct (recordLabel _ _ pc i); cbn [bind]; [apply IH | |]; reflexivity.
    + destruct (line_sz _); cbn [bind]; [apply IH | |]; reflexivity.
Qed.

Lemma passB_loop_split (n m i : nat) (pc : Z) (g : globals) :
  passB_loop (n + m) i pc g
  = (r <- passB_loop n i pc g ;; passB_loop m (i + n) (fst r) (snd r)).
Proof.
  revert i pc g; induction n as [| n IH]; intros i pc g.
  - cbn [Nat.add passB_loop bind fst snd]. rewrite Nat.add_0_r. reflexivity.
  - cbn [Nat.add passB_loop].
    replace (i + S n) with (S i + n) by lia.
    destruct (passB_line i _ pc g) as [[pc1 g1] | d |]; cbn [bind fst snd];
      [apply IH | |]; reflexivity.
Qed.

Lemma label_loop_labels_grow (n i : nat) (pc pc' : Z) (g g' : globals) :
  label_loop n i pc g = Done (pc', g') ->
  exists more, lbl2 g' = lbl2 g ++ more.
Proof.
  revert i pc g; induction n as [| n IH]; intros i pc g H;
    cbn [label_loop] in H.
  - injection H as <- <-. exists []. symmetry. apply app_nil_r.
  - destruct (tokens (trim (nth i (lines2 g) []))) as [| tok args].
    + apply IH in H. exact H.
    + destruct (ends_with 58 tok).
      * apply bind_done in H as (g2 & H2 & H3).
        apply recordLabel_done in H2. subst g2.
        apply IH in H3 as (more & E). rewrite lbl2_set_lbl2 in E.
        cbn [lbl2 set_lines2] in E. rewrite <- app_assoc in E. eauto.
      * apply bind_done in H as (sz & _ & H3). apply IH in H3. exact H3.
Qed.

Lemma tokens_blanks (b s : cstr) :
  forallb is_blank b = true -> tokens (b ++ s) = tokens s.
Proof.
  intro H. induction b as [| c b IH]; [reflexivity |].
  cbn [forallb] in H. apply andb_prop in H as [Hc Hb].
  unfold tokens in *. cbn [app tokens_from].
  replace (is_delim c) with true; [apply IH, Hb |].
  unfold is_blank in Hc. unfold is_delim.
  apply orb_prop in Hc as [-> | ->]; [reflexivity |].
  rewrite orb_true_r. reflexivity.
Qed.

Lemma span_forall (p : ascii -> bool) (s : cstr) : forallb p (span p s) = true.
Proof.
  induction s as [| c s IH]; [reflexivity |]. cbn [span].
  destruct (p c) eqn:E; [| reflexivity]. cbn [forallb]. rewrite E. exact IH.
Qed.

(** The first loop of the sizer and the emitter split a line into the
    same tokens: [trim] drops and leaves behind only delimiters. *)
Lemma tokens_trim_in_place (s : cstr) :
  tokens (trim_in_place s) = tokens (trim s).
Proof. unfold trim_in_place. apply tokens_blanks, span_forall. Qed.

Lemma label_loop_prefix (n m i : nat) (pc : Z) (g : globals) (r : Z * globals) :
  label_loop (n + m) i pc g = Done r ->
  exists pc1 g1,
    label_loop n i pc g = Done (pc1, g1)
    /\ label_loop m (i + n) pc1 g1 = Done r.
Proof.
  rewrite label_loop_split. intro H.
  apply bind_done in H as ([pc1 g1] & H1 & H2). eauto.
Qed.

(** The step of the induction: with the two loops at line [k] and the
    same PC, they leave it with the same PC, and a label defined on the
    line is recorded at that PC. *)
Lemma stability_step
  (k : nat) (pc pcA pcB : Z) (gk gA gB gB' : globals) (raw : cstr) :
  (0 <= pc < 2 ^ 32)%Z ->
  k < length (lines2 gk) ->
  nth k (lines2 gk) [] = raw ->
  nth k (lines2 gB) [] = trim_in_place raw ->
  plain_line (trim_in_place raw) = true ->
  label_loop 1 k pc gk = Done (pcA, gA) ->
  passB_line k (nth k (lines2 gB) []) pc gB = Done (pcB, gB') ->
  pcA = pcB /\ (0 <= pcB < 2 ^ 32)%Z
  /\ (forall tok rest,
        tokens (trim_in_place raw) = tok :: rest -> ends_with 58 tok = true ->
        exists more,
          lbl2 gA
          = lbl2 gk ++ {| name := firstn 15 (removelast tok); addr := pc |} :: more).
Proof.
  intros Hpc Hk Hraw HB Hplain HA Hline.
  cbn [label_loop] in HA. rewrite Hraw in HA. rewrite HB in Hline.
  rewrite <- tokens_trim_in_place in HA. unfold plain_line in Hplain.
  destruct (tokens (trim_in_place raw)) as [| tok args] eqn:Etok.
  - injection HA as <- _. unfold passB_line in Hline. rewrite Etok in Hline.
    injection Hline as <- _. repeat split; try lia. intros; discriminate.
  - apply andb_prop in Hplain as [Ho Hf].
    apply negb_true_iff in Ho. apply negb_true_iff in Hf.
    destruct (passB_line_advance _ _ _ _ _ _ _ _ Hpc Etok Ho Hf Hline)
      as (sz & Hsz & ->).
    destruct (ends_with 58 tok) eqn:Elab.
    + apply bind_done in HA as (g2 & H2 & H3). cbv beta in H3.
      injection H3 as E1 E2. subst pcA gA.
      apply recordLabel_done in H2. subst g2.
      unfold line_sz in Hsz. rewrite Etok, Elab in Hsz. injection Hsz as <-.
      rewrite Z.add_0_r, to_uint32_small by exact Hpc.
      repeat split; try lia.
      intros tok' rest' E _. injection E as <- <-.
      exists []. rewrite lbl2_set_lbl2. reflexivity.
    + apply bind_done in HA as (sz' & H2 & H3). cbv beta in H3.
      injection H3 as E1 _. subst pcA.
      cbn [lines2 set_lines2] in H2.
      rewrite nth_list_set in H2 by exact Hk. rewrite Nat.eqb_refl in H2.
      rewrite Hsz in H2. injection H2 as <-.
      split; [reflexivity |]. split; [apply to_uint32_range |].
      intros tok' rest' E Hl. injection E as <- <-. congruence.
Qed.

(** X6. Label stability where it holds. For an accepted sequence of
    assembler lines none of which is an [ORG] or a [FILL] line, the sizer
    and the emitter reach every line with the same PC, and a label defined
    on a line is in the table at the PC the emitter has there. *)
Theorem label_stability_without_org_fill (g g3 : globals) :
  lines2 g = [] -> lines2AsmIdx g = [] ->
  asm_passA g = Done g3 ->
  forallb plain_line (lines2 g3) = true ->
  exists gc,
    clone_loop 0 (asm1 g) g = Done gc
    /\ forall k pcB gB,
        k <= ln2 g3 ->
        passB_loop k 0 0%Z (set_out fopen_wb g3) = Done (pcB, gB) ->
        passA_pc_at k gc = Done pcB
        /\ (forall tok rest,
              k < ln2 g3 ->
              tokens (nth k (lines2 g3) []) = tok :: rest ->
              ends_with 58 tok = true ->
              In {| name := firstn 15 (removelast tok); addr := pcB |}
                (lbl2 g3)).
Proof.
  intros Hl Hx H Hplain. unfold asm_passA in H.
  apply bind_done in H as (gc & Hc & H).
  apply bind_done in H as ([pcF r] & Hr & H). cbn [snd] in H.
  injection H as <-. exists gc. split; [exact Hc |].
  pose proof (label_loop_done _ _ _ _ _ _ Hr) as (L1 & L2 & _).
  set (N := ln2 gc) in *.
  assert (HN : ln2 r = N) by (unfold N, ln2; exact L1).
  assert (Hline : forall k, k < N ->
            nth k (lines2 r) [] = trim_in_place (nth k (lines2 gc) [])).
  { intros k Hk. rewrite L2. cbn [Nat.leb Nat.add andb].
    fold (ln2 gc). fold N.
    replace (k <? N) with true by (symmetry; apply Nat.ltb_lt; exact Hk).
    reflexivity. }
  assert (Hcore : forall k, k <= N -> forall pcB gB,
            passB_loop k 0 0%Z (set_out fopen_wb r) = Done (pcB, gB) ->
            (0 <= pcB < 2 ^ 32)%Z
            /\ exists gk, label_loop k 0 0%Z gc = Done (pcB, gk)).
  { induction k as [| k IH]; intros Hk pcB gB HB.
    - cbn [passB_loop] in HB. injection HB as <- _.
      split; [lia |]. exists gc. reflexivity.
    - replace (S k) with (k + 1) in HB |- * by lia.
      rewrite passB_loop_split in HB.
      apply bind_done in HB as ([pc1 g1] & HB1 & HB2). cbn [fst snd] in HB2.
      destruct (IH ltac:(lia) _ _ HB1) as (Hpc1 & gk & HA1).
      cbn [passB_loop Nat.add] in HB2.
      apply bind_done in HB2 as ([pc2 g2] & HB2 & E). injection E as <- _.
      pose proof (passB_loop_result k 0 0 (set_out fopen_wb r)) as Hres.
      rewrite HB1 in Hres. destruct Hres as (f & ->).
      replace N with ((k + 1) + (N - (k + 1))) in Hr by lia.
      apply label_loop_prefix in Hr as (pcA & gA & HA & _).
      rewrite label_loop_split, HA1 in HA. cbn [bind fst snd Nat.add] in HA.
      pose proof (label_loop_done _ _ _ _ _ _ HA1) as (K1 & K2 & _).
      assert (Hraw : nth k (lines2 gk) [] = nth k (lines2 gc) []).
      { rewrite K2. cbn [Nat.leb Nat.add andb]. rewrite Nat.ltb_irrefl.
        reflexivity. }
      destruct (stability_step k pc1 pcA pc2 gk gA (set_out f r) g2
                  (nth k (lines2 gc) [])) as (E & Hrange & _);
        try assumption.
      + unfold N, ln2 in Hk. lia.
      + cbn [lines2 set_out]. apply Hline. lia.
      + rewrite <- Hline by lia. rewrite forallb_forall in Hplain.
        apply Hplain, nth_In. unfold ln2 in HN. lia.
      + subst pcA. split; [exact Hrange |]. exists gA.
        rewrite label_loop_split, HA1. exact HA. }
  intros k pcB gB Hk HB. rewrite HN in Hk.
  destruct (Hcore k Hk pcB gB HB) as (Hpc & gk & HA).
  split; [unfold passA_pc_at; rewrite HA; reflexivity |].
  intros tok rest Hlt Htok Hlab. rewrite HN in Hlt.
  pose proof (passB_loop_result k 0 0 (set_out fopen_wb r)) as Hres.
  rewrite HB in Hres. destruct Hres as (f & ->).
  pose proof Hr as Hr'.
  replace N with ((k + 1) + (N - (k + 1))) in Hr' by lia.
  apply label_loop_prefix in Hr' as (pcA & gA & HA' & Hrest).
  rewrite label_loop_split, HA in HA'. cbn [bind fst snd Nat.add] in HA'.
  pose proof (label_loop_done _ _ _ _ _ _ HA) as (K1 & K2 & _).
  assert (Hraw : nth k (lines2 gk) [] = nth k (lines2 gc) []).
  { rewrite K2. cbn [Nat.leb Nat.add andb]. rewrite Nat.ltb_irrefl.
    reflexivity. }
  rewrite Hline in Htok by exact Hlt.
  cbn [label_loop] in HA'. rewrite Hraw, <- tokens_trim_in_place, Htok, Hlab
    in HA'.
  apply bind_done in HA' as (g2 & H2 & H3). cbv beta in H3.
  injection H3 as _ E2. subst gA.
  apply recordLabel_done in H2. subst g2.
  apply label_loop_labels_grow in Hrest as (more & ->).
  rewrite lbl2_set_lbl2. apply in_or_app. left. apply in_or_app. right.
  left. reflexivity.
Qed.

Lemma label_stability_without_org_fill_witness :
  let g := set_asm1 [cs "DB 1,2"; cs "L:"; cs "JMP L"] [0; 1; 2] start in
  exists g3 gc,
    asm_passA g = Done g3
    /\ clone_loop 0 (asm1 g) g = Done gc
    /\ passA_pc_at 1 gc = Done 2%Z
    /\ In {| name := cs "L"; addr := 2%Z |} (lbl2 g3).
Proof.
  intro g.
  destruct (asm_passA g) as [g3 | |] eqn:E; try (vm_compute in E; discriminate).
  destruct (label_stability_without_org_fill g g3 eq_refl eq_refl E)
    as (gc & Hc & H).
  - vm_compute in E. injection E as <-. reflexivity.
  - exists g3, gc. split; [reflexivity |]. split; [exact Hc |].
    assert (HB : passB_loop 1 0 0%Z (set_out fopen_wb g3)
                 = Done (2%Z, set_out (write_bytes [1; 2]%Z fopen_wb) g3)).
    { vm_compute in E. injection E as <-. reflexivity. }
    destruct (H 1 _ _ ltac:(vm_compute in E; injection E as <-; vm_compute; lia)
                HB) as (H1 & H2).
    split; [exact H1 |].
    apply (H2 (cs "L:") []).
    + vm_compute in E. injection E as <-. vm_compute. lia.
    + vm_compute in E. injection E as <-. reflexivity.
    + reflexivity.
Defined.

End Stability.

(** ** The rewrite rules of the lowerer *)

Section Rules.

Lemma tolower_blank (c : ascii) : is_blank c = is_blank (tolower c).
Proof. destruct c as [[] [] [] [] [] [] [] []]; reflexivity. Qed.

Lemma skipn_exact {A : Type} (n : nat) (p q : list A) :
  length p = n -> skipn n (p ++ q) = q.
Proof.
  intros <-. induction p as [| a p IH]; [reflexivity | exact IH].
Qed.

(** What the tests of a rule see of a line [p payload )] whose prefix [p]
    is the rule's name in any case. *)
Lemma form_line (p payload form : cstr) :
  map tolower p = form -> form <> [] ->
  hd zero form <> " "%char -> hd zero form <> ascii_of_nat 9 ->
  let line := p ++ payload ++ cs ")" in
  trim line = line
  /\ ends_with 41 line = true
  /\ removelast line = p ++ payload
  /\ map tolower line = form ++ map tolower (payload ++ cs ")")
  /\ length p = length form.
Proof.
  intros Hp Hne Hsp Htab line.
  assert (Hlen : length p = length form)
    by (rewrite <- Hp; symmetry; apply length_map).
  split; [| split; [| split; [| split]]].
  - destruct p as [| c p']; [subst form; contradiction Hne; reflexivity |].
    assert (Hc : is_blank c = false).
    { rewrite tolower_blank. subst form. cbn [map hd] in Hsp, Htab.
      unfold is_blank, is_char.
      destruct (code (tolower c) =? 32)%Z eqn:E1.
      - apply Z.eqb_eq in E1. contradiction Hsp.
        rewrite <- (ascii_N_embedding (tolower c)). unfold code in E1.
        replace (N_of_ascii (tolower c)) with 32%N by lia. reflexivity.
      - destruct (code (tolower c) =? 9)%Z eqn:E2; [| reflexivity].
        apply Z.eqb_eq in E2. contradiction Htab.
        rewrite <- (ascii_N_embedding (tolower c)). unfold code in E2.
        replace (N_of_ascii (tolower c)) with 9%N by lia. reflexivity. }
    pose proof (trim_core c ")" (p' ++ payload) [] Hc eq_refl eq_refl) as H.
    rewrite app_nil_r in H. unfold line. cbn [app cs list_ascii_of_string].
    rewrite <- app_assoc in H. exact H.
  - unfold line. rewrite app_assoc. apply ends_with_snoc.
  - unfold line. rewrite app_assoc. apply removelast_last.
  - unfold line. rewrite map_app, Hp. reflexivity.
  - exact Hlen.
Qed.

(** X7. The six one-line surface forms: a line that is the form's name
    in any case, a payload and a closing parenthesis is lowered to one
    line, the mnemonic and the payload as written, with the source line as
    its provenance (whenever the lowered sequence has a free slot). *)
Theorem pass1_one_line_forms
  (i : nat) (p payload : cstr) (form mn : string) (g : globals) :
  In (form, mn) one_line_forms ->
  map tolower p = cs form ->
  al g < MAXL ->
  pass1_line i (p ++ payload ++ cs ")") g
  = Done (set_asm1 (asm1 g ++ [cs mn ++ payload]) (asmSrcLine g ++ [i]) g).
Proof.
  intros Hin Hp Hal.
  assert (Hcap : (MAXL <=? al g)%nat = false) by (apply Nat.leb_gt, Hal).
  unfold one_line_forms in Hin.
  repeat (destruct Hin as [E | Hin];
    [ injection E as <- <-;
      destruct (form_line p payload _ Hp ltac:(discriminate)
                  ltac:(vm_compute; discriminate)
                  ltac:(vm_compute; discriminate)) as (Ht & He & Hr & Hl & Hn);
      unfold pass1_line; rewrite Ht, He, Hr, Hl;
      cbn [cs list_ascii_of_string app starts_with Ascii.eqb Bool.eqb andb];
      cbn [cs list_ascii_of_string length] in Hn;
      rewrite (skipn_exact _ p payload Hn);
      unfold pass1_rest;
      cbn [cs list_ascii_of_string app streq starts_with Ascii.eqb Bool.eqb
           andb];
      rewrite Hcap; unfold emit_asm1; rewrite Hcap; reflexivity
    | ]).
  destruct Hin.
Qed.

Lemma pass1_one_line_forms_witness :
  pass1_line 3 (cs "Jmp(" ++ cs "Loop" ++ cs ")") start
  = Done (set_asm1 [cs "JMP Loop"] [3] start).
Proof.
  apply (pass1_one_line_forms 3 (cs "Jmp(") (cs "Loop") "jmp(" "JMP " start).
  - right; right; right; right; left. reflexivity.
  - reflexivity.
  - vm_compute. lia.
Defined.

Lemma tolower_o (c : ascii) :
  tolower c = "o"%char -> c = "o"%char \/ c = "O"%char.
Proof.
  destruct c as [[] [] [] [] [] [] [] []]; vm_compute; intro H;
    try discriminate H; auto.
Qed.

Lemma emit_pair_result (i : nat) (op db : cstr) (g : globals) :
  emit_pair i op db g
  = if (al g + 2 <=? MAXL)%nat
    then Done (set_asm1 (asm1 g ++ [op; firstn 79 db])
                 (asmSrcLine g ++ [i; i]) g)
    else Undefined.
Proof.
  unfold emit_pair, emit_asm1.
  destruct (MAXL <=? al g)%nat eqn:E1.
  - apply Nat.leb_le in E1.
    replace (al g + 2 <=? MAXL)%nat with false
      by (symmetry; apply Nat.leb_gt; lia).
    reflexivity.
  - apply Nat.leb_gt in E1. cbn [bind].
    unfold al at 1. cbn [asm1 set_asm1]. rewrite length_app. cbn [length].
    fold (al g).
    destruct (MAXL <=? al g + 1)%nat eqn:E2.
    + apply Nat.leb_le in E2.
      replace (al g + 2 <=? MAXL)%nat with false
        by (symmetry; apply Nat.leb_gt; lia).
      reflexivity.
    + apply Nat.leb_gt in E2.
      replace (al g + 2 <=? MAXL)%nat with true
        by (symmetry; apply Nat.leb_le; lia).
      unfold set_asm1. cbn [src asm1 asmSrcLine lines2 lines2AsmIdx bstack sp
                            lbl2 out]. rewrite <- !app_assoc. reflexivity.
Qed.

(** X8. The extension forms that copy their payload: a line that is the
    form's name in any case, a payload and a closing parenthesis is
    lowered to two lines of the same provenance, the form's [INT] line and
    [DB] with the payload (cut to 79 bytes), when two slots of the lowered
    sequence are free; with fewer free slots the lines are stored behind
    the end of the arrays, without a diagnostic. *)
Theorem pass1_extension_forms
  (i : nat) (p payload : cstr) (form op : string) (g : globals) :
  In (form, op) extension_forms ->
  map tolower p = cs form ->
  pass1_line i (p ++ payload ++ cs ")") g
  = if (al g + 2 <=? MAXL)%nat
    then Done (set_asm1 (asm1 g ++ [cs op; firstn 79 (cs "DB " ++ payload)])
                 (asmSrcLine g ++ [i; i]) g)
    else Undefined.
Proof.
  intros Hin Hp. rewrite <- emit_pair_result.
  unfold extension_forms in Hin.
  do 6 (destruct Hin as [E | Hin];
    [ injection E as <- <-;
      destruct (form_line p payload _ Hp ltac:(discriminate)
                  ltac:(vm_compute; discriminate)
                  ltac:(vm_compute; discriminate)) as (Ht & He & Hr & Hl & Hn);
      unfold pass1_line; rewrite Ht, He, Hr, Hl;
      cbn [cs list_ascii_of_string app starts_with Ascii.eqb Bool.eqb andb];
      cbn [cs list_ascii_of_string length] in Hn;
      rewrite (skipn_exact _ p payload Hn); reflexivity
    | ]).
  destruct Hin as [E | []]. injection E as <- <-.
  destruct (form_line p payload _ Hp ltac:(discriminate)
              ltac:(vm_compute; discriminate)
              ltac:(vm_compute; discriminate)) as (Ht & He & Hr & Hl & Hn).
  cbn [cs list_ascii_of_string length] in Hn.
  unfold pass1_line, pass1_rest.
  rewrite Ht, He, Hr, Hl, (skipn_exact _ p payload Hn).
  cbn [cs list_ascii_of_string app starts_with Ascii.eqb Bool.eqb andb].
  destruct p as [| c p']; [discriminate |].
  cbn [map] in Hp. injection Hp as Hc _.
  destruct (tolower_o c Hc) as [-> | ->];
    cbn [cs list_ascii_of_string app streq starts_with Ascii.eqb Bool.eqb andb];
    reflexivity.
Qed.

Lemma pass1_extension_forms_witness :
  pass1_line 0 (cs "fold_mode(" ++ cs "0x07" ++ cs ")") start
  = Done (set_asm1 [cs "INT 0x01"; cs "DB 0x07"] [0; 0] start).
Proof.
  apply (pass1_extension_forms 0 (cs "fold_mode(") (cs "0x07")
           "fold_mode(" "INT 0x01" start).
  - left. reflexivity.
  - reflexivity.
Defined.

Lemma strchr_comma (a b : cstr) :
  no_comma a = true -> strchr "," (a ++ ","%char :: b) = Some (a, b).
Proof.
  intro H. induction a as [| c a IH]; [reflexivity |].
  cbn [no_comma forallb] in H. apply andb_prop in H as [Hc Ha].
  apply negb_true_iff in Hc. cbn [app strchr]. rewrite Hc.
  unfold no_comma in IH. rewrite (IH Ha). reflexivity.
Qed.

Lemma strchr_none (s : cstr) : no_comma s = true -> strchr "," s = None.
Proof.
  intro H. induction s as [| c s IH]; [reflexivity |].
  cbn [no_comma forallb] in H. apply andb_prop in H as [Hc Hs].
  apply negb_true_iff in Hc. cbn [strchr]. rewrite Hc.
  unfold no_comma in IH. rewrite (IH Hs). reflexivity.
Qed.

(** X9. The extension forms of two arguments: the payload is split at its
    first comma; the two lines are the form's [INT] line and [DB] with
    the first argument, a comma and the second argument trimmed; a payload
    without a comma is the form's fatal diagnostic at the source line. *)
Theorem pass1_two_arg_forms
  (i : nat) (p : cstr) (form op : string) (m : message) (g : globals) :
  In (form, op, m) two_arg_forms ->
  map tolower p = cs form ->
  (forall a b,
      no_comma a = true ->
      pass1_line i (p ++ (a ++ ","%char :: b) ++ cs ")") g
      = if (al g + 2 <=? MAXL)%nat
        then Done (set_asm1
                     (asm1 g ++ [cs op; firstn 79 (cs "DB " ++ a ++ cs ","
                                                     ++ trim b)])
                     (asmSrcLine g ++ [i; i]) g)
        else Undefined)
  /\ (forall payload,
        no_comma payload = true ->
        pass1_line i (p ++ payload ++ cs ")") g = Fatal (DieAt i m)).
Proof.
  intros Hin Hp. unfold two_arg_forms in Hin.
  split.
  - intros a b Ha. rewrite <- emit_pair_result.
    repeat (destruct Hin as [E | Hin];
      [ injection E as <- <- <-;
        destruct (form_line p (a ++ ","%char :: b) _ Hp ltac:(discriminate)
                    ltac:(vm_compute; discriminate)
                    ltac:(vm_compute; discriminate))
          as (Ht & He & Hr & Hl & Hn);
        unfold pass1_line; rewrite Ht, He, Hr, Hl;
        cbn [cs list_ascii_of_string app starts_with Ascii.eqb Bool.eqb andb];
        cbn [cs list_ascii_of_string length] in Hn;
        rewrite (skipn_exact _ p _ Hn), (strchr_comma a b Ha); reflexivity
      | ]).
    destruct Hin.
  - intros payload Hno.
    repeat (destruct Hin as [E | Hin];
      [ injection E as <- <- <-;
        destruct (form_line p payload _ Hp ltac:(discriminate)
                    ltac:(vm_compute; discriminate)
                    ltac:(vm_compute; discriminate))
          as (Ht & He & Hr & Hl & Hn);
        unfold pass1_line; rewrite Ht, He, Hr, Hl;
        cbn [cs list_ascii_of_string app starts_with Ascii.eqb Bool.eqb andb];
        cbn [cs list_ascii_of_string length] in Hn;
        rewrite (skipn_exact _ p _ Hn), (strchr_none payload Hno); reflexivity
      | ]).
    destruct Hin.
Qed.

Lemma pass1_two_arg_forms_witness :
  pass1_line 0 (cs "power_gate(" ++ (cs "3" ++ ","%char :: cs " 1") ++ cs ")")
    start
  = Done (set_asm1 [cs "INT 0x02"; cs "DB 3,1"] [0; 0] start).
Proof.
  destruct (pass1_two_arg_forms 0 (cs "power_gate(") "power_gate(" "INT 0x02"
              PowerGateArgs start) as [H _].
  - left. reflexivity.
  - reflexivity.
  - apply (H (cs "3") (cs " 1")). reflexivity.
Defined.

(** X10. [ljmp(OFF,SEG)]: the payload is split at its first comma and
    the line is lowered to [LJMP OFF:SEG]; a payload without a comma is
    the fatal "ljmp() needs two args" at the source line. *)
Theorem pass1_ljmp (i : nat) (p : cstr) (g : globals) :
  map tolower p = cs "ljmp(" ->
  (forall a b,
      no_comma a = true -> al g < MAXL ->
      pass1_line i (p ++ (a ++ ","%char :: b) ++ cs ")") g
      = Done (set_asm1 (asm1 g ++ [cs "LJMP " ++ a ++ cs ":" ++ b])
                (asmSrcLine g ++ [i]) g))
  /\ (forall payload,
        no_comma payload = true ->
        pass1_line i (p ++ payload ++ cs ")") g
        = Fatal (DieAt i LjmpNeedsTwoArgs)).
Proof.
  intro Hp. split.
  - intros a b Ha Hal.
    assert (Hcap : (MAXL <=? al g)%nat = false) by (apply Nat.leb_gt, Hal).
    destruct (form_line p (a ++ ","%char :: b) _ Hp ltac:(discriminate)
                ltac:(vm_compute; discriminate)
                ltac:(vm_compute; discriminate)) as (Ht & He & Hr & Hl & Hn).
    unfold pass1_line. rewrite Ht, He, Hr, Hl.
    cbn [cs list_ascii_of_string app starts_with Ascii.eqb Bool.eqb andb].
    cbn [cs list_ascii_of_string length] in Hn.
    rewrite (skipn_exact _ p _ Hn), (strchr_comma a b Ha).
    unfold pass1_rest.
    cbn [cs list_ascii_of_string app streq starts_with Ascii.eqb Bool.eqb andb].
    rewrite Hcap. unfold emit_asm1. rewrite Hcap. reflexivity.
  - intros payload Hno.
    destruct (form_line p payload _ Hp ltac:(discriminate)
                ltac:(vm_compute; discriminate)
                ltac:(vm_compute; discriminate)) as (Ht & He & Hr & Hl & Hn).
    unfold pass1_line. rewrite Ht, He, Hr, Hl.
    cbn [cs list_ascii_of_string app starts_with Ascii.eqb Bool.eqb andb].
    cbn [cs list_ascii_of_string length] in Hn.
    rewrite (skipn_exact _ p _ Hn), (strchr_none payload Hno). reflexivity.
Qed.

Lemma pass1_ljmp_witness :
  pass1_line 0 (cs "ljmp(" ++ (cs "0x7C00" ++ ","%char :: cs "8") ++ cs ")")
    start
  = Done (set_asm1 [cs "LJMP 0x7C00:8"] [0] start).
Proof.
  destruct (pass1_ljmp 0 (cs "ljmp(") start eq_refl) as [H _].
  apply (H (cs "0x7C00") (cs "8")); [reflexivity | vm_compute; lia].
Defined.

End Rules.

(** ** Immediates *)

Section Immediates.

Lemma literal_parts (x : cstr) :
  literal x ->
  (is_hex_literal x = true
   /\ exists h r, x = "0"%char :: "x"%char :: h :: r
                  /\ forallb (fun c => is_digit_in 16 c) (h :: r) = true)
  \/ (is_hex_literal x = false
      /\ starts_with (cs "0x") x = false
      /\ exists h r, x = h :: r
                     /\ forallb (fun c => is_digit_in 10 c) (h :: r) = true).
Proof.
  unfold literal. intro Hwf.
  destruct (is_hex_literal x) eqn:Ehex.
  - left. split; [reflexivity |].
    destruct x as [| z [| c [| h r]]]; try discriminate.
    cbn [is_hex_literal] in Ehex.
    apply andb_prop in Ehex as [Ezc Ehr]. apply andb_prop in Ezc as [Ez Ec].
    apply (is_char_eq 48) in Ez; [| lia]. apply (is_char_eq 120) in Ec; [| lia].
    subst z c. exists h, r. split; [reflexivity | exact Ehr].
  - right. rewrite orb_false_r in Hwf. split; [reflexivity |].
    destruct x as [| h r]; [discriminate |]. cbn [is_dec_literal] in Hwf.
    split.
    + cbn [starts_with cs list_ascii_of_string].
      destruct r as [| c r]; [apply andb_false_r |].
      cbn [forallb] in Hwf. apply andb_prop in Hwf as [_ Hwf].
      apply andb_prop in Hwf as [Hc _].
      destruct (isdigit_facts c Hc) as (Hc' & _).
      destruct (isxdigit_facts c Hc') as (_ & _ & _ & _ & _ & _ & X).
      rewrite X. apply andb_false_r.
    + exists h, r. split; [reflexivity |].
      apply forallb_forall. intros c Hc. rewrite forallb_forall in Hwf.
      apply isdigit_facts, Hwf, Hc.
Qed.

Lemma saturate_min (v : Z) :
  (if (ULONG_MAX <? v)%Z then ULONG_MAX else v) = Z.min v ULONG_MAX.
Proof. destruct (Z.ltb_spec ULONG_MAX v); lia. Qed.

Lemma parseImm_literal_value (g : globals) (x : cstr) (i : nat) :
  literal x -> parseImm g (Some x) i = Done (imm_value x).
Proof.
  intro Hwf. unfold parseImm, imm_value, literal_value.
  destruct (literal_parts x Hwf)
    as [(Eh & h & r & -> & Hd) | (Eh & Hnox & h & r & -> & Hd)].
  - rewrite Eh.
    change (starts_with (cs "0x") ("0"%char :: "x"%char :: h :: r)) with true.
    cbv iota. cbn [skipn]. unfold strtoul.
    rewrite strto_core_digits by (auto || exact Hd).
    rewrite saturate_min. reflexivity.
  - rewrite Eh, Hnox. unfold strtoul.
    rewrite strto_core_digits by (auto || exact Hd).
    rewrite saturate_min. reflexivity.
Qed.

(** X11. [parseImm] on a well-formed literal (decimal digits, or [0x]
    and hexadecimal digits) returns its value converted to [unsigned]: the
    value modulo [2^32] (after [strtoul] has saturated it at [2^64 - 1]),
    so the range tests of the emitter see [4294967297] as 1; and an
    operand that starts with neither white space, a sign nor a digit is
    the fatal "malformed decimal immediate". *)
Theorem parseImm_on_literals (g : globals) (i : nat) :
  (forall x, literal x ->
     parseImm g (Some x) i = Done (imm_value x)
     /\ (literal_value x < 2 ^ 32 -> 0 <= literal_value x ->
         imm_value x = literal_value x)%Z)
  /\ parseImm g (Some (cs "4294967297")) i = Done 1%Z
  /\ (forall c r,
        isdigit c = false -> isspace c = false ->
        is_char 45 c = false -> is_char 43 c = false ->
        parseImm g (Some (c :: r)) i = dieAsm g i (MalformedDecimal (c :: r))).
Proof.
  split; [| split].
  - intros x Hx. split; [apply parseImm_literal_value, Hx |].
    intros H1 H0. unfold imm_value, ULONG_MAX.
    rewrite Z.min_l by lia. apply to_uint32_small. lia.
  - reflexivity.
  - intros c r Hd Hs Hm Hp. unfold parseImm.
    assert (Hnox : starts_with (cs "0x") (c :: r) = false).
    { cbn [starts_with cs list_ascii_of_string].
      destruct (Ascii.eqb "0" c) eqn:E; [| reflexivity].
      apply Ascii.eqb_eq in E. subst c. discriminate. }
    rewrite Hnox. unfold strtoul, strto_core. cbn [skip]. rewrite Hs, Hm, Hp.
    assert (Hno : is_digit_in 10 c = false).
    { unfold is_digit_in, digit_in, digit_value. rewrite Hd.
      destruct (islower c) eqn:E1.
      - replace (code c - 87 <? 10)%Z with false; [reflexivity |].
        symmetry. apply Z.ltb_ge. unfold islower in E1.
        apply andb_prop in E1 as [E1 _]. lia.
      - destruct (isupper c) eqn:E2; [| reflexivity].
        replace (code c - 55 <? 10)%Z with false; [reflexivity |].
        symmetry. apply Z.ltb_ge. unfold isupper in E2.
        apply andb_prop in E2 as [E2 _]. lia. }
    change (10 =? 0)%Z with false. change (10 =? 16)%Z with false.
    destruct r as [| x [| h r0]]; cbn [orb];
      rewrite ?andb_false_r; cbn [andb]; cbv iota; rewrite Hno; reflexivity.
Qed.

Lemma parseImm_on_literals_witness :
  parseImm start (Some (cs "0x1F")) 0 = Done 31%Z
  /\ parseImm start (Some (cs "label")) 0
     = Fatal (DieAt 0 (MalformedDecimal (cs "label"))).
Proof.
  destruct (parseImm_on_literals start 0) as (H1 & _ & H3). split.
  - destruct (H1 (cs "0x1F") eq_refl) as [H _]. exact H.
  - apply (H3 "l"%char (cs "abel")); reflexivity.
Defined.

End Immediates.

(** ** Programs without labels, end to end *)

Section Programs.

Lemma literal_chars (x : cstr) :
  literal x -> x <> [] /\ forallb lit_char x = true.
Proof.
  intro Hwf. apply orb_prop in Hwf as [Hd | Hh].
  - destruct x as [| h r]; [discriminate |]. split; [discriminate |].
    cbn [is_dec_literal] in Hd. apply forallb_forall. intros c Hc.
    rewrite forallb_forall in Hd. unfold lit_char.
    destruct (isdigit_facts c (Hd c Hc)) as [-> _]. reflexivity.
  - destruct x as [| z [| c [| h r]]]; try discriminate.
    split; [discriminate |]. cbn [is_hex_literal] in Hh.
    apply andb_prop in Hh as [Hzc Hhr]. apply andb_prop in Hzc as [Hz Hc].
    apply (is_char_eq 48) in Hz; [| lia]. subst z.
    apply forallb_forall. intros d [<- | [<- | Hd]].
    + reflexivity.
    + unfold lit_char. rewrite Hc. apply orb_true_r.
    + rewrite forallb_forall in Hhr. unfold lit_char. rewrite (Hhr d Hd).
      reflexivity.
Qed.

Lemma lit_char_marks (c : ascii) :
  lit_char c = true ->
  Ascii.eqb c ","%char = false /\ Ascii.eqb c ":"%char = false
  /\ is_blank c = false /\ is_trailing c = false.
Proof.
  destruct c as [[] [] [] [] [] [] [] []]; vm_compute; intro H;
    try discriminate H; repeat split.
Qed.

Lemma literal_token (x : cstr) :
  literal x -> x <> [] /\ forallb not_delim x = true.
Proof.
  intro H. destruct (literal_chars x H) as [Hne Hch]. split; [exact Hne |].
  apply forallb_forall. intros c Hc. rewrite forallb_forall in Hch.
  apply lit_char_facts, Hch, Hc.
Qed.

Lemma literal_no_comma (x : cstr) : literal x -> no_comma x = true.
Proof.
  intro H. destruct (literal_chars x H) as [_ Hch].
  apply forallb_forall. intros c Hc. rewrite forallb_forall in Hch.
  destruct (lit_char_marks c (Hch c Hc)) as (-> & _). reflexivity.
Qed.

Lemma literal_last (x : cstr) (p : cstr) :
  literal x -> is_trailing (last (p ++ x) zero) = false.
Proof.
  intro H. destruct (literal_chars x H) as [Hne Hch].
  rewrite last_app_r by exact Hne.
  apply lit_char_marks, forallb_last; assumption.
Qed.

Lemma imm_value_range (x : cstr) : (0 <= imm_value x < 2 ^ 32)%Z.
Proof. apply to_uint32_range. Qed.

(** *** The lowerer on a statement *)

Lemma pass1_line_stmt (i : nat) (s : stmt) (g : globals) :
  wf_stmt s -> al g < MAXL ->
  pass1_line i (source_of s) g
  = Done (set_asm1 (asm1 g ++ [lowered_of s]) (asmSrcLine g ++ [i]) g).
Proof.
  intros Hwf Hal.
  assert (Hcap : (MAXL <=? al g)%nat = false) by (apply Nat.leb_gt, Hal).
  destruct s as [xs | x | n v | a b | v];
    unfold source_of; cbn [form_of payload_of lowered_of].
  - apply pass1_line_db, Hal.
  - destruct (form_line (cs "int(") x _ eq_refl ltac:(discriminate)
                ltac:(vm_compute; discriminate)
                ltac:(vm_compute; discriminate)) as (Ht & He & Hr & Hl & Hn).
    unfold pass1_line, pass1_rest.
    rewrite Ht, He, Hr, Hl, (skipn_exact 4 (cs "int(") x eq_refl).
    cbn [cs list_ascii_of_string app streq starts_with Ascii.eqb Bool.eqb andb].
    rewrite Hcap. unfold emit_asm1. rewrite Hcap. reflexivity.
  - destruct (form_line (cs "fill(") (n ++ cs "," ++ v) _ eq_refl
                ltac:(discriminate)
                ltac:(vm_compute; discriminate)
                ltac:(vm_compute; discriminate)) as (Ht & He & Hr & Hl & Hn).
    unfold pass1_line, pass1_rest.
    rewrite Ht, He, Hr, Hl, (skipn_exact 5 (cs "fill(") _ eq_refl).
    cbn [cs list_ascii_of_string app streq starts_with Ascii.eqb Bool.eqb andb].
    rewrite Hcap. unfold emit_asm1. rewrite Hcap. reflexivity.
  - destruct Hwf as [Ha _].
    change (a ++ cs "," ++ b) with (a ++ ","%char :: b).
    destruct (form_line (cs "ljmp(") (a ++ ","%char :: b) _ eq_refl
                ltac:(discriminate)
                ltac:(vm_compute; discriminate)
                ltac:(vm_compute; discriminate)) as (Ht & He & Hr & Hl & Hn).
    unfold pass1_line.
    rewrite Ht, He, Hr, Hl, (skipn_exact 5 (cs "ljmp(") _ eq_refl),
      (strchr_comma a b (literal_no_comma a Ha)).
    unfold pass1_rest.
    cbn [cs list_ascii_of_string app streq starts_with Ascii.eqb Bool.eqb andb].
    rewrite Hcap. unfold emit_asm1. rewrite Hcap. reflexivity.
  - destruct (form_line (cs "org(") v _ eq_refl ltac:(discriminate)
                ltac:(vm_compute; discriminate)
                ltac:(vm_compute; discriminate)) as (Ht & He & Hr & Hl & Hn).
    unfold pass1_line, pass1_rest.
    rewrite Ht, He, Hr, Hl, (skipn_exact 4 (cs "org(") v eq_refl).
    cbn [cs list_ascii_of_string app streq starts_with Ascii.eqb Bool.eqb andb].
    rewrite Hcap. unfold emit_asm1. rewrite Hcap. reflexivity.
Qed.

Lemma pass1_loop_stmts (prog : list stmt) (i : nat) (g : globals) :
  Forall wf_stmt prog ->
  al g + length prog <= MAXL ->
  pass1_loop i (map source_of prog) g
  = Done (set_asm1 (asm1 g ++ map lowered_of prog)
            (asmSrcLine g ++ seq i (length prog)) g).
Proof.
  intro H; revert i g; induction H as [| s prog Hs _ IH]; intros i g Hal.
  - cbn [map pass1_loop length seq]. rewrite !app_nil_r.
    destruct g; reflexivity.
  - cbn [map pass1_loop length seq] in *.
    rewrite pass1_line_stmt by (exact Hs || lia). cbn [bind].
    rewrite IH.
    + unfold set_asm1.
      cbn [src asm1 asmSrcLine lines2 lines2AsmIdx bstack sp lbl2 out].
      rewrite <- !app_assoc. reflexivity.
    + unfold al in *. cbn [asm1 set_asm1]. rewrite length_app.
      cbn [length]. lia.
Qed.

(** *** The sizer on lines without labels *)

Lemma clone_loop_result (todo : list cstr) (i : nat) (g : globals) :
  ln2 g + length todo <= MAXL ->
  clone_loop i todo g
  = Done (set_lines2 (lines2 g ++ todo)
            (lines2AsmIdx g ++ seq i (length todo)) g).
Proof.
  revert i g; induction todo as [| a todo IH]; intros i g H;
    cbn [clone_loop length seq] in *.
  - rewrite !app_nil_r. destruct g; reflexivity.
  - replace (MAXL <=? ln2 g)%nat with false
      by (symmetry; apply Nat.leb_gt; lia).
    rewrite IH.
    + unfold set_lines2.
      cbn [src asm1 asmSrcLine lines2 lines2AsmIdx bstack sp lbl2 out].
      rewrite <- !app_assoc. reflexivity.
    + unfold ln2 in *. cbn [lines2 set_lines2]. rewrite length_app.
      cbn [length]. lia.
Qed.

Lemma list_set_middle {A : Type} (x a : A) (done todo : list A) :
  list_set (length done) x (done ++ a :: todo) = done ++ x :: todo.
Proof.
  induction done as [| d done IH]; [reflexivity |].
  cbn [length app list_set]. rewrite IH. reflexivity.
Qed.

Lemma label_loop_plain (todo done : list cstr) (pc : Z) (g : globals) :
  lines2 g = done ++ todo ->
  Forall sizable todo ->
  exists pc',
    label_loop (length todo) (length done) pc g
    = Done (pc', set_lines2 (done ++ map trim_in_place todo)
                   (lines2AsmIdx g) g).
Proof.
  intros Hl H; revert done pc g Hl;
    induction H as [| a todo (tok & args & sz & Ht & He & Hs) _ IH];
    intros done pc g Hl.
  - exists pc. cbn [length label_loop map]. rewrite app_nil_r in *.
    rewrite <- Hl. destruct g; reflexivity.
  - cbn [length label_loop map]. rewrite Hl, nth_middle, Ht, He.
    rewrite list_set_middle. cbn [lines2 set_lines2].
    rewrite nth_middle, Hs. cbn [bind].
    set (g1 := set_lines2 (done ++ trim_in_place a :: todo)
                 (lines2AsmIdx g) g).
    destruct (IH (done ++ [trim_in_place a]) (to_uint32 (pc + sz)) g1)
      as (pc' & E).
    + unfold g1. cbn [lines2 set_lines2]. rewrite <- app_assoc. reflexivity.
    + exists pc'. rewrite length_app in E. cbn [length] in E.
      rewrite Nat.add_1_r in E. rewrite E. rewrite <- app_assoc.
      reflexivity.
Qed.

Lemma trim_keeps (c : ascii) (s : cstr) :
  is_blank c = false ->
  is_trailing (last (c :: s) zero) = false ->
  trim (c :: s) = c :: s.
Proof.
  intros Hc Hl. unfold trim. cbn [skip]. rewrite Hc.
  apply rstrip_keeps, Hl.
Qed.

Lemma tokens_mnemonic (mn p : cstr) :
  mn <> [] -> forallb not_delim mn = true ->
  tokens (mn ++ " "%char :: p) = mn :: tokens p.
Proof.
  intros Hne Hmn. unfold tokens.
  rewrite tokens_from_word by exact Hmn. cbn [app tokens_from].
  change (is_delim " ") with true. cbv iota.
  destruct mn as [| c mn]; [contradiction | reflexivity].
Qed.

Lemma tokens_word (x : cstr) :
  x <> [] -> forallb not_delim x = true -> tokens x = [x].
Proof.
  intros Hne Hd.
  pose proof (tokens_join_commas [x]) as E.
  cbn [join_commas comma_tail fold_right] in E. rewrite app_nil_r in E.
  apply E. repeat constructor; assumption.
Qed.

Lemma colon_token (a b : cstr) :
  literal a -> literal b ->
  a ++ cs ":" ++ b <> [] /\ forallb not_delim (a ++ cs ":" ++ b) = true.
Proof.
  intros Ha Hb. destruct (literal_token a Ha) as [Hne Hda].
  destruct (literal_token b Hb) as [_ Hdb]. split.
  - destruct a; [contradiction | discriminate].
  - rewrite !forallb_app, Hda, Hdb. reflexivity.
Qed.

Lemma stmt_tokens (s : stmt) :
  wf_stmt s ->
  tokens (lowered_of s) = cs (mnemonic_of s) :: operands_of s.
Proof.
  intro Hwf. destruct s as [xs | x | n v | a b | v];
    cbn [lowered_of mnemonic_of operands_of wf_stmt] in *.
  - apply tokens_db_line, Hwf.
  - destruct Hwf as [Hx _]. destruct (literal_token x Hx) as [Hne Hd].
    change (cs "INT " ++ x) with (cs "INT" ++ " "%char :: x).
    rewrite tokens_mnemonic by (discriminate || reflexivity).
    rewrite (tokens_word x Hne Hd). reflexivity.
  - destruct Hwf as (Hn & Hv & _).
    change (cs "FILL " ++ n ++ cs "," ++ v)
      with (cs "FILL" ++ " "%char :: n ++ cs "," ++ v).
    rewrite tokens_mnemonic by (discriminate || reflexivity).
    pose proof (tokens_join_commas [n; v]) as E.
    cbn [join_commas comma_tail fold_right] in E. rewrite app_nil_r in E.
    change (("," :: v)%char) with (cs "," ++ v) in E.
    rewrite E; [reflexivity |].
    repeat constructor;
      solve [apply (literal_token n Hn) | apply (literal_token v Hv)].
  - destruct Hwf as [Ha Hb]. destruct (colon_token a b Ha Hb) as [Hne Hd].
    change (cs "LJMP " ++ a ++ cs ":" ++ b)
      with (cs "LJMP" ++ " "%char :: a ++ cs ":" ++ b).
    rewrite tokens_mnemonic by (discriminate || reflexivity).
    rewrite (tokens_word _ Hne Hd). reflexivity.
  - destruct (literal_token v Hwf) as [Hne Hd].
    change (cs "ORG " ++ v) with (cs "ORG" ++ " "%char :: v).
    rewrite tokens_mnemonic by (discriminate || reflexivity).
    rewrite (tokens_word v Hne Hd). reflexivity.
Qed.

Lemma stmt_trim (s : stmt) :
  wf_stmt s -> tokens (trim (lowered_of s)) = tokens (lowered_of s).
Proof.
  intro Hwf. destruct s as [xs | x | n v | a b | v];
    cbn [lowered_of wf_stmt] in *.
  - destruct xs as [| x xs]; [reflexivity |].
    destruct (db_line_trimmed x xs Hwf) as [-> _]. reflexivity.
  - destruct Hwf as [Hx _]. f_equal.
    apply (trim_keeps "I" (cs "NT " ++ x) eq_refl).
    exact (literal_last x (cs "INT ") Hx).
  - destruct Hwf as (Hn & Hv & _). f_equal.
    apply (trim_keeps "F" (cs "ILL " ++ n ++ cs "," ++ v) eq_refl).
    pose proof (literal_last v (cs "FILL " ++ n ++ cs ",") Hv) as L.
    rewrite <- !app_assoc in L. exact L.
  - destruct Hwf as [Ha Hb]. f_equal.
    apply (trim_keeps "L" (cs "JMP " ++ a ++ cs ":" ++ b) eq_refl).
    pose proof (literal_last b (cs "LJMP " ++ a ++ cs ":") Hb) as L.
    rewrite <- !app_assoc in L. exact L.
  - f_equal. apply (trim_keeps "O" (cs "RG " ++ v) eq_refl).
    exact (literal_last v (cs "ORG ") Hwf).
Qed.

Lemma stmt_sizable (s : stmt) : wf_stmt s -> sizable (lowered_of s).
Proof.
  intro Hwf. unfold sizable, line_sz.
  rewrite tokens_trim_in_place, (stmt_trim s Hwf), (stmt_tokens s Hwf).
  destruct s; cbn [mnemonic_of operands_of]; do 3 eexists;
    (split; [reflexivity | split; reflexivity]).
Qed.

(** *** The emitter on a statement *)

Lemma e8_byte (b : Z) (f : FILE) : (0 <= b <= 255)%Z -> e8 b f = fputc b f.
Proof.
  intro H. unfold e8. rewrite Z.mod_small by (change (2 ^ 8)%Z with 256%Z; lia).
  reflexivity.
Qed.

Lemma e16_le16 (w : Z) (f : FILE) : e16 w f = write_bytes (le16 w) f.
Proof.
  unfold e16, e8, write_bytes, le16. cbn [fold_left].
  change 255%Z with (Z.ones 8).
  rewrite Z.land_ones, Z.shiftr_div_pow2 by lia.
  change (2 ^ 8)%Z with 256%Z. change (2 ^ 16)%Z with 65536%Z.
  f_equal; [| f_equal]; Z.div_mod_to_equations; lia.
Qed.

Lemma write_bytes_app (a b : list Z) (f : FILE) :
  write_bytes (a ++ b) f = write_bytes b (write_bytes a f).
Proof. apply fold_left_app. Qed.

Lemma db_loop_bytes (xs : list cstr) (i : nat) (pc : Z) (g : globals) :
  Forall byte_literal xs ->
  exists pc',
    db_loop i xs pc g
    = Done (pc', set_out (write_bytes (map literal_value xs) (out g)) g).
Proof.
  intro H; revert pc g; induction H as [| x xs Hx _ IH]; intros pc g.
  - exists pc. cbn [db_loop map write_bytes fold_left].
    rewrite set_out_same. reflexivity.
  - cbn [db_loop map]. rewrite (parseImm_byte_literal g x i Hx). cbn [bind].
    destruct Hx as [_ Hv].
    replace (255 <? literal_value x)%Z with false
      by (symmetry; apply Z.ltb_ge; lia).
    rewrite e8_byte by exact Hv.
    destruct (IH (to_uint32 (pc + 1)) (set_out (fputc (literal_value x) (out g)) g))
      as (pc' & E).
    exists pc'. rewrite E. reflexivity.
Qed.

Lemma fill_loop_bytes (n : nat) (val pc : Z) (f : FILE) :
  (0 <= val <= 255)%Z ->
  exists pc', fill_loop n val pc f = (pc', write_bytes (repeat val n) f).
Proof.
  intro Hv. revert pc f; induction n as [| n IH]; intros pc f.
  - exists pc. reflexivity.
  - cbn [fill_loop repeat]. rewrite e8_byte by exact Hv.
    destruct (IH (to_uint32 (pc + 1)) (fputc val f)) as (pc' & E).
    exists pc'. rewrite E. reflexivity.
Qed.

Lemma strchr_colon (a b : cstr) :
  forallb lit_char a = true -> strchr ":" (a ++ ":"%char :: b) = Some (a, b).
Proof.
  intro H. induction a as [| c a IH]; [reflexivity |].
  cbn [forallb] in H. apply andb_prop in H as [Hc Ha].
  destruct (lit_char_marks c Hc) as (_ & Hcol & _).
  cbn [app strchr]. rewrite Hcol, (IH Ha). reflexivity.
Qed.

Lemma passB_line_stmt (i : nat) (l : cstr) (s : stmt) (pc : Z) (g : globals) :
  wf_stmt s ->
  tokens l = cs (mnemonic_of s) :: operands_of s ->
  exists pc',
    passB_line i l pc g = Done (pc', set_out (emit s (out g)) g).
Proof.
  intros Hwf Ht. unfold passB_line. rewrite Ht.
  destruct s as [xs | x | n v | a b | v];
    cbn [mnemonic_of operands_of wf_stmt emit bytes_of] in *;
    cbn [cs list_ascii_of_string streq starts_with Ascii.eqb Bool.eqb andb orb
         nth_error].
  - apply db_loop_bytes, Hwf.
  - destruct Hwf as [Hx Hr]. rewrite (parseImm_literal_value g x i Hx).
    cbn [bind].
    replace (255 <? imm_value x)%Z with false
      by (symmetry; apply Z.ltb_ge; lia).
    eexists. rewrite (e8_byte (imm_value x))
      by (pose proof (imm_value_range x); lia).
    rewrite e8_byte by lia. reflexivity.
  - destruct Hwf as (Hn & Hv & Hr).
    rewrite (parseImm_literal_value g n i Hn),
      (parseImm_literal_value g v i Hv). cbn [bind].
    replace (255 <? imm_value v)%Z with false
      by (symmetry; apply Z.ltb_ge; lia).
    destruct (fill_loop_bytes (Z.to_nat (imm_value n)) (imm_value v) pc (out g))
      as (pc' & E); [pose proof (imm_value_range v); lia |].
    rewrite E. exists pc'. reflexivity.
  - destruct Hwf as [Ha Hb].
    change ([":"%char] ++ b) with (":"%char :: b).
    rewrite (strchr_colon a b (proj2 (literal_chars a Ha))).
    rewrite (parseImm_literal_value _ a i Ha),
      (parseImm_literal_value _ b i Hb). cbn [bind out set_out].
    eexists. rewrite e16_le16, e32_le32, e8_byte by lia.
    rewrite (to_uint32_small (imm_value a)) by apply imm_value_range.
    change (234%Z :: le32 (imm_value a) ++ le16 (imm_value b))
      with ([234%Z] ++ le32 (imm_value a) ++ le16 (imm_value b)).
    rewrite !write_bytes_app. reflexivity.
  - rewrite (parseImm_literal_value g v i Hwf). cbn [bind].
    eexists. reflexivity.
Qed.

Lemma passB_loop_stmts (ls : list cstr) (prog : list stmt) :
  Forall2 (fun l s =>
             wf_stmt s /\ tokens l = cs (mnemonic_of s) :: operands_of s)
    ls prog ->
  forall (done : list cstr) (pc : Z) (g : globals),
    lines2 g = done ++ ls ->
    exists pc',
      passB_loop (length ls) (length done) pc g
      = Done (pc', set_out (fold_left (fun f s => emit s f) prog (out g)) g).
Proof.
  induction 1 as [| l s ls prog [Hwf Ht] _ IH]; intros done pc g Hl.
  - exists pc. cbn [length passB_loop fold_left]. rewrite set_out_same.
    reflexivity.
  - cbn [length passB_loop fold_left]. rewrite Hl, nth_middle.
    destruct (passB_line_stmt (length done) l s pc g Hwf Ht) as (pc1 & E1).
    rewrite E1. cbn [bind fst snd].
    destruct (IH (done ++ [l]) pc1 (set_out (emit s (out g)) g)) as (pc' & E).
    + cbn [lines2 set_out]. rewrite Hl, <- app_assoc. reflexivity.
    + exists pc'. rewrite length_app in E. cbn [length] in E.
      rewrite Nat.add_1_r in E. rewrite E. reflexivity.
Qed.

(** *** The bytes of the file *)

Lemma write_bytes_append (bs : list Z) (f : FILE) :
  fpos f = length (fdata f) ->
  write_bytes bs f
  = {| fpos := length (fdata f) + length bs; fdata := fdata f ++ bs |}.
Proof.
  revert f; induction bs as [| b bs IH]; intros f H.
  - cbn [write_bytes fold_left length]. rewrite Nat.add_0_r, app_nil_r, <- H.
    destruct f; reflexivity.
  - change (write_bytes (b :: bs) f) with (write_bytes bs (fputc b f)).
    rewrite (fputc_append b f H), IH; cbn [fpos fdata].
    + rewrite length_app, <- app_assoc. cbn [length app].
      f_equal. lia.
    + rewrite length_app. cbn [length]. lia.
Qed.

Lemma emit_appends (prog : list stmt) (f : FILE) :
  fpos f = length (fdata f) ->
  forallb (fun s => negb (is_org s)) prog = true ->
  fold_left (fun f s => emit s f) prog f
  = {| fpos := length (fdata f) + length (concat (map bytes_of prog));
       fdata := fdata f ++ concat (map bytes_of prog) |}.
Proof.
  revert f; induction prog as [| s prog IH]; intros f Hf Hno.
  - cbn [fold_left map concat length]. rewrite Nat.add_0_r, app_nil_r, <- Hf.
    destruct f; reflexivity.
  - cbn [forallb] in Hno. apply andb_prop in Hno as [Hs Hno].
    cbn [fold_left map concat].
    assert (E : emit s f = write_bytes (bytes_of s) f)
      by (destruct s; [reflexivity .. | discriminate]).
    rewrite E, (write_bytes_append _ f Hf), IH; cbn [fpos fdata].
    + rewrite !length_app, <- app_assoc. f_equal. lia.
    + rewrite length_app. reflexivity.
    + exact Hno.
Qed.

(** X12. Programs without labels, end to end. For a file of lines of at
    most 79 bytes whose lines, trimmed and without the blank and the
    comment lines, are [db], [int], [fill], [ljmp] and [org] statements
    with literal operands (at most [MAXL] of them, the one-byte operands
    in 0...255), the translator returns: every statement is lowered to its
    one assembler line, with its index among the source lines as
    provenance; the output file is the result of the statements' effects
    in order ([org] moves the position, every other statement writes its
    bytes at the position); and without [org] the file is exactly the
    bytes of the statements one after the other. *)
Theorem label_free_program (raws : list cstr) (prog : list stmt) :
  Forall text_line raws ->
  filter retained (map trim raws) = map source_of prog ->
  Forall wf_stmt prog ->
  length prog <= MAXL ->
  exists g,
    main (Some (file_of_raw raws)) = Done g
    /\ src g = map source_of prog
    /\ asm1 g = map lowered_of prog
    /\ asmSrcLine g = seq 0 (length prog)
    /\ out g = fold_left (fun f s => emit s f) prog fopen_wb
    /\ (forallb (fun s => negb (is_org s)) prog = true ->
        fdata (out g) = concat (map bytes_of prog)).
Proof.
  intros Htext Hsrc Hwf Hlen.
  set (S0 := map source_of prog).
  set (L := map lowered_of prog).
  set (n := length prog) in *.
  assert (Hread : read_src (Some (file_of_raw raws)) start
                  = Done (set_src S0 start)).
  { unfold read_src. change (src start) with (@nil cstr).
    rewrite (read_loop_text_file raws [] Htext) by (cbn; lia).
    rewrite Hsrc. fold S0. unfold S0 at 1. rewrite length_map. fold n.
    cbn [length Nat.add app].
    replace (n <=? MAXL)%nat with true by (symmetry; apply Nat.leb_le, Hlen).
    reflexivity. }
  set (g1 := set_src S0 start) in *.
  assert (Hp1 : pass1 g1 = Done (set_asm1 L (seq 0 n) g1)).
  { unfold pass1. cbn [src g1 set_src]. unfold S0.
    rewrite (pass1_loop_stmts prog 0 _ Hwf) by (cbn; exact Hlen).
    reflexivity. }
  set (g2 := set_asm1 L (seq 0 n) g1) in *.
  assert (Hn : length L = n) by apply length_map.
  assert (HpA : exists pcA,
            label_loop n 0 0%Z (set_lines2 L (seq 0 n) g2)
            = Done (pcA, set_lines2 (map trim_in_place L) (seq 0 n) g2)).
  { assert (Hs : Forall sizable L).
    { unfold L. clear -Hwf. induction Hwf as [| s prog Hs _ IH];
        constructor; [apply stmt_sizable, Hs | exact IH]. }
    destruct (label_loop_plain L [] 0%Z (set_lines2 L (seq 0 n) g2) eq_refl Hs)
      as (pcA & E).
    exists pcA. rewrite Hn in E. exact E. }
  destruct HpA as (pcA & HpA).
  set (g3 := set_lines2 (map trim_in_place L) (seq 0 n) g2) in *.
  assert (HA : asm_passA g2 = Done g3).
  { unfold asm_passA.
    rewrite clone_loop_result
      by (change (ln2 g2) with 0; change (asm1 g2) with L; rewrite Hn;
          exact Hlen).
    change (lines2 g2) with (@nil cstr).
    change (lines2AsmIdx g2) with (@nil nat).
    change (asm1 g2) with L. cbn [app bind]. rewrite Hn.
    change (ln2 (set_lines2 L (seq 0 n) g2)) with (length L).
    rewrite Hn, HpA. reflexivity. }
  assert (HB : exists pcB,
            passB_loop n 0 0%Z (set_out fopen_wb g3)
            = Done (pcB, set_out (fold_left (fun f s => emit s f) prog fopen_wb)
                           g3)).
  { assert (H2 : Forall2 (fun l s =>
              wf_stmt s /\ tokens l = cs (mnemonic_of s) :: operands_of s)
              (map trim_in_place L) prog).
    { unfold L. clear -Hwf. induction Hwf as [| s prog Hs _ IH];
        constructor; [| exact IH].
      split; [exact Hs |].
      rewrite tokens_trim_in_place, (stmt_trim s Hs). apply stmt_tokens, Hs. }
    destruct (passB_loop_stmts _ _ H2 [] 0%Z (set_out fopen_wb g3) eq_refl)
      as (pcB & E).
    exists pcB. rewrite length_map, Hn in E. exact E. }
  destruct HB as (pcB & HB).
  exists (set_out (fold_left (fun f s => emit s f) prog fopen_wb) g3).
  split; [| repeat split].
  - unfold main. rewrite Hread. cbn [bind]. rewrite Hp1. cbn [bind].
    rewrite HA. cbn [bind]. unfold asm_passB.
    change (ln2 g3) with (length (map trim_in_place L)).
    rewrite length_map, Hn, HB. reflexivity.
  - intro Hno. cbn [out set_out].
    rewrite (emit_appends prog fopen_wb eq_refl Hno). reflexivity.
Qed.

Lemma label_free_program_witness :
  exists g,
    main (Some (file_of_raw [cs "  int(0x10)"; cs "; data"; cs "fill(2,0xFF)";
                             cs ""; cs "ljmp(0x7C00,8)"; cs "db(1,2)"]))
    = Done g
    /\ fdata (out g)
       = [205; 16; 255; 255; 234; 0; 124; 0; 0; 8; 0; 1; 2]%Z.
Proof.
  destruct (label_free_program
              [cs "  int(0x10)"; cs "; data"; cs "fill(2,0xFF)"; cs "";
               cs "ljmp(0x7C00,8)"; cs "db(1,2)"]
              [SInt (cs "0x10"); SFill (cs "2") (cs "0xFF");
               SLjmp (cs "0x7C00") (cs "8"); SDb [cs "1"; cs "2"]])
    as (g & Hm & _ & _ & _ & _ & Hd).
  - repeat constructor; vm_compute; lia.
  - reflexivity.
  - repeat constructor; vm_compute; congruence.
  - vm_compute. lia.
  - exists g. split; [exact Hm |]. rewrite Hd by reflexivity. reflexivity.
Defined.

End Programs.

(** ** Built-ins, assembler lines and the capacity of the lowered sequence *)

Section Builtins.

Lemma emit_asm1_result (i : nat) (text : cstr) (g : globals) :
  al g < MAXL ->
  emit_asm1 i text g
  = Done (set_asm1 (asm1 g ++ [text]) (asmSrcLine g ++ [i]) g).
Proof.
  intro H. unfold emit_asm1.
  replace (MAXL <=? al g)%nat with false by (symmetry; apply Nat.leb_gt, H).
  reflexivity.
Qed.

(** X13. The built-ins without operands: [tape_start()], [load()] and
    [store()], written exactly so, are lowered to their fixed lines, with
    the source line as provenance; each asks for one free slot more than
    it fills, so that with fewer it is the fatal "asm1 overflow" at the
    source line. *)
Theorem pass1_builtins
  (i : nat) (nm : string) (ls : list string) (g : globals) :
  In (nm, ls) builtin_lines ->
  pass1_line i (cs nm) g
  = if (MAXL <=? al g + length ls)%nat
    then Fatal (DieAt i Asm1Overflow)
    else Done (set_asm1 (asm1 g ++ map cs ls)
                 (asmSrcLine g ++ repeat i (length ls)) g).
Proof.
  intro Hin. unfold builtin_lines in Hin.
  destruct Hin as [E | [E | [E | []]]]; injection E as <- <-;
    cbn [length map repeat].
  - change (pass1_line i (cs "tape_start()") g)
      with (if (MAXL <=? al g + 2)%nat then dieSrc i Asm1Overflow
            else g1 <- emit_asm1 i (cs "ORG 0x500") g ;;
                 emit_asm1 i (cs "DB 0xBE,0x00,0x05") g1).
    destruct (Nat.leb_spec MAXL (al g + 2)) as [H | H]; [reflexivity |].
    rewrite emit_asm1_result by lia. cbn [bind].
    rewrite emit_asm1_result
      by (unfold al in *; cbn [asm1 set_asm1]; rewrite length_app;
          cbn [length]; lia).
    unfold set_asm1.
    cbn [src asm1 asmSrcLine lines2 lines2AsmIdx bstack sp lbl2 out].
    rewrite <- !app_assoc. reflexivity.
  - change (pass1_line i (cs "load()") g)
      with (if (MAXL <=? al g + 1)%nat then dieSrc i Asm1Overflow
            else emit_asm1 i (cs "DB 0x8A,0x04") g).
    destruct (Nat.leb_spec MAXL (al g + 1)) as [H | H]; [reflexivity |].
    apply emit_asm1_result. lia.
  - change (pass1_line i (cs "store()") g)
      with (if (MAXL <=? al g + 1)%nat then dieSrc i Asm1Overflow
            else emit_asm1 i (cs "DB 0x88,0x04") g).
    destruct (Nat.leb_spec MAXL (al g + 1)) as [H | H]; [reflexivity |].
    apply emit_asm1_result. lia.
Qed.

Lemma pass1_builtins_witness :
  pass1_line 4 (cs "tape_start()") start
  = Done (set_asm1 [cs "ORG 0x500"; cs "DB 0xBE,0x00,0x05"] [4; 4] start).
Proof.
  apply (pass1_builtins 4 "tape_start()" ["ORG 0x500"; "DB 0xBE,0x00,0x05"]%string
           start).
  left. reflexivity.
Defined.

(** *** [head += N] *)

Lemma print_ld_bytes :
  forallb
    (fun k =>
       let x := print_ld (Z.of_nat k) in
       is_dec_literal x
       && (literal_value x =? Z.of_nat k)%Z
       && (length x <=? 3)%nat
       && match strtol x 0 with
          | Some (v, _) => (v =? Z.of_nat k)%Z
          | None => false
          end)
    (seq 0 256) = true.
Proof. vm_compute. reflexivity. Qed.

Lemma print_ld_byte (v : Z) :
  (0 <= v <= 255)%Z ->
  byte_literal (print_ld v)
  /\ literal_value (print_ld v) = v
  /\ length (print_ld v) <= 3
  /\ exists rest, strtol (print_ld v) 0 = Some (v, rest).
Proof.
  intro Hv. pose proof print_ld_bytes as H.
  rewrite forallb_forall in H. specialize (H (Z.to_nat v)).
  rewrite Z2Nat.id in H by lia.
  assert (Hin : In (Z.to_nat v) (seq 0 256)) by (apply in_seq; lia).
  apply H in Hin. cbv zeta in Hin.
  apply andb_prop in Hin as [Hin Hs]. apply andb_prop in Hin as [Hin Hl].
  apply andb_prop in Hin as [Hd Hval].
  apply Z.eqb_eq in Hval. apply Nat.leb_le in Hl.
  split; [| split; [exact Hval | split; [exact Hl |]]].
  - split; [rewrite Hd; reflexivity | rewrite Hval; exact Hv].
  - destruct (strtol (print_ld v) 0) as [[v' rest] |]; [| discriminate].
    apply Z.eqb_eq in Hs. subst v'. exists rest. reflexivity.
Qed.

Lemma skip_isspace_blanks (ws s : cstr) :
  forallb is_blank ws = true -> skip isspace (ws ++ s) = skip isspace s.
Proof.
  intro H. induction ws as [| c ws IH]; [reflexivity |].
  cbn [forallb] in H. apply andb_prop in H as [Hc Hws].
  cbn [app skip].
  replace (isspace c) with true; [apply IH, Hws |].
  symmetry. revert Hc. clear.
  destruct c as [[] [] [] [] [] [] [] []]; vm_compute; intro H;
    try discriminate H; reflexivity.
Qed.

Lemma strtol_blanks (ws s : cstr) (base : Z) :
  forallb is_blank ws = true -> strtol (ws ++ s) base = strtol s base.
Proof.
  intro H. unfold strtol, strto_core.
  rewrite (skip_isspace_blanks ws s H). reflexivity.
Qed.

(** X14. [head += N]: for [N] the decimal text of a value in 0...255,
    after any blanks, the line is lowered to [DB 0x83,0xC6,N] (asking for
    one free slot more than it fills), and the emitter writes for that
    line the three bytes 83 C6 and the value. *)
Theorem pass1_head_add (i : nat) (ws : cstr) (v : Z) (g : globals) :
  forallb is_blank ws = true ->
  (0 <= v <= 255)%Z ->
  pass1_line i (cs "head +=" ++ ws ++ print_ld v) g
  = (if (MAXL <=? al g + 1)%nat
     then Fatal (DieAt i Asm1Overflow)
     else Done (set_asm1 (asm1 g ++ [cs "DB 0x83,0xC6," ++ print_ld v])
                  (asmSrcLine g ++ [i]) g))
  /\ (forall (j : nat) (pc : Z) (g' : globals),
        exists pc',
          passB_line j (cs "DB 0x83,0xC6," ++ print_ld v) pc g'
          = Done (pc', set_out (write_bytes [131; 198; v]%Z (out g')) g')).
Proof.
  intros Hws Hv.
  destruct (print_ld_byte v Hv) as (Hb & Hval & Hlen & rest & Hs).
  set (x := print_ld v) in *.
  assert (Hlit : literal x) by apply Hb.
  split.
  - set (line := cs "head +=" ++ ws ++ x).
    assert (Ht : trim line = line).
    { apply (trim_keeps "h" (cs "ead +=" ++ ws ++ x) eq_refl).
      pose proof (literal_last x (cs "head +=" ++ ws) Hlit) as L.
      rewrite <- app_assoc in L. exact L. }
    unfold pass1_line. rewrite Ht. unfold line.
    change (map tolower (cs "head +=" ++ ws ++ x))
      with (cs "head +=" ++ map tolower (ws ++ x)).
    cbn [cs list_ascii_of_string app starts_with Ascii.eqb Bool.eqb andb].
    unfold pass1_rest.
    cbn [cs list_ascii_of_string app streq starts_with Ascii.eqb Bool.eqb
         andb skipn].
    rewrite (strtol_blanks ws x 0 Hws), Hs.
    replace ((v <? 0)%Z || (255 <? v)%Z) with false
      by (symmetry; apply orb_false_intro; [apply Z.ltb_ge | apply Z.ltb_ge];
          lia).
    match goal with
    | |- context [(LNSZ <=? ?n)%nat] => replace (LNSZ <=? n)%nat with false
    end.
    + destruct (Nat.leb_spec MAXL (al g + 1)) as [H | H]; [reflexivity |].
      apply emit_asm1_result. lia.
    + symmetry. apply Nat.leb_gt. cbn [length]. fold x. unfold LNSZ. lia.
  - intros j pc g'.
    assert (Hxs : Forall byte_literal [cs "0x83"; cs "0xC6"; x]).
    { constructor; [split; [reflexivity | vm_compute; split; discriminate] |].
      constructor; [split; [reflexivity | vm_compute; split; discriminate] |].
      constructor; [exact Hb | constructor]. }
    pose proof (tokens_db_line _ Hxs) as Htok.
    cbn [join_commas comma_tail fold_right] in Htok.
    rewrite app_nil_r in Htok.
    change (cs "DB " ++ cs "0x83" ++ ("," :: cs "0xC6")%char ++ ("," :: x)%char)
      with (cs "DB 0x83,0xC6," ++ x) in Htok.
    unfold passB_line. rewrite Htok.
    change (streq (cs "DB") (cs "ORG")) with false.
    change (streq (cs "DB") (cs "DB")) with true. cbv iota.
    destruct (db_loop_bytes _ j pc g' Hxs) as (pc' & E).
    exists pc'. rewrite E. cbn [map]. rewrite Hval. reflexivity.
Qed.

Lemma pass1_head_add_witness :
  pass1_line 0 (cs "head +=" ++ cs " " ++ print_ld 7) start
  = Done (set_asm1 [cs "DB 0x83,0xC6,7"] [0] start).
Proof.
  destruct (pass1_head_add 0 (cs " ") 7 start eq_refl) as [H _]; [lia |].
  exact H.
Defined.

(** *** Lines that are copied *)

Lemma starts_with_longer (p q s : cstr) :
  starts_with p s = false -> starts_with (p ++ q) s = false.
Proof.
  revert s; induction p as [| a p IH]; intros s H; [discriminate |].
  destruct s as [| b s]; [reflexivity |].
  cbn [app starts_with] in *.
  destruct (Ascii.eqb a b); [apply IH, H | reflexivity].
Qed.

Lemma streq_ends (n : Z) (line s : cstr) :
  ends_with n line = false -> ends_with n s = true -> streq line s = false.
Proof.
  intros H1 H2. destruct (streq line s) eqn:E; [| reflexivity].
  apply streq_eq in E. subst s. congruence.
Qed.

Lemma streq_neq (a b : cstr) : a <> b -> streq a b = false.
Proof.
  intro H. destruct (streq a b) eqn:E; [| reflexivity].
  apply streq_eq in E. contradiction.
Qed.

(** X15. Assembler lines pass the lowerer as they are: a line that,
    trimmed, does not end with a closing parenthesis, is not a brace, and
    starts with neither [let &] nor [head +=] (a label, a mnemonic with
    its operands) is copied to the lowered sequence, with the source line
    as provenance; when the sequence is full it is the fatal "asm1
    overflow" at the source line. *)
Theorem pass1_copies_assembler_lines (i : nat) (srcline : cstr) (g : globals) :
  ends_with 41 (trim srcline) = false ->
  trim srcline <> cs "{" ->
  trim srcline <> cs "}" ->
  starts_with (cs "let &") (trim srcline) = false ->
  starts_with (cs "head +=") (trim srcline) = false ->
  pass1_line i srcline g
  = if (MAXL <=? al g)%nat
    then Fatal (DieAt i Asm1Overflow)
    else Done (set_asm1 (asm1 g ++ [trim srcline]) (asmSrcLine g ++ [i]) g).
Proof.
  intros He Ho Hc Hlet Hhead.
  unfold pass1_line. cbv zeta beta. rewrite He, !andb_false_r. cbv iota.
  unfold pass1_rest.
  rewrite (streq_neq _ _ Ho), (streq_neq _ _ Hc), Hlet, Hhead, He,
    andb_false_r.
  pose proof (starts_with_longer (cs "let &") (cs "mut") _ Hlet) as Hmut.
  change (cs "let &" ++ cs "mut") with (cs "let &mut") in Hmut.
  rewrite Hmut.
  rewrite !(streq_ends 41 _ _ He) by reflexivity.
  cbv iota. unfold emit_asm1.
  destruct (MAXL <=? al g)%nat; reflexivity.
Qed.

Lemma pass1_copies_assembler_lines_witness :
  pass1_line 2 (cs "  Loop:  ") start
  = Done (set_asm1 [cs "Loop:"] [2] start).
Proof.
  apply (pass1_copies_assembler_lines 2 (cs "  Loop:  ") start);
    try reflexivity; vm_compute; discriminate.
Defined.

(** *** The capacity of the lowered sequence *)

Lemma emit_asm1_adds (i : nat) (text : cstr) (g : globals) :
  (emit_asm1 i text g = Undefined -> MAXL <= al g)
  /\ (forall g', emit_asm1 i text g = Done g' -> al g' = al g + 1).
Proof.
  unfold emit_asm1. destruct (Nat.leb_spec MAXL (al g)) as [H | H]; split.
  - intros _. lia.
  - discriminate.
  - discriminate.
  - intros g' E. injection E as <-. unfold al. cbn [asm1 set_asm1].
    rewrite length_app. cbn [length]. reflexivity.
Qed.

Lemma emit_two_adds (i : nat) (a b : cstr) (g : globals) :
  ((g1 <- emit_asm1 i a g ;; emit_asm1 i b g1) = Undefined
   -> MAXL < al g + 2)
  /\ (forall g',
        (g1 <- emit_asm1 i a g ;; emit_asm1 i b g1) = Done g' ->
        al g' = al g + 2).
Proof.
  destruct (emit_asm1_adds i a g) as [U1 D1].
  destruct (emit_asm1 i a g) as [g1 | d |]; cbn [bind].
  - destruct (emit_asm1_adds i b g1) as [U2 D2].
    specialize (D1 g1 eq_refl). split.
    + intro E. specialize (U2 E). lia.
    + intros g' E. rewrite (D2 g' E). lia.
  - split; discriminate.
  - split; [intros _; specialize (U1 eq_refl); lia | discriminate].
Qed.

Ltac capacity_case H :=
  repeat match type of H with
         | Done _ = Undefined => discriminate H
         | Fatal _ = Undefined => discriminate H
         | dieSrc _ _ = Undefined => discriminate H
         | emit_asm1 _ _ _ = Undefined =>
             apply (proj1 (emit_asm1_adds _ _ _)) in H; lia
         | emit_pair _ _ _ _ = Undefined =>
             apply (proj1 (emit_two_adds _ _ _ _)) in H; exact H
         | bind _ _ = Undefined =>
             apply (proj1 (emit_two_adds _ _ _ _)) in H; exact H
         | (if ?b then _ else _) = Undefined => destruct b
         | match ?o with Some _ => _ | None => _ end = Undefined =>
             destruct o as [[? ?] |]
         end.

Ltac growth_case H :=
  repeat match type of H with
         | Done _ = Done _ =>
             injection H as <-; unfold set_top, al;
             cbn [asm1 set_scope]; lia
         | Fatal _ = Done _ => discriminate H
         | dieSrc _ _ = Done _ => discriminate H
         | Undefined = Done _ => discriminate H
         | emit_asm1 _ _ _ = Done _ =>
             apply (proj2 (emit_asm1_adds _ _ _)) in H; lia
         | emit_pair _ _ _ _ = Done _ =>
             apply (proj2 (emit_two_adds _ _ _ _)) in H; lia
         | bind _ _ = Done _ =>
             apply (proj2 (emit_two_adds _ _ _ _)) in H; lia
         | (if ?b then _ else _) = Done _ => destruct b
         | match ?o with Some _ => _ | None => _ end = Done _ =>
             destruct o as [[? ?] |]
         end.

Lemma pass1_line_capacity (i : nat) (srcline : cstr) (g : globals) :
  (pass1_line i srcline g = Undefined -> MAXL < al g + 2)
  /\ (forall g', pass1_line i srcline g = Done g' ->
        al g <= al g' <= al g + 2).
Proof.
  split.
  - intro H. unfold pass1_line, pass1_rest in H. capacity_case H.
  - intros g' H. unfold pass1_line, pass1_rest in H. growth_case H.
Qed.

Lemma pass1_loop_capacity (lines : list cstr) (i : nat) (g : globals) :
  al g + 2 * length lines <= MAXL ->
  pass1_loop i lines g <> Undefined
  /\ (forall g', pass1_loop i lines g = Done g' ->
        al g' <= al g + 2 * length lines).
Proof.
  revert i g; induction lines as [| l lines IH]; intros i g Hcap;
    cbn [pass1_loop length] in *.
  - split; [discriminate |]. intros g' E. injection E as <-. lia.
  - destruct (pass1_line_capacity i l g) as [U D].
    destruct (pass1_line i l g) as [g1 | d |]; cbn [bind].
    + specialize (D g1 eq_refl).
      destruct (IH (S i) g1) as [U1 D1]; [lia |].
      split; [exact U1 |]. intros g' E. specialize (D1 g' E). lia.
    + split; discriminate.
    + specialize (U eq_refl). lia.
Qed.

(** X16. The lowerer stays inside its arrays on small programs: when
    twice the number of source lines fits into what is free of the
    lowered sequence (from the empty sequence: at most 256 source lines),
    [pass1] never stores behind the end of [asm1] and [asmSrcLine], and
    when it returns the sequence has grown by at most two lines a source
    line. *)
Theorem pass1_within_capacity (g : globals) :
  al g + 2 * sl g <= MAXL ->
  pass1 g <> Undefined
  /\ (forall g', pass1 g = Done g' -> al g' <= al g + 2 * sl g).
Proof.
  intro Hcap. unfold pass1.
  set (g0 := set_scope (list_set 0 no_borrow (bstack g)) 0 g).
  destruct (pass1_loop_capacity (src g) 0 g0) as [U D]; [exact Hcap |].
  destruct (pass1_loop 0 (src g) g0) as [g1 | d |]; cbn [bind].
  - specialize (D g1 eq_refl). change (al g0) with (al g) in D.
    fold (sl g) in D.
    destruct (sp g1 =? 0)%nat; split; try discriminate.
    intros g' E. injection E as <-. exact D.
  - split; discriminate.
  - contradiction U. reflexivity.
Qed.

Lemma pass1_within_capacity_witness :
  pass1 (set_src [cs "fold_mode(1)"; cs "mme(2)"] start) <> Undefined.
Proof.
  destruct (pass1_within_capacity (set_src [cs "fold_mode(1)"; cs "mme(2)"] start))
    as [H _]; [vm_compute; lia | exact H].
Defined.

End Builtins.

(** ** The diagnostics of each pass *)

Section Messages.














End Messages.
